(** * logos-format: a shallow embedding of [logos_format.py]

    The program rewrites Logos directives ([%hook], [%orig], ...) into
    text that clang-format accepts, runs clang-format, and rewrites the
    markers back.  This file embeds

    - the Python string primitives the program relies on ([in],
      [str.replace], [re.sub] for the one pattern shape the program
      compiles, [readlines], [os.path.splitext]);
    - the token catalogs and the two line transforms [logos_to_norm] and
      [norm_to_logos];
    - the orchestration ([get_logos_path], [real_main], [main]) as a
      state-and-exception monad over a small model of the file system;
    - the rewriting of clang-format's help text ([format_help]),

    and proves the properties of the transforms and of the pipeline.

    Characters are Rocq [ascii] values read as code points below 256;
    strings are Rocq [string]s.  Logging only writes to stderr and is left
    out of the model, except where evaluating a log message can raise.

    A file is known by the path the program spells for it: the model
    resolves no path, so two spellings of one file are two names.  The
    statements about files speak of the paths the program hands to
    [open], [copy] and the formatter, and of the files found under those
    spellings.  Text files are read with universal newlines and written
    without translation of line ends, as on a POSIX system. *)

From Stdlib Require Import String Ascii List Bool Arith Lia ZArith.
From stdpp Require Import gmap strings.
Import ListNotations.
Open Scope string_scope.
Open Scope list_scope.

(** [String.append] computes by [simpl] on a constructor-headed first
    argument throughout this file. *)
#[local] Arguments String.append !s1 s2 : simpl nomatch.

(** ** Characters *)

(** The newline character and the double quote, as one-character strings. *)
Definition nl : string := String "010"%char EmptyString.
Definition dq : string := String "034"%char EmptyString.

(** [\w] of Python's [re] on [str] patterns: alphanumerics and the
    underscore.  Below 128 these are the ASCII letters, digits and [_];
    between 128 and 255 they are the Latin-1 letters and numerics. *)
Definition is_word (c : ascii) : bool :=
  let n := nat_of_ascii c in
  (((48 <=? n) && (n <=? 57)) || ((65 <=? n) && (n <=? 90)) ||
  (n =? 95) || ((97 <=? n) && (n <=? 122)) ||
  (n =? 170) || (n =? 178) || (n =? 179) || (n =? 181) || (n =? 185) ||
  (n =? 186) || ((188 <=? n) && (n <=? 190)) ||
  ((192 <=? n) && (n <=? 214)) || ((216 <=? n) && (n <=? 246)) ||
  (248 <=? n))%nat.

(** ** String primitives *)

(** [s.startswith(p)]. *)
Fixpoint startswith (p s : string) : bool :=
  match p, s with
  | EmptyString, _ => true
  | String _ _, EmptyString => false
  | String a p', String b s' => Ascii.eqb a b && startswith p' s'
  end.

(** [p in s]: [p] occurs in [s] as a substring. *)
Fixpoint contains (p s : string) : bool :=
  startswith p s ||
  match s with
  | EmptyString => false
  | String _ s' => contains p s'
  end.

(** [s[n:]]. *)
Fixpoint drop_str (n : nat) (s : string) : string :=
  match n, s with
  | O, _ => s
  | S _, EmptyString => EmptyString
  | S k, String _ s' => drop_str k s'
  end.

(** [s.replace(old, new)] for a non-empty [old] (both call sites pass a
    non-empty literal): occurrences are replaced from the left and do not
    overlap.  [skip] counts the characters of the current occurrence that
    remain to be consumed. *)
Fixpoint replace_go (old new : string) (skip : nat) (s : string) : string :=
  match s with
  | EmptyString => EmptyString
  | String c s' =>
      match skip with
      | S k => replace_go old new k s'
      | O =>
          if startswith old s
          then new +:+ replace_go old new (String.length old - 1) s'
          else String c (replace_go old new 0 s')
      end
  end.

Definition str_replace (old new s : string) : string := replace_go old new 0 s.

(** [f.readlines()]: the lines of a text, each with its trailing newline;
    the last one has none when the text does not end with a newline. *)
Fixpoint readlines (s : string) : list string :=
  match s with
  | EmptyString => []
  | String c s' =>
      if Ascii.eqb c "010"
      then String c EmptyString :: readlines s'
      else match readlines s' with
           | [] => [String c EmptyString]
           | l :: ls => String c l :: ls
           end
  end.

(** What [write] calls leave in a file, one after the other. *)
Definition write_all (chunks : list string) : string :=
  fold_right String.append EmptyString chunks.

(** ** Regular expressions of the shape [%(name)\b] *)

(** [compile_logos_token_pat] builds [%(name)\b] from the token with its
    leading [%] removed; a compiled pattern is represented by that name. *)
Record Pattern := { pat_name : string }.

Definition compile_logos_token_pat (token : string) : Pattern :=
  {| pat_name := drop_str 1 token |}.

Fixpoint last_char (c : ascii) (s : string) : ascii :=
  match s with
  | EmptyString => c
  | String c' s' => last_char c' s'
  end.

Definition word_ahead (s : string) : bool :=
  match s with
  | EmptyString => false
  | String c _ => is_word c
  end.

(** [\b] between a character [prev] and the rest of the text: exactly one
    side is a word character (the end of the text counts as non-word). *)
Definition word_boundary (prev : ascii) (rest : string) : bool :=
  xorb (is_word prev) (word_ahead rest).

(** The pattern matches at the very start of [s]. *)
Definition match_at (p : Pattern) (s : string) : bool :=
  match s with
  | EmptyString => false
  | String c s' =>
      Ascii.eqb c "%" && startswith (pat_name p) s' &&
      word_boundary (last_char "%" (pat_name p))
                    (drop_str (String.length (pat_name p)) s')
  end.

(** [re.sub(p, repl + r"\1", s)]: every match, from the left and without
    overlap, is replaced by [repl] followed by the captured name. *)
Fixpoint re_sub_go (p : Pattern) (repl : string) (skip : nat) (s : string)
  : string :=
  match s with
  | EmptyString => EmptyString
  | String c s' =>
      match skip with
      | S k => re_sub_go p repl k s'
      | O =>
          if match_at p s
          then repl +:+ pat_name p +:+
               re_sub_go p repl (String.length (pat_name p)) s'
          else String c (re_sub_go p repl 0 s')
      end
  end.

Definition re_sub (p : Pattern) (repl s : string) : string :=
  re_sub_go p repl 0 s.

(** [len(p.findall(s))]: the number of matches [re.sub] replaces. *)
Fixpoint re_count_go (p : Pattern) (skip : nat) (s : string) : nat :=
  match s with
  | EmptyString => 0
  | String c s' =>
      match skip with
      | S k => re_count_go p k s'
      | O =>
          if match_at p s
          then S (re_count_go p (String.length (pat_name p)) s')
          else re_count_go p 0 s'
      end
  end.

Definition re_count (p : Pattern) (s : string) : nat := re_count_go p 0 s.

(** ** The token catalogs *)

Definition specialFilterList : list string :=
  ["%hook"; "%end"; "%new"; "%group"; "%subclass"].

Definition filterList : list string :=
  ["%property"; "%config"; "%hookf"; "%ctor"; "%dtor"; "%init"; "%c";
   "%orig"; "%log"].

Definition logos_special_filter_pats : gmap string Pattern :=
  list_to_map (map (fun token => (token, compile_logos_token_pat token))
                   specialFilterList).

Definition logos_filter_pats : gmap string Pattern :=
  list_to_map (map (fun token => (token, compile_logos_token_pat token))
                   filterList).

(** The marker prefix written in place of [%]. *)
Definition marker : string := "@logosformat".

(** ** The line transforms *)

(** One round of the first loop of [logos_to_norm].  The dictionary is
    keyed by the tuple the loop runs over, so the lookup cannot fail. *)
Definition filter_step (line token : string) : string :=
  if contains token line then
    match logos_filter_pats !! token with
    | Some pat => re_sub pat marker line
    | None => line
    end
  else line.

(** One round of the second loop: as above, and a [;] is appended. *)
Definition special_step (line token : string) : string :=
  if contains token line then
    match logos_special_filter_pats !! token with
    | Some pat => re_sub pat marker line +:+ ";"
    | None => line
    end
  else line.

(** The body of the loop of [logos_to_norm] for one line. *)
Definition logos_to_norm_line (line : string) : string :=
  fold_left special_step specialFilterList
            (fold_left filter_step filterList line).

(** The body of the loop of [norm_to_logos] for one line. *)
Definition norm_to_logos_line (line : string) : string :=
  if contains marker line then
    let line := str_replace marker "%" line in
    if existsb (fun token => contains token line) specialFilterList
    then str_replace ";" "" line
    else line
  else line.

(** [logos_to_norm] and [norm_to_logos] on the text of the input file,
    giving the text written to the output file. *)
Definition logos_to_norm (logos_file : string) : string :=
  write_all (map logos_to_norm_line (readlines logos_file)).

Definition norm_to_logos (norm_file : string) : string :=
  write_all (map norm_to_logos_line (readlines norm_file)).

(** ** Character classes used in the statements *)

Fixpoint all_chars (P : ascii -> bool) (s : string) : bool :=
  match s with
  | EmptyString => true
  | String c s' => P c && all_chars P s'
  end.

Definition is_lower (c : ascii) : bool :=
  ((97 <=? nat_of_ascii c) && (nat_of_ascii c <=? 122))%nat.

Definition is_sep (c : ascii) : bool := Ascii.eqb c ";" || Ascii.eqb c "010".

(** [lower s]: only the letters [a] to [z]; [free_of c s]: [c] does not
    occur in [s]; [seps s]: only terminators [;] and newlines. *)
Definition lower (s : string) : bool := all_chars is_lower s.
Definition free_of (c : ascii) (s : string) : bool :=
  all_chars (fun d => negb (Ascii.eqb d c)) s.
Definition seps (s : string) : bool := all_chars is_sep s.

(** [k] terminators in a row. *)
Fixpoint semis (k : nat) : string :=
  match k with
  | O => EmptyString
  | S k' => String ";" (semis k')
  end.

(** The number of [%] characters of a line. *)
Fixpoint pct (s : string) : nat :=
  match s with
  | EmptyString => 0
  | String c s' => (if Ascii.eqb c "%" then 1 else 0) + pct s'
  end.

(** A token is a [%] followed by a name. *)
Definition token_name (token : string) : string := drop_str 1 token.

(** The number of word-boundary occurrences of [token] in [line]. *)
Definition occurrences (token line : string) : nat :=
  re_count (compile_logos_token_pat token) line.

(** A well-formed token: a [%] followed by a non-empty lower-case name. *)
Definition token_ok (token : string) : bool :=
  startswith "%" token && lower (token_name token) &&
  negb (String.eqb (token_name token) "").

(** The first letter of a token's name. *)
Definition initial (token : string) : option ascii :=
  match token with
  | String _ (String a _) => Some a
  | _ => None
  end.

(** The substitution of one token, and of a list of tokens in turn. *)
Definition sub_token (line token : string) : string :=
  re_sub (compile_logos_token_pat token) marker line.

Definition subs (tokens : list string) (line : string) : string :=
  fold_left sub_token tokens line.

(** The number of tokens of the list whose name is found in the line when
    their turn comes. *)
Fixpoint fired (tokens : list string) (line : string) : nat :=
  match tokens with
  | [] => 0
  | t :: ts => (if contains t line then 1 else 0) + fired ts (sub_token line t)
  end.

(** The line after the first loop of [logos_to_norm]. *)
Definition after_filter (line : string) : string :=
  fold_left filter_step filterList line.

(** The terminated names present in a line. *)
Definition special_names_in (line : string) : list string :=
  List.filter (fun token => contains token line) specialFilterList.

(** The number of word-boundary occurrences of terminated tokens. *)
Definition special_occurrences (line : string) : nat :=
  list_sum (map (fun token => occurrences token line) specialFilterList).

(** No catalog directive has a word-boundary occurrence in the line. *)
Definition directive_free (line : string) : bool :=
  forallb (fun token => Nat.eqb (occurrences token line) 0)
          (specialFilterList ++ filterList).

(** The reverse transform applied to the forward transform of a line. *)
Abbreviation roundtrip line := (norm_to_logos_line (logos_to_norm_line line)).

(** All the tokens, in the order in which [logos_to_norm] handles them. *)
Definition catalog : list string := filterList ++ specialFilterList.

(** [s.endswith(suffix)]. *)
Fixpoint endswith (suffix s : string) : bool :=
  String.eqb suffix s ||
  match s with
  | EmptyString => false
  | String _ s' => endswith suffix s'
  end.

(** * The orchestration *)

(** ** Paths: [os.path] on POSIX, as the [path] package wraps it *)

(** [p[:n]]. *)
Fixpoint take_str (n : nat) (s : string) : string :=
  match n, s with
  | O, _ => EmptyString
  | S _, EmptyString => EmptyString
  | S k, String c s' => String c (take_str k s')
  end.

(** [os.path.basename]: what follows the last slash. *)
Fixpoint basename (p : string) : string :=
  if free_of "/" p then p
  else match p with
       | EmptyString => EmptyString
       | String _ p' => basename p'
       end.

(** The head of [os.path.split]: up to and including the last slash. *)
Fixpoint dir_head (p : string) : string :=
  if free_of "/" p then EmptyString
  else match p with
       | EmptyString => EmptyString
       | String c p' => String c (dir_head p')
       end.

(** [s.rstrip(c)]. *)
Fixpoint rstrip (c : ascii) (s : string) : string :=
  match s with
  | EmptyString => EmptyString
  | String a s' =>
      let r := rstrip c s' in
      if String.eqb r "" && Ascii.eqb a c then EmptyString else String a r
  end.

(** [os.path.dirname]: the head without its trailing slashes, unless it
    consists of slashes only. *)
Definition dirname (p : string) : string :=
  let head := dir_head p in
  if negb (String.eqb head "") && negb (all_chars (Ascii.eqb "/") head)
  then rstrip "/" head
  else head.

(** The extension of a file name without slashes: from its last dot on,
    provided some character before that dot is not a dot. *)
Fixpoint ext_go (seen : bool) (name : string) : string :=
  match name with
  | EmptyString => EmptyString
  | String c name' =>
      if Ascii.eqb c "." && seen && free_of "." name' then name
      else ext_go (seen || negb (Ascii.eqb c ".")) name'
  end.

(** [Path.ext], that is [os.path.splitext(p)[1]]. *)
Definition path_ext (p : string) : string := ext_go false (basename p).

(** [Path.stem]: the base name without its extension. *)
Definition path_stem (p : string) : string :=
  take_str (String.length (basename p) - String.length (path_ext p))
           (basename p).

(** The directory part as a prefix: [d] followed by a slash unless it is
    empty or ends with one. *)
Definition dir_prefix (d : string) : string :=
  if Ascii.eqb (last_char "/" d) "/" then d else d +:+ "/".

(** [os.path.join(a, b)]. *)
Definition path_join (a b : string) : string :=
  if startswith "/" b then b else dir_prefix a +:+ b.

(** [q] lies in the directory tree of [d]. *)
Definition under (d q : string) : bool := startswith (dir_prefix d) q.

(** [x in xs] for a tuple of strings. *)
Definition in_tuple (x : string) (xs : list string) : bool :=
  existsb (String.eqb x) xs.

(** ** Module constants *)

Definition program_name : string := "logos-format".

Definition logos_extensions : list string := [".x"; ".xi"; ".xm"; ".xmi"].

Definition logos_extensions_to_normal_extensions : gmap string string :=
  <[".x" := ".m"]> (<[".xi" := ".m"]> (<[".xm" := ".mm"]>
  (<[".xmi" := ".mm"]> ∅))).

(** ** The world the program runs in *)

(** The exceptions that occur. *)
Inductive Exn :=
| PermissionError (msg : string)
| CalledProcessError (returncode : Z) (output : string)
| UnboundLocalError (name : string)
| FileNotFoundError (path : string)
| KeyError (key : string)
| OSError (msg : string)
| KeyboardInterrupt
| SystemExit (code : Z).

(** [isinstance(e, Exception)]: everything but the two exceptions that
    derive from [BaseException] only. *)
Definition is_Exception (e : Exn) : bool :=
  match e with
  | KeyboardInterrupt | SystemExit _ => false
  | _ => true
  end.

(** How a child process ended: with an exit status and its captured
    output, or not at all because launching it raised.  The output is the
    text as [subprocess.run] hands it over under [text=True]. *)
Inductive SpawnResult :=
| Exited (returncode : Z) (output : string)
| Failed (e : Exn).

Definition failed (r : SpawnResult) : bool :=
  match r with
  | Exited rc _ => negb (Z.eqb rc 0)
  | Failed _ => true
  end.

(** The file-system operations and process launches of a run, in order. *)
Inductive Event :=
| EvMkdtemp (d : string)
| EvMkTemp (p : string)
| EvOpenRead (p : string)
| EvOpenWrite (p : string)
| EvCopy (src dst : string)
| EvSpawn (cmd : list string) (res : SpawnResult)
| EvRmtree (d : string).

(** The mutable world: the regular files, by the path they are spelled
    with, and their text as stored; the position in the stream of random
    numbers, what was printed, and the events so far. *)
Record World := mkWorld {
  w_files : gmap string string;
  w_next : nat;
  w_stdout : string;
  w_trace : list Event
}.

(** What the program finds around it and does not change: the working
    directory, the clang-format executable, its own version, the access
    rights, the random numbers [tempfile] draws, and the behaviour of
    the processes it launches (a result, and the files afterwards). *)
Record Env := mkEnv {
  cwd : string;
  clang_format_path : string;
  logos_format_version : string;
  readable : string -> bool;
  writable : string -> bool;
  rng : nat -> nat;
  spawn : list string -> gmap string string ->
          SpawnResult * gmap string string
}.

(** ** A state-and-exception monad *)

Inductive Result (A : Type) :=
| Ok (a : A)
| Raise (e : Exn).
Arguments Ok {A} a.
Arguments Raise {A} e.

Definition M (A : Type) : Type := World -> Result A * World.

Definition ret {A} (a : A) : M A := fun w => (Ok a, w).

Definition raise {A} (e : Exn) : M A := fun w => (Raise e, w).

Definition bind {A B} (m : M A) (k : A -> M B) : M B :=
  fun w =>
    match m w with
    | (Ok a, w') => k a w'
    | (Raise e, w') => (Raise e, w')
    end.

Notation "x <- m ;; k" := (bind m (fun x => k))
  (at level 100, m at next level, right associativity).
Notation "m ;;; k" := (bind m (fun _ => k))
  (at level 100, right associativity).

(** A [for] loop that threads a state through its rounds. *)
Fixpoint for_each {A S} (body : S -> A -> M S) (xs : list A) (st : S) : M S :=
  match xs with
  | [] => ret st
  | x :: xs' => st' <- body st x ;; for_each body xs' st'
  end.

Definition emit (e : Event) : M unit :=
  fun w => (Ok tt, mkWorld (w_files w) (w_next w) (w_stdout w)
                           (w_trace w ++ [e])).

Definition set_files (fs : gmap string string) : M unit :=
  fun w => (Ok tt, mkWorld fs (w_next w) (w_stdout w) (w_trace w)).

Definition get_files : M (gmap string string) := fun w => (Ok (w_files w), w).

(** [print(s, end="")]. *)
Definition print (s : string) : M unit :=
  fun w => (Ok tt, mkWorld (w_files w) (w_next w) (w_stdout w +:+ s)
                           (w_trace w)).

(** [Path.isfile]. *)
Definition isfile (p : string) : M bool :=
  fun w => (Ok (bool_decide (is_Some (w_files w !! p))), w).

(** Universal newlines, as a file opened for reading in text mode applies
    them: a carriage return is read as a line feed, and a line feed that
    comes right after a carriage return ([after_cr]) is not read again. *)
Fixpoint universal_newlines_go (after_cr : bool) (s : string) : string :=
  match s with
  | EmptyString => EmptyString
  | String c s' =>
      if Ascii.eqb c "013" then String "010" (universal_newlines_go true s')
      else if after_cr && Ascii.eqb c "010" then universal_newlines_go false s'
      else String c (universal_newlines_go false s')
  end.

Definition universal_newlines (s : string) : string :=
  universal_newlines_go false s.

(** [open(p)] and reading the file to its end, at once or line by line:
    the stored text with universal newlines applied. *)
Definition read_file (p : string) : M string :=
  emit (EvOpenRead p) ;;;
  fs <- get_files ;;
  match fs !! p with
  | Some text => ret (universal_newlines text)
  | None => raise (FileNotFoundError p)
  end.

(** [open(p, "w")] and the writes up to closing the file; a line feed is
    stored as it is. *)
Definition write_file (p text : string) : M unit :=
  emit (EvOpenWrite p) ;;;
  fs <- get_files ;;
  set_files (<[p := text]> fs).

(** [Path.copy]: [shutil.copy]. *)
Definition copy_file (src dst : string) : M unit :=
  emit (EvCopy src dst) ;;;
  fs <- get_files ;;
  match fs !! src with
  | Some text => set_files (<[dst := text]> fs)
  | None => raise (FileNotFoundError src)
  end.

(** The eight characters [tempfile] draws for a name. *)
Definition characters : list ascii :=
  list_ascii_of_string "abcdefghijklmnopqrstuvwxyz0123456789_".

Fixpoint choices (k seed : nat) : string :=
  match k with
  | O => EmptyString
  | S k' => String (nth (seed mod 37) characters "_"%char)
                   (choices k' (seed / 37))
  end.

Definition random_name (env : Env) : M string :=
  fun w => (Ok (choices 8 (rng env (w_next w))),
            mkWorld (w_files w) (S (w_next w)) (w_stdout w) (w_trace w)).

(** [tempfile.mkdtemp(prefix=prefix, dir=dir)]. *)
Definition mkdtemp (env : Env) (prefix dir : string) : M string :=
  name <- random_name env ;;
  let d := path_join dir (prefix +:+ name) in
  emit (EvMkdtemp d) ;;; ret d.

(** [tempfile.NamedTemporaryFile(mode="w", dir=dir, prefix=prefix,
    suffix=suffix, delete=False).name]: a new, empty file.  The name drawn
    is taken as it is; [tempfile] draws again should the name exist. *)
Definition NamedTemporaryFile (env : Env) (dir prefix suffix : string)
  : M string :=
  name <- random_name env ;;
  let p := path_join dir (prefix +:+ name +:+ suffix) in
  emit (EvMkTemp p) ;;;
  fs <- get_files ;;
  set_files (<[p := EmptyString]> fs) ;;;
  ret p.

(** [Path.rmtree]: every file in the tree is removed. *)
Definition rmtree (d : string) : M unit :=
  emit (EvRmtree d) ;;;
  fs <- get_files ;;
  set_files (filter (fun kv => under d kv.1 = false) fs).

(** [subprocess.run(cmd, ..., text=True, check=check)] with the output
    captured: the captured text, or [CalledProcessError] on a non-zero
    exit status when [check] is set. *)
Definition subprocess_run (env : Env) (check : bool) (cmd : list string)
  : M string :=
  fs <- get_files ;;
  let '(res, fs') := spawn env cmd fs in
  emit (EvSpawn cmd res) ;;;
  set_files fs' ;;;
  match res with
  | Exited rc out =>
      if check && negb (Z.eqb rc 0) then raise (CalledProcessError rc out)
      else ret out
  | Failed e => raise e
  end.

(** ** [get_logos_path] *)

Definition get_logos_path (env : Env) (arg : string) : M (option string) :=
  let path := arg in
  is_file <- isfile path ;;
  if is_file && in_tuple (path_ext path) logos_extensions then
    if negb (readable env path) then
      raise (PermissionError ("Can't read Logos file '" +:+ path +:+ "'"))
    else if negb (writable env path) then
      raise (PermissionError ("Can't write Logos file '" +:+ path +:+ "'"))
    else ret (Some path)
  else ret None.

(** ** [SaveableTempDir] *)

(** The [with] statement over a [SaveableTempDir]: the directory is made
    on entry; on exit, normal or not, [TempDir.__exit__] of the [path]
    package removes the tree unless [save] is set, and an exception of
    the body propagates. *)
Definition with_SaveableTempDir {A} (env : Env) (prefix dir : string)
  (save : bool) (body : string -> M A) : M A :=
  d <- mkdtemp env prefix dir ;;
  fun w =>
    let '(r, w') := body d w in
    if save then (r, w') else (r, snd (rmtree d w')).

(** ** [real_main] *)

Record Namespace := mkNamespace {
  ns_version : bool;
  ns_verbose_logos : bool;
  ns_save_logos_temps : bool;
  ns_in_place : bool
}.

(** The local variables the first loop of [real_main] builds up; the two
    dictionaries keep their insertion order. *)
Record Session := mkSession {
  new_cf_args : list string;
  tmp_norm_to_tmp_logos : list (string * string);
  tmp_logos_to_orig_logos : list (string * string)
}.

(** [d[k] = v] on an insertion-ordered dictionary. *)
Fixpoint dict_set (k v : string) (d : list (string * string))
  : list (string * string) :=
  match d with
  | [] => [(k, v)]
  | (k', v') :: d' =>
      if String.eqb k' k then (k, v) :: d' else (k', v') :: dict_set k v d'
  end.

(** The body of [if orig_logos is not None:]: the temporary files are
    made and the original is transformed into the first of them. *)
Definition transform_to_temp (env : Env) (d : string)
  (in_place save_temps : bool) (st : Session) (orig_logos : string)
  : M Session :=
  norm_ext <-
    match logos_extensions_to_normal_extensions !! path_ext orig_logos with
    | Some e => ret e
    | None => raise (KeyError (path_ext orig_logos))
    end ;;
  tmp_norm <-
    NamedTemporaryFile env d (path_stem orig_logos +:+ "-") norm_ext ;;
  st <-
    (if in_place then
       tmp_logos <-
         NamedTemporaryFile env d (path_stem orig_logos +:+ "-")
                            (path_ext orig_logos) ;;
       ret (mkSession
              (new_cf_args st)
              (dict_set tmp_norm tmp_logos (tmp_norm_to_tmp_logos st))
              (dict_set tmp_logos orig_logos (tmp_logos_to_orig_logos st)))
     else ret st) ;;
  text <- read_file orig_logos ;;
  write_file tmp_norm (logos_to_norm text) ;;;
  (if save_temps && negb in_place then
     let tmp_norm_unformatted :=
       path_join (dirname tmp_norm) (path_stem tmp_norm)
       +:+ "-unformatted" +:+ path_ext tmp_norm in
     copy_file tmp_norm tmp_norm_unformatted
   else ret tt) ;;;
  ret (mkSession (new_cf_args st ++ [tmp_norm])
                 (tmp_norm_to_tmp_logos st)
                 (tmp_logos_to_orig_logos st)).

(** One round of the loop over [clang_format_args]. *)
Definition classify_and_transform (env : Env) (d : string)
  (in_place save_temps : bool) (st : Session) (cf_arg : string) : M Session :=
  orig_logos <- get_logos_path env cf_arg ;;
  match orig_logos with
  | Some orig_logos => transform_to_temp env d in_place save_temps st orig_logos
  | None =>
      ret (mkSession (new_cf_args st ++ [cf_arg])
                     (tmp_norm_to_tmp_logos st)
                     (tmp_logos_to_orig_logos st))
  end.

Definition empty_session : Session := mkSession [] [] [].

(** What follows a formatter run that succeeded. *)
Definition post_process (in_place : bool) (st : Session) (cf_stdout : string)
  : M unit :=
  if in_place then
    print cf_stdout ;;;
    for_each (fun (_ : unit) '(tmp_norm, tmp_logos) =>
                text <- read_file tmp_norm ;;
                write_file tmp_logos (norm_to_logos text))
             (tmp_norm_to_tmp_logos st) tt ;;;
    for_each (fun (_ : unit) '(tmp_logos, orig_logos) =>
                text <- read_file tmp_logos ;;
                write_file orig_logos text)
             (tmp_logos_to_orig_logos st) tt
  else
    print (norm_to_logos cf_stdout).

(** The command line handed to clang-format. *)
Definition new_cf_cmd (env : Env) (in_place : bool) (st : Session)
  : list string :=
  clang_format_path env ::
  (if in_place then "-i" :: new_cf_args st else new_cf_args st).

(** The [try] statement around the formatter run and what follows it.
    The handler for [CalledProcessError] returns the exit status.  The
    handler for any other [Exception] starts by formatting
    [cf_res.stdout]; [cf_res] was never bound, so that raises
    [UnboundLocalError] and the [return 1] after it is never reached.
    Other exceptions pass through. *)
Definition run_clang_format (env : Env) (in_place : bool) (st : Session)
  : M Z :=
  fun w =>
    match subprocess_run env true (new_cf_cmd env in_place st) w with
    | (Ok cf_stdout, w') =>
        (post_process in_place st cf_stdout ;;; ret 0%Z) w'
    | (Raise (CalledProcessError returncode _), w') => (Ok returncode, w')
    | (Raise e, w') =>
        if is_Exception e then (Raise (UnboundLocalError "cf_res"), w')
        else (Raise e, w')
    end.

Definition real_main (env : Env) (logos_format_args : Namespace)
  (clang_format_args : list string) : M Z :=
  if ns_version logos_format_args then
    print (program_name +:+ " version " +:+ logos_format_version env +:+ nl) ;;;
    out <- subprocess_run env false [clang_format_path env; "--version"] ;;
    print out ;;;
    ret 0%Z
  else
    let save_temps := ns_save_logos_temps logos_format_args in
    let in_place := ns_in_place logos_format_args in
    with_SaveableTempDir env (program_name +:+ "-tmp-") (cwd env) save_temps
      (fun d =>
         st <- for_each (classify_and_transform env d in_place save_temps)
                        clang_format_args empty_session ;;
         run_clang_format env in_place st).

(** ** [main] *)

(** [main], given what [parse_known_intermixed_args] returned or raised:
    an [Exception] becomes exit code 1, [KeyboardInterrupt] exit code 0,
    and anything else propagates. *)
Definition main (env : Env) (parsed : Result (Namespace * list string))
  : M Z :=
  fun w =>
    let '(r, w') :=
      match parsed with
      | Ok (logos_format_args, clang_format_args) =>
          real_main env logos_format_args clang_format_args w
      | Raise e => (Raise e, w)
      end in
    match r with
    | Ok code => (Ok code, w')
    | Raise e =>
        if is_Exception e then (Ok 1%Z, w')
        else match e with
             | KeyboardInterrupt => (Ok 0%Z, w')
             | _ => (Raise e, w')
             end
    end.

(** The directory [real_main] makes for a run started in [w]. *)
Definition workspace (env : Env) (w : World) : string :=
  path_join (cwd env)
            ((program_name +:+ "-tmp-") +:+ choices 8 (rng env (w_next w))).

(** A directory name that is not empty and does not end with a slash. *)
Definition proper_dir (d : string) : Prop :=
  Ascii.eqb (last_char "/" d) "/" = false.

(** No file of the world lies in the tree of [d]. *)
Definition fresh_dir (d : string) (w : World) : Prop :=
  map_Forall (fun p _ => under d p = false) (w_files w).

(** A process changes no file that is not among its arguments. *)
Definition spawn_frame (env : Env) : Prop :=
  forall cmd fs q,
    ~ In q (tl cmd) -> (spawn env cmd fs).2 !! q = fs !! q.

(** An argument that [get_logos_path] takes for a Logos source: an
    existing file with one of the Logos extensions. *)
Definition recognized (w : World) (arg : string) : bool :=
  bool_decide (is_Some (w_files w !! arg)) &&
  in_tuple (path_ext arg) logos_extensions.

(** The results of the processes launched in a trace. *)
Fixpoint spawn_results (tr : list Event) : list SpawnResult :=
  match tr with
  | [] => []
  | EvSpawn _ res :: tr' => res :: spawn_results tr'
  | _ :: tr' => spawn_results tr'
  end.

(** The files a trace opens for writing or copies to. *)
Fixpoint written (tr : list Event) : list string :=
  match tr with
  | [] => []
  | EvOpenWrite p :: tr' => p :: written tr'
  | EvCopy _ dst :: tr' => dst :: written tr'
  | _ :: tr' => written tr'
  end.

(** ** A sample project *)

(** One Logos source in the working directory. *)
Definition sample_files : gmap string string :=
  <["Tweak.xm" := "%hook SpringBoard" +:+ nl +:+
                  "- (void)launch { %orig; }" +:+ nl +:+ "%end" +:+ nl]> ∅.

Definition sample_world : World := mkWorld sample_files 0 "" [].

(** An environment where every file can be read, files can be written
    when [can_write] is set, and clang-format ends as [res] and changes
    no file. *)
Definition sample_env (can_write : bool) (res : SpawnResult) : Env :=
  mkEnv "/work" "/usr/bin/clang-format" "1.0"
        (fun _ => true) (fun _ => can_write) (fun n => n)
        (fun _ fs => (res, fs)).

(** [logos-format -i ...] and [logos-format ...]. *)
Definition in_place_args : Namespace := mkNamespace false false false true.
Definition stream_args : Namespace := mkNamespace false false false false.

(** The files a trace creates, opens or copies. *)
Fixpoint touched (tr : list Event) : list string :=
  match tr with
  | [] => []
  | EvMkTemp p :: tr' => p :: touched tr'
  | EvOpenRead p :: tr' => p :: touched tr'
  | EvOpenWrite p :: tr' => p :: touched tr'
  | EvCopy src dst :: tr' => src :: dst :: touched tr'
  | _ :: tr' => touched tr'
  end.

(** The paths the program has business with: the files of its workspace
    and the files with a Logos extension. *)
Definition okpath (d q : string) : bool :=
  under d q || in_tuple (path_ext q) logos_extensions.

(** What the first loop of [real_main] may do to the world: files outside
    the workspace [d] keep their text, no file disappears, no process is
    launched, every file written lies in the workspace, and every file
    opened lies there or has a Logos extension. *)
Definition steps (d : string) (w w' : World) : Prop :=
  (forall q, under d q = false -> w_files w' !! q = w_files w !! q) /\
  (forall q, is_Some (w_files w !! q) -> is_Some (w_files w' !! q)) /\
  exists evs, w_trace w' = w_trace w ++ evs /\ spawn_results evs = [] /\
              Forall (fun q => under d q = true) (written evs) /\
              Forall (fun q => okpath d q = true) (touched evs).

(** The two dictionaries of a session: temporary files of the workspace,
    and originals with a Logos extension. *)
Definition session_ok (d : string) (st : Session) : Prop :=
  Forall (fun kv => under d kv.1 = true /\ under d kv.2 = true)
         (tmp_norm_to_tmp_logos st) /\
  Forall (fun kv => under d kv.1 = true /\
                    in_tuple (path_ext kv.2) logos_extensions = true)
         (tmp_logos_to_orig_logos st).

(** A computation that launches no process and opens only files of the
    workspace and files with a Logos extension. *)
Definition polite (d : string) {A} (m : M A) : Prop :=
  forall w, exists evs,
    w_trace (m w).2 = w_trace w ++ evs /\ spawn_results evs = [] /\
    Forall (fun q => okpath d q = true) (touched evs).

(** The state of the world when the [with] block of [real_main] is left. *)
Definition cleanup (save : bool) (d : string) (w : World) : World :=
  if save then w else (rmtree d w).2.

(** [isinstance(e, subprocess.CalledProcessError)]. *)
Definition is_CalledProcessError (e : Exn) : bool :=
  match e with
  | CalledProcessError _ _ => true
  | _ => false
  end.

(** No separator occurs in [p]. *)
Definition nosep (p : string) : bool := all_chars (fun c => negb (is_sep c)) p.

(** Every token of the list is well formed. *)
Definition tokens_ok (ts : list string) : Prop :=
  Forall (fun t => token_ok t = true) ts.

(** * Further definitions *)

(** The name [NamedTemporaryFile] returns in the directory [d] for the
    original [orig] and a suffix, when it draws the random number [n]. *)
Definition temp_path (env : Env) (d orig suffix : string) (n : nat) : string :=
  path_join d ((path_stem orig +:+ "-") +:+ choices 8 (rng env n) +:+ suffix).

(** The additional copy that [--save-logos-temps] keeps in stream mode. *)
Definition unformatted_path (tmp_norm : string) : string :=
  path_join (dirname tmp_norm) (path_stem tmp_norm)
  +:+ "-unformatted" +:+ path_ext tmp_norm.

(** The sample project stored with carriage return-line feed pairs. *)
Definition crlf : string := String "013" (String "010" EmptyString).

Definition crlf_world : World :=
  mkWorld (<["Tweak.xm" := "%hook SpringBoard" +:+ crlf +:+
                           "- (void)launch { %orig; }" +:+ crlf +:+
                           "%end" +:+ crlf]> ∅) 0 "" [].

(** The argument [x] that stands on the formatter's command line for the
    argument [a] of a run started in [w] with workspace [d]: a workspace
    file for a Logos source, and [a] itself otherwise. *)
Definition substituted (d : string) (w : World) (a x : string) : Prop :=
  (x = a \/ under d x = true) /\
  (recognized w a = true -> under d x = true) /\
  (recognized w a = false -> under d a = false -> x = a).

(** A computation that prints nothing. *)
Definition silent {A} (m : M A) : Prop :=
  forall w, w_stdout (m w).2 = w_stdout w.

(** A computation that opens for writing, or copies to, only paths that
    satisfy [P]. *)
Definition writes_only (P : string -> Prop) {A} (m : M A) : Prop :=
  forall w, exists evs,
    w_trace (m w).2 = w_trace w ++ evs /\ Forall P (written evs).

(** The world after the formatter was launched with [cmd] in [w]. *)
Definition launched (env : Env) (cmd : list string) (w : World) : World :=
  mkWorld (spawn env cmd (w_files w)).2 (w_next w) (w_stdout w)
          (w_trace w ++ [EvSpawn cmd (spawn env cmd (w_files w)).1]).

(** ** [LogosHelpFormatter.format_help] *)

(** The line boundaries of [str.splitlines] among the code points below
    256: line feed, vertical tab, form feed, carriage return, the file,
    group and record separators, and next line. *)
Definition is_linebreak (c : ascii) : bool :=
  let n := nat_of_ascii c in
  (((10 <=? n) && (n <=? 13)) || ((28 <=? n) && (n <=? 30)) || (n =? 133))%nat.

(** [s.splitlines()]: the lines without their boundaries; a carriage
    return followed by a line feed is one boundary ([after_cr] is set
    right after a carriage return), and a boundary at the very end starts
    no further line. *)
Fixpoint splitlines_go (after_cr : bool) (s : string) : list string :=
  match s with
  | EmptyString => []
  | String c s' =>
      if after_cr && Ascii.eqb c "010" then splitlines_go false s'
      else if is_linebreak c
      then EmptyString :: splitlines_go (Ascii.eqb c "013") s'
      else match splitlines_go false s' with
           | [] => [String c EmptyString]
           | l :: ls => String c l :: ls
           end
  end.

Definition splitlines (s : string) : list string := splitlines_go false s.

(** [\s] of Python's [re] on [str] patterns, among the code points below
    256. *)
Definition is_space (c : ascii) : bool :=
  let n := nat_of_ascii c in
  (((9 <=? n) && (n <=? 13)) || ((28 <=? n) && (n <=? 32)) ||
   (n =? 133) || (n =? 160))%nat.

(** The longest run of whitespace at the start of a text, and the rest. *)
Fixpoint span_space (s : string) : string * string :=
  match s with
  | EmptyString => (EmptyString, EmptyString)
  | String c s' =>
      if is_space c
      then let '(ws, rest) := span_space s' in (String c ws, rest)
      else (EmptyString, s)
  end.

(** [re.match("^(?P<pre_space>\s+)--verbose(?P<post_space>\s+)-", line)]:
    the two groups of a match.  Each [\s+] is followed by a hyphen, which
    is no whitespace, so it can only match the whole run of whitespace it
    starts in. *)
Definition match_verbose (line : string) : option (string * string) :=
  let '(pre_space, rest) := span_space line in
  if String.eqb pre_space "" then None
  else if startswith "--verbose" rest then
    let '(post_space, rest') := span_space (drop_str 9 rest) in
    if String.eqb post_space "" then None
    else if startswith "-" rest' then Some (pre_space, post_space)
    else None
  else None.

(** [" " * n]: empty when [n] is not positive. *)
Fixpoint repeat_space (n : nat) : string :=
  match n with
  | O => EmptyString
  | S n' => String " " (repeat_space n')
  end.

Definition spaces (n : Z) : string := repeat_space (Z.to_nat n).

(** [len(match.group(0)) - 1]. *)
Definition num_chars_before_dash (pre_space post_space : string) : Z :=
  Z.of_nat (String.length (pre_space +:+ "--verbose" +:+ post_space +:+ "-"))
  - 1.

(** The two lines inserted after a [--verbose] line. *)
Definition logos_verbose_line (prog pre_space post_space : string) : string :=
  let logos_verbose_line := pre_space +:+ "--verbose-logos" in
  let num_spaces_after_verbose_logos :=
    (num_chars_before_dash pre_space post_space
     - Z.of_nat (String.length logos_verbose_line))%Z in
  logos_verbose_line +:+ spaces num_spaces_after_verbose_logos
  +:+ "- If set, shows verbose operation of " +:+ prog +:+ ".".

Definition logos_save_temps_line (prog pre_space post_space : string)
  : string :=
  let logos_save_temps_line := pre_space +:+ "--save-logos-temps" in
  let num_spaces_after_logos_save_temps :=
    (num_chars_before_dash pre_space post_space
     - Z.of_nat (String.length logos_save_temps_line))%Z in
  logos_save_temps_line +:+ spaces num_spaces_after_logos_save_temps
  +:+ "- If set, don't delete temporary " +:+ prog +:+ " files.".

(** [l.insert(i, x)]: [x] comes before the element at index [i], or last
    when the list is shorter. *)
Fixpoint list_insert {A} (i : nat) (x : A) (l : list A) : list A :=
  match i, l with
  | O, _ => x :: l
  | S _, [] => [x]
  | S i', y :: l' => y :: list_insert i' x l'
  end.

(** The loop [for i, line in enumerate(logos_help_lines)] from index [i]
    on.  The list grows while it is run over, and the lines inserted are
    visited in their turn; [fuel] bounds the number of rounds. *)
Fixpoint help_loop (fuel : nat) (prog : string) (i : nat)
  (logos_help_lines : list string) : option (list string) :=
  match fuel with
  | O => None
  | S fuel' =>
      match nth_error logos_help_lines i with
      | None => Some logos_help_lines
      | Some line =>
          match match_verbose line with
          | Some (pre_space, post_space) =>
              help_loop fuel' prog (S i)
                (list_insert (i + 2)
                   (logos_save_temps_line prog pre_space post_space)
                   (list_insert (i + 1)
                      (logos_verbose_line prog pre_space post_space)
                      logos_help_lines))
          | None => help_loop fuel' prog (S i) logos_help_lines
          end
      end
  end.

(** [sep.join(xs)]. *)
Fixpoint join (sep : string) (xs : list string) : string :=
  match xs with
  | [] => EmptyString
  | [x] => x
  | x :: xs' => x +:+ sep +:+ join sep xs'
  end.

(** [re.sub(r"(?<!\.)clang-format", prog, s)] for a [prog] without
    backslash, which as a replacement template stands for itself: every
    [clang-format] that no dot precedes, from the left and without
    overlap.  [prev_dot] tells whether the character before is a dot. *)
Fixpoint sub_prog_go (prog : string) (prev_dot : bool) (skip : nat)
  (s : string) : string :=
  match s with
  | EmptyString => EmptyString
  | String c s' =>
      match skip with
      | S k => sub_prog_go prog (Ascii.eqb c ".") k s'
      | O =>
          if negb prev_dot && startswith "clang-format" s
          then prog +:+ sub_prog_go prog (Ascii.eqb c ".") 11 s'
          else String c (sub_prog_go prog (Ascii.eqb c ".") 0 s')
      end
  end.

Definition sub_prog (prog s : string) : string := sub_prog_go prog false 0 s.

(** How [format_help] ends: with the help text, or with the [IndexError]
    of the assignment to [logos_help_lines[0]]; [HelpNoFuel] tells that
    the rounds allowed to the loop did not suffice. *)
Inductive HelpResult :=
| HelpText (text : string)
| HelpIndexError
| HelpNoFuel.

(** [format_help] on the captured output of [clang-format -h]. *)
Definition help_text (fuel : nat) (prog clang_help_str : string)
  : HelpResult :=
  match splitlines clang_help_str with
  | [] => HelpIndexError
  | _ :: rest =>
      let logos_help_lines :=
        ("OVERVIEW: " +:+ prog +:+ ": A tool to format Logos code.") :: rest in
      match help_loop fuel prog 0 logos_help_lines with
      | None => HelpNoFuel
      | Some logos_help_lines =>
          let logos_help_str := join nl logos_help_lines in
          let logos_help_str := sub_prog prog logos_help_str in
          let logos_help_str :=
            str_replace "Objective-C: .m .mm"
                        "Objective-C: .m .mm .x .xi .xm .xmi" logos_help_str in
          HelpText (logos_help_str +:+ nl)
      end
  end.

(** [LogosHelpFormatter.format_help]: clang-format is asked for its help
    text, which is then rewritten. *)
Definition format_help (env : Env) (fuel : nat) (prog : string)
  : M HelpResult :=
  clang_help_str <- subprocess_run env false [clang_format_path env; "-h"] ;;
  ret (help_text fuel prog clang_help_str).

(** What the loop makes of one line: a [--verbose] line is followed by
    the two lines made for it. *)
Definition with_logos_options (prog line : string) : list string :=
  match match_verbose line with
  | Some (pre_space, post_space) =>
      [line; logos_verbose_line prog pre_space post_space;
       logos_save_temps_line prog pre_space post_space]
  | None => [line]
  end.

(** The number of newlines of a text. *)
Fixpoint newlines (s : string) : nat :=
  match s with
  | EmptyString => 0
  | String c s' => (if Ascii.eqb c "010" then 1 else 0) + newlines s'
  end.

(** The directory trees a trace removes. *)
Fixpoint removals (tr : list Event) : list string :=
  match tr with
  | [] => []
  | EvRmtree d :: tr' => d :: removals tr'
  | _ :: tr' => removals tr'
  end.

(** A computation that removes nothing. *)
Definition keeps_trees {A} (m : M A) : Prop :=
  forall w, removals (w_trace (m w).2) = removals (w_trace w).

(** * Facts about the string primitives *)

Lemma app_str_assoc (a b c : string) : (a +:+ b) +:+ c = a +:+ (b +:+ c).
Proof. induction a as [|x a IH]; simpl; [reflexivity | now rewrite IH]. Qed.

Lemma app_str_nil_r (a : string) : a +:+ "" = a.
Proof. induction a as [|x a IH]; simpl; [reflexivity | now rewrite IH]. Qed.

Lemma drop_str_nil (n : nat) : drop_str n "" = "".
Proof. now destruct n. Qed.

Lemma drop_str_app (p s : string) : drop_str (String.length p) (p +:+ s) = s.
Proof. induction p as [|x p IH]; simpl; [reflexivity | exact IH]. Qed.

Lemma drop_str_drop (n m : nat) (s : string) :
  drop_str n (drop_str m s) = drop_str (m + n) s.
Proof.
  revert s; induction m as [|m IH]; intros s; simpl; [reflexivity |].
  destruct s as [|c s]; [apply drop_str_nil | apply IH].
Qed.

(** Induction on a string with the hypothesis available for every suffix
    of the tail: the scheme the scanning functions recurse along. *)
Lemma string_suffix_ind (P : string -> Prop) :
  P "" ->
  (forall c s, P s -> (forall n, P (drop_str n s)) -> P (String c s)) ->
  forall s, P s.
Proof.
  intros Hnil Hcons s.
  enough (H : forall n, P (drop_str n s)) by exact (H 0).
  induction s as [|c s IH]; intros n.
  - now rewrite drop_str_nil.
  - destruct n as [|n]; simpl; [apply Hcons; [apply (IH 0) | apply IH] | apply IH].
Qed.

Lemma startswith_nil (s : string) : startswith "" s = true.
Proof. now destruct s. Qed.

Lemma startswith_cons a p c s :
  startswith (String a p) (String c s) = Ascii.eqb a c && startswith p s.
Proof. reflexivity. Qed.

Lemma startswith_app (p s : string) : startswith p (p +:+ s) = true.
Proof.
  induction p as [|x p IH]; simpl; [reflexivity |].
  now rewrite (Ascii.eqb_refl x).
Qed.

Lemma startswith_split (p s : string) :
  startswith p s = true -> s = p +:+ drop_str (String.length p) s.
Proof.
  revert s; induction p as [|x p IH]; intros [|c s] H; simpl in *;
    try reflexivity; try discriminate.
  apply andb_prop in H as [Hc Hp]. apply Ascii.eqb_eq in Hc as ->.
  f_equal. now apply IH.
Qed.

Lemma contains_cons (p : string) (c : ascii) (s : string) :
  contains p (String c s) = startswith p (String c s) || contains p s.
Proof. reflexivity. Qed.

Lemma contains_startswith (p s : string) :
  startswith p s = true -> contains p s = true.
Proof. intros H. destruct s; simpl in *; rewrite H; reflexivity. Qed.

Lemma contains_app_l (p v s : string) :
  contains p s = true -> contains p (v +:+ s) = true.
Proof.
  intros H. induction v as [|c v IH]; simpl; [exact H |].
  rewrite IH. apply orb_true_r.
Qed.

Lemma contains_drop (p : string) (n : nat) (s : string) :
  contains p (drop_str n s) = true -> contains p s = true.
Proof.
  revert s. induction n as [|n IH]; intros s H; [exact H |].
  destruct s as [|c s]; [exact H |].
  rewrite contains_cons, (IH s H). apply orb_true_r.
Qed.

(** ** The equations of the scanning functions *)

Lemma replace_go_skip old new k s :
  replace_go old new k s = str_replace old new (drop_str k s).
Proof.
  revert k; induction s as [|c s IH]; intros [|k]; try reflexivity.
  simpl. apply IH.
Qed.

Lemma str_replace_nil old new : str_replace old new "" = "".
Proof. reflexivity. Qed.

Lemma str_replace_hit old new s :
  old <> "" -> startswith old s = true ->
  str_replace old new s =
  new +:+ str_replace old new (drop_str (String.length old) s).
Proof.
  intros Hne H. destruct s as [|c s].
  - destruct old; [congruence | discriminate].
  - unfold str_replace at 1. cbn [replace_go]. rewrite H.
    rewrite replace_go_skip. destruct old as [|a old]; [congruence |].
    simpl. now rewrite Nat.sub_0_r.
Qed.

Lemma str_replace_miss old new c s :
  startswith old (String c s) = false ->
  str_replace old new (String c s) = String c (str_replace old new s).
Proof. intros H. unfold str_replace at 1. cbn [replace_go]. now rewrite H. Qed.

Lemma re_sub_go_skip p r k s : re_sub_go p r k s = re_sub p r (drop_str k s).
Proof.
  revert k; induction s as [|c s IH]; intros [|k]; try reflexivity.
  simpl. apply IH.
Qed.

Lemma re_sub_nil p r : re_sub p r "" = "".
Proof. reflexivity. Qed.

Lemma re_sub_hit p r s :
  match_at p s = true ->
  re_sub p r s =
  r +:+ pat_name p +:+ re_sub p r (drop_str (S (String.length (pat_name p))) s).
Proof.
  intros H. destruct s as [|c s]; [discriminate |].
  unfold re_sub at 1. cbn [re_sub_go]. rewrite H.
  now rewrite re_sub_go_skip.
Qed.

Lemma re_sub_miss p r c s :
  match_at p (String c s) = false ->
  re_sub p r (String c s) = String c (re_sub p r s).
Proof. intros H. unfold re_sub at 1. cbn [re_sub_go]. now rewrite H. Qed.

Lemma re_count_go_skip p k s : re_count_go p k s = re_count p (drop_str k s).
Proof.
  revert k; induction s as [|c s IH]; intros [|k]; try reflexivity.
  simpl. apply IH.
Qed.

Lemma re_count_hit p s :
  match_at p s = true ->
  re_count p s = S (re_count p (drop_str (S (String.length (pat_name p))) s)).
Proof.
  intros H. destruct s as [|c s]; [discriminate |].
  unfold re_count at 1. cbn [re_count_go]. rewrite H.
  now rewrite re_count_go_skip.
Qed.

Lemma re_count_miss p c s :
  match_at p (String c s) = false ->
  re_count p (String c s) = re_count p s.
Proof. intros H. unfold re_count at 1. cbn [re_count_go]. now rewrite H. Qed.

(** A match spells out the token: a [%], the name, and the rest. *)
Lemma match_at_split p s :
  match_at p s = true ->
  s = "%" +:+ pat_name p +:+ drop_str (S (String.length (pat_name p))) s.
Proof.
  destruct s as [|c s]; [discriminate |]. unfold match_at.
  intros H. apply andb_prop in H as [H _]. apply andb_prop in H as [Hc Hn].
  apply Ascii.eqb_eq in Hc as ->. simpl. f_equal. now apply startswith_split.
Qed.

(** ** Character classes *)

Lemma is_lower_facts (c : ascii) :
  is_lower c = true ->
  Ascii.eqb c "%" = false /\ Ascii.eqb c "@" = false /\ is_sep c = false.
Proof.
  destruct c as [[|] [|] [|] [|] [|] [|] [|] [|]]; intros H;
    try discriminate H; repeat split; reflexivity.
Qed.

Lemma is_sep_facts (c : ascii) :
  is_sep c = true ->
  Ascii.eqb c "%" = false /\ Ascii.eqb c "@" = false /\ is_word c = false.
Proof.
  destruct c as [[|] [|] [|] [|] [|] [|] [|] [|]]; intros H;
    try discriminate H; repeat split; reflexivity.
Qed.

Lemma all_chars_impl (P Q : ascii -> bool) (s : string) :
  (forall c, P c = true -> Q c = true) ->
  all_chars P s = true -> all_chars Q s = true.
Proof.
  intros HPQ. induction s as [|c s IH]; simpl; [reflexivity |].
  intros H. apply andb_prop in H as [Hc Hs].
  rewrite (HPQ c Hc). now apply IH.
Qed.

Lemma all_chars_app (P : ascii -> bool) (a b : string) :
  all_chars P (a +:+ b) = all_chars P a && all_chars P b.
Proof.
  induction a as [|c a IH]; simpl; [reflexivity |].
  now rewrite IH, andb_assoc.
Qed.

Lemma free_of_cons c a v :
  free_of c (String a v) = negb (Ascii.eqb a c) && free_of c v.
Proof. reflexivity. Qed.

Lemma free_of_app c a b : free_of c (a +:+ b) = free_of c a && free_of c b.
Proof. apply all_chars_app. Qed.

Lemma lower_free_pct v : lower v = true -> free_of "%" v = true.
Proof.
  apply all_chars_impl. intros c H. now destruct (is_lower_facts c H) as (-> & _).
Qed.

Lemma lower_free_at v : lower v = true -> free_of "@" v = true.
Proof.
  apply all_chars_impl. intros c H.
  now destruct (is_lower_facts c H) as (_ & -> & _).
Qed.

Lemma lower_nosep v : lower v = true -> nosep v = true.
Proof.
  apply all_chars_impl. intros c H.
  now destruct (is_lower_facts c H) as (_ & _ & ->).
Qed.

Lemma seps_free_pct y : seps y = true -> free_of "%" y = true.
Proof.
  apply all_chars_impl. intros c H. now destruct (is_sep_facts c H) as (-> & _).
Qed.

Lemma seps_free_at y : seps y = true -> free_of "@" y = true.
Proof.
  apply all_chars_impl. intros c H.
  now destruct (is_sep_facts c H) as (_ & -> & _).
Qed.

Lemma seps_word_ahead y : seps y = true -> word_ahead y = false.
Proof.
  destruct y as [|c y]; simpl; [reflexivity |].
  intros H. apply andb_prop in H as [Hc _].
  now destruct (is_sep_facts c Hc) as (_ & _ & ->).
Qed.

Lemma seps_semis k : seps (semis k) = true.
Proof. induction k; simpl; [reflexivity | exact IHk]. Qed.

Lemma seps_app a b : seps a = true -> seps b = true -> seps (a +:+ b) = true.
Proof. unfold seps. intros Ha Hb. now rewrite all_chars_app, Ha, Hb. Qed.

Lemma semis_app j k : semis j +:+ semis k = semis (j + k).
Proof. induction j; simpl; [reflexivity | now rewrite IHj]. Qed.

Lemma pct_app a b : pct (a +:+ b) = pct a + pct b.
Proof. induction a as [|c a IH]; simpl; [reflexivity | rewrite IH; lia]. Qed.

Lemma pct_free v : free_of "%" v = true -> pct v = 0.
Proof.
  induction v as [|c v IH]; simpl; [reflexivity |].
  intros H. apply andb_prop in H as [Hc Hv].
  apply negb_true_iff in Hc. rewrite Hc. now apply IH.
Qed.

(** ** Appending separators does not disturb a search *)

Lemma startswith_app_seps p x y :
  nosep p = true -> seps y = true ->
  startswith p (x +:+ y) = startswith p x.
Proof.
  intros Hp Hy. revert x.
  induction p as [|a p IH]; intros x; [now rewrite !startswith_nil |].
  simpl in Hp. apply andb_prop in Hp as [Ha Hp].
  destruct x as [|c x]; simpl.
  - destruct y as [|d y]; [reflexivity |].
    simpl in Hy. apply andb_prop in Hy as [Hd _].
    destruct (Ascii.eqb_spec a d) as [-> |]; [| reflexivity].
    now rewrite Hd in Ha.
  - now rewrite IH.
Qed.

Lemma contains_seps p y :
  p <> "" -> nosep p = true -> seps y = true -> contains p y = false.
Proof.
  intros Hne Hp Hy. destruct p as [|a p]; [congruence |].
  simpl in Hp. apply andb_prop in Hp as [Ha _].
  induction y as [|d y IH]; [reflexivity |].
  simpl in Hy. apply andb_prop in Hy as [Hd Hy].
  rewrite contains_cons, (IH Hy), orb_false_r. simpl.
  destruct (Ascii.eqb_spec a d) as [-> |]; [| reflexivity].
  now rewrite Hd in Ha.
Qed.

Lemma contains_app_seps p x y :
  p <> "" -> nosep p = true -> seps y = true ->
  contains p (x +:+ y) = contains p x.
Proof.
  intros Hne Hp Hy. induction x as [|c x IH].
  - simpl String.append. rewrite (contains_seps p y Hne Hp Hy).
    destruct p; [congruence | reflexivity].
  - change (String c x +:+ y) with (String c (x +:+ y)).
    rewrite !contains_cons, IH.
    change (String c (x +:+ y)) with (String c x +:+ y).
    now rewrite startswith_app_seps.
Qed.

Lemma match_at_app_seps p c x y :
  lower (pat_name p) = true -> seps y = true ->
  match_at p (String c x +:+ y) = match_at p (String c x).
Proof.
  intros Hp Hy. simpl. rewrite (startswith_app_seps _ _ _ (lower_nosep _ Hp) Hy).
  destruct (startswith (pat_name p) x) eqn:Hs; [| now rewrite !andb_false_r].
  f_equal. rewrite (startswith_split _ _ Hs) at 1.
  rewrite app_str_assoc, drop_str_app.
  unfold word_boundary. f_equal.
  destruct (drop_str _ x); simpl; [now apply seps_word_ahead | reflexivity].
Qed.

Lemma drop_match_app_seps p s y :
  match_at p s = true ->
  drop_str (S (String.length (pat_name p))) (s +:+ y) =
  drop_str (S (String.length (pat_name p))) s +:+ y.
Proof.
  intros H. rewrite (match_at_split p s H) at 1.
  change ("%" +:+ pat_name p +:+ ?r) with (String "%" (pat_name p +:+ r)).
  simpl. now rewrite app_str_assoc, drop_str_app.
Qed.

(** ** Substitution of one token, and its undoing *)

Lemma str_replace_absent old new s :
  contains old s = false -> str_replace old new s = s.
Proof.
  induction s as [|c s IH]; [reflexivity |].
  rewrite contains_cons. intros H. apply orb_false_elim in H as [Hs Hc].
  rewrite str_replace_miss by exact Hs. now rewrite IH.
Qed.

Lemma re_sub_id p r s : re_count p s = 0 -> re_sub p r s = s.
Proof.
  induction s as [|c s IH0 IH] using string_suffix_ind; [reflexivity |].
  destruct (match_at p (String c s)) eqn:Hm.
  - now rewrite re_count_hit.
  - rewrite re_count_miss, re_sub_miss by exact Hm.
    intros H. f_equal. exact (IH0 H).
Qed.

Lemma match_at_startswith p s :
  match_at p s = true -> startswith (String "%" (pat_name p)) s = true.
Proof.
  destruct s as [|c s]; [discriminate |]. unfold match_at. simpl.
  intros H. apply andb_prop in H as [H _]. apply andb_prop in H as [Hc Hn].
  apply Ascii.eqb_eq in Hc as ->. now rewrite Hn.
Qed.

(** The guards [token in line] of [logos_to_norm] are implied by a match. *)
Lemma re_count_absent p s :
  contains (String "%" (pat_name p)) s = false -> re_count p s = 0.
Proof.
  induction s as [|c s IH]; [reflexivity |].
  rewrite contains_cons. intros H. apply orb_false_elim in H as [Hs Hc].
  destruct (match_at p (String c s)) eqn:Hm.
  - apply match_at_startswith in Hm. congruence.
  - rewrite re_count_miss by exact Hm. now apply IH.
Qed.

Lemma re_sub_skip_clean p r v x :
  free_of "%" v = true -> re_sub p r (v +:+ x) = v +:+ re_sub p r x.
Proof.
  induction v as [|a v IH]; simpl; [reflexivity |].
  intros H. apply andb_prop in H as [Ha Hv]. apply negb_true_iff in Ha.
  rewrite re_sub_miss; [now rewrite IH |].
  unfold match_at. now rewrite Ha.
Qed.

Lemma re_sub_clean p r v : free_of "%" v = true -> re_sub p r v = v.
Proof.
  intros H. rewrite <- (app_str_nil_r v) at 1.
  now rewrite re_sub_skip_clean, re_sub_nil, app_str_nil_r.
Qed.

Lemma re_count_skip_clean p v x :
  free_of "%" v = true -> re_count p (v +:+ x) = re_count p x.
Proof.
  induction v as [|a v IH]; simpl; [reflexivity |].
  intros H. apply andb_prop in H as [Ha Hv]. apply negb_true_iff in Ha.
  rewrite re_count_miss; [now rewrite IH |].
  unfold match_at. now rewrite Ha.
Qed.

Lemma contains_skip_clean t v y :
  free_of "%" v = true ->
  contains (String "%" t) (v +:+ y) = contains (String "%" t) y.
Proof.
  induction v as [|a v IH]; simpl String.append; [reflexivity |].
  intros H. simpl in H. apply andb_prop in H as [Ha Hv].
  apply negb_true_iff in Ha.
  rewrite contains_cons, (IH Hv). cbn [startswith].
  rewrite Ascii.eqb_sym, Ha. reflexivity.
Qed.

Lemma str_replace_skip_clean c old new v x :
  free_of c v = true ->
  str_replace (String c old) new (v +:+ x) =
  v +:+ str_replace (String c old) new x.
Proof.
  induction v as [|a v IH]; simpl; [reflexivity |].
  intros H. apply andb_prop in H as [Ha Hv]. apply negb_true_iff in Ha.
  rewrite str_replace_miss; [now rewrite IH |].
  simpl. now rewrite Ascii.eqb_sym, Ha.
Qed.

Lemma str_replace_clean c old new v :
  free_of c v = true -> str_replace (String c old) new v = v.
Proof.
  intros H. rewrite <- (app_str_nil_r v) at 1.
  now rewrite str_replace_skip_clean, str_replace_nil, app_str_nil_r.
Qed.

Lemma str_replace_prefix old new x :
  old <> "" ->
  str_replace old new (old +:+ x) = new +:+ str_replace old new x.
Proof.
  intros Hne. rewrite str_replace_hit by (auto using startswith_app).
  now rewrite drop_str_app.
Qed.

Section Marker.
(** The marker is an [@] followed by lower-case letters; the facts below
    hold for any such marker and are used at [@logosformat]. *)
Variable mt : string.
Hypothesis mt_lower : lower mt = true.

Let mk : string := String "@" mt.

Lemma mk_free_pct : free_of "%" mk = true.
Proof.
  change (negb (Ascii.eqb "@" "%") && free_of "%" mt = true).
  now rewrite lower_free_pct.
Qed.

Lemma mk_nosep : nosep mk = true.
Proof.
  change (negb (is_sep "@") && nosep mt = true).
  now rewrite lower_nosep.
Qed.

(** Substitution neither creates nor destroys a run of characters that
    holds no [%] and no [@] at the head of the text. *)
Lemma startswith_re_sub p v s :
  free_of "%" v = true -> free_of "@" v = true ->
  startswith v (re_sub p mk s) = startswith v s.
Proof.
  revert s. induction v as [|a v IH]; intros s Hp Ha;
    [now rewrite !startswith_nil |].
  simpl in Hp, Ha.
  apply andb_prop in Hp as [Hp1 Hp]. apply andb_prop in Ha as [Ha1 Ha].
  apply negb_true_iff in Hp1, Ha1.
  destruct s as [|c s]; [reflexivity |].
  destruct (match_at p (String c s)) eqn:Hm.
  - rewrite re_sub_hit by exact Hm. unfold mk. simpl.
    rewrite Ha1. simpl.
    unfold match_at in Hm. apply andb_prop in Hm as [Hm _].
    apply andb_prop in Hm as [Hc _]. apply Ascii.eqb_eq in Hc as ->.
    now rewrite Hp1.
  - rewrite re_sub_miss by exact Hm. simpl. now rewrite IH.
Qed.

(** Undoing the markers after one substitution is undoing them before:
    [replace] turns every marker the substitution wrote back into the
    [%] it stood for. *)
Lemma str_replace_re_sub p s :
  lower (pat_name p) = true ->
  str_replace mk "%" (re_sub p mk s) = str_replace mk "%" s.
Proof.
  intros Hp.
  induction s as [|c s IH0 IH] using string_suffix_ind; [reflexivity |].
  destruct (match_at p (String c s)) eqn:Hm.
  - rewrite re_sub_hit by exact Hm.
    rewrite str_replace_prefix by discriminate.
    rewrite (str_replace_skip_clean "@" mt "%" (pat_name p))
      by now apply lower_free_at.
    change (drop_str (S ?n) (String c s)) with (drop_str n s).
    rewrite IH.
    rewrite (match_at_split _ _ Hm) at 1.
    change (drop_str (S ?n) (String c s)) with (drop_str n s).
    change ("%" +:+ pat_name p +:+ ?r) with (String "%" (pat_name p) +:+ r).
    rewrite (str_replace_skip_clean "@" mt "%" (String "%" (pat_name p))).
    + reflexivity.
    + now rewrite free_of_cons, lower_free_at.
  - rewrite re_sub_miss by exact Hm.
    destruct (Ascii.eqb_spec c "@") as [-> | Hc].
    + destruct (startswith mt s) eqn:Ht.
      * pose proof (startswith_split _ _ Ht) as Hs.
        rewrite Hs at 1 2.
        rewrite re_sub_skip_clean by now apply lower_free_pct.
        change (String "@" (mt +:+ ?r)) with (mk +:+ r).
        rewrite !str_replace_prefix by discriminate.
        now rewrite IH.
      * rewrite !str_replace_miss.
        -- now rewrite IH0.
        -- unfold mk. rewrite startswith_cons, Ht. apply andb_false_r.
        -- unfold mk. rewrite startswith_cons.
           rewrite startswith_re_sub, Ht;
             auto using lower_free_pct, lower_free_at, andb_false_r.
    + apply Ascii.eqb_neq in Hc. rewrite Ascii.eqb_sym in Hc.
      rewrite !str_replace_miss.
      * now rewrite IH0.
      * unfold mk. now rewrite startswith_cons, Hc.
      * unfold mk. now rewrite startswith_cons, Hc.
Qed.

Lemma re_sub_app_seps p x y :
  lower (pat_name p) = true -> seps y = true ->
  re_sub p mk (x +:+ y) = re_sub p mk x +:+ y.
Proof.
  intros Hp Hy.
  induction x as [|c x IH0 IH] using string_suffix_ind.
  - simpl. now rewrite re_sub_clean by now apply seps_free_pct.
  - destruct (match_at p (String c x)) eqn:Hm.
    + rewrite re_sub_hit by now rewrite match_at_app_seps.
      rewrite drop_match_app_seps by exact Hm.
      change (drop_str (S ?n) (String c x)) with (drop_str n x).
      rewrite IH, (re_sub_hit p mk (String c x) Hm).
      change (drop_str (S ?n) (String c x)) with (drop_str n x).
      now rewrite !app_str_assoc.
    + change (String c x +:+ y) with (String c (x +:+ y)).
      rewrite !re_sub_miss; [now rewrite IH0 | exact Hm |].
      change (String c (x +:+ y)) with (String c x +:+ y).
      now rewrite match_at_app_seps.
Qed.

Lemma str_replace_app_seps new x y :
  seps y = true ->
  str_replace mk new (x +:+ y) = str_replace mk new x +:+ y.
Proof.
  intros Hy.
  induction x as [|c x IH0 IH] using string_suffix_ind.
  - simpl. unfold mk. now rewrite str_replace_clean by now apply seps_free_at.
  - destruct (startswith mk (String c x)) eqn:Hm.
    + pose proof (startswith_split _ _ Hm) as Hs.
      rewrite Hs, app_str_assoc, !str_replace_prefix by discriminate.
      change (String.length mk) with (S (String.length mt)).
      change (drop_str (S ?n) (String c x)) with (drop_str n x).
      now rewrite IH, app_str_assoc.
    + change (String c x +:+ y) with (String c (x +:+ y)).
      rewrite !str_replace_miss; [now rewrite IH0 | exact Hm |].
      change (String c (x +:+ y)) with (String c x +:+ y).
      now rewrite startswith_app_seps by auto using mk_nosep.
Qed.

(** Each replaced match consumes one [%]. *)
Lemma pct_re_sub p s :
  lower (pat_name p) = true ->
  pct (re_sub p mk s) + re_count p s = pct s.
Proof.
  intros Hp.
  induction s as [|c s IH0 IH] using string_suffix_ind; [reflexivity |].
  destruct (match_at p (String c s)) eqn:Hm.
  - rewrite re_sub_hit, re_count_hit by exact Hm.
    rewrite (match_at_split _ _ Hm) at 3.
    change (drop_str (S ?n) (String c s)) with (drop_str n s).
    rewrite !pct_app, (pct_free mk mk_free_pct).
    rewrite (pct_free (pat_name p)) by now apply lower_free_pct.
    specialize (IH (String.length (pat_name p))). simpl. lia.
  - rewrite re_sub_miss, re_count_miss by exact Hm.
    simpl. lia.
Qed.

(** A substitution writes no token name that was not there. *)
Lemma contains_re_sub_inv p t s :
  lower (pat_name p) = true -> lower t = true ->
  contains (String "%" t) (re_sub p mk s) = true ->
  contains (String "%" t) s = true.
Proof.
  intros Hp Ht.
  induction s as [|c s IH0 IH] using string_suffix_ind; [discriminate |].
  destruct (match_at p (String c s)) eqn:Hm.
  - rewrite re_sub_hit by exact Hm.
    rewrite <- app_str_assoc, contains_skip_clean.
    + change (drop_str (S ?n) (String c s)) with (drop_str n s).
      intros H. apply IH in H. rewrite contains_cons.
      rewrite (contains_drop _ _ _ H). apply orb_true_r.
    + now rewrite free_of_app, mk_free_pct, lower_free_pct.
  - rewrite re_sub_miss by exact Hm. rewrite !contains_cons.
    intros H. apply orb_prop in H as [H | H].
    + simpl in H. simpl.
      rewrite startswith_re_sub in H
        by auto using lower_free_pct, lower_free_at.
      now rewrite H.
    + rewrite (IH0 H). apply orb_true_r.
Qed.

(** A substitution leaves the presence of another token's name alone,
    when the two names start with different letters. *)
Lemma contains_re_sub p a t b u s :
  lower (pat_name p) = true -> lower (String a t) = true ->
  pat_name p = String b u -> a <> b ->
  contains (String "%" (String a t)) (re_sub p mk s) =
  contains (String "%" (String a t)) s.
Proof.
  intros Hp Ht Hu Hne.
  induction s as [|c s IH0 IH] using string_suffix_ind; [reflexivity |].
  destruct (match_at p (String c s)) eqn:Hm.
  - rewrite re_sub_hit by exact Hm.
    rewrite <- app_str_assoc, contains_skip_clean.
    + change (drop_str (S ?n) (String c s)) with (drop_str n s).
      rewrite IH. rewrite (match_at_split _ _ Hm) at 1.
      change (drop_str (S ?n) (String c s)) with (drop_str n s).
      change ("%" +:+ pat_name p +:+ ?r) with (String "%" (pat_name p +:+ r)).
      rewrite contains_cons.
      rewrite contains_skip_clean by now apply lower_free_pct.
      replace (startswith _ _) with false; [reflexivity |].
      rewrite Hu. cbn [String.append]. rewrite !startswith_cons.
      apply Ascii.eqb_neq in Hne. now rewrite Hne, andb_false_r.
    + now rewrite free_of_app, mk_free_pct, lower_free_pct.
  - rewrite re_sub_miss by exact Hm. rewrite !contains_cons, IH0.
    f_equal. rewrite !startswith_cons. f_equal.
    apply startswith_re_sub; auto using lower_free_pct, lower_free_at.
Qed.

Lemma re_count_app_seps p x y :
  lower (pat_name p) = true -> seps y = true ->
  re_count p (x +:+ y) = re_count p x.
Proof.
  intros Hp Hy.
  induction x as [|c x IH0 IH] using string_suffix_ind.
  - simpl. rewrite <- (app_str_nil_r y).
    now rewrite re_count_skip_clean by now apply seps_free_pct.
  - destruct (match_at p (String c x)) eqn:Hm.
    + rewrite re_count_hit by now rewrite match_at_app_seps.
      rewrite drop_match_app_seps by exact Hm.
      change (drop_str (S ?n) (String c x)) with (drop_str n x).
      now rewrite IH, (re_count_hit _ _ Hm).
    + change (String c x +:+ y) with (String c (x +:+ y)).
      rewrite !re_count_miss; [exact IH0 | exact Hm |].
      change (String c (x +:+ y)) with (String c x +:+ y).
      now rewrite match_at_app_seps.
Qed.
End Marker.

(** * The forward transform, token by token *)

Lemma marker_lower : lower "logosformat" = true.
Proof. reflexivity. Qed.

Lemma token_ok_inv t :
  token_ok t = true ->
  exists a u, t = String "%" (String a u) /\ lower (String a u) = true.
Proof.
  unfold token_ok, token_name. destruct t as [|c t]; [discriminate |].
  rewrite startswith_cons. cbn [drop_str startswith].
  intros H. apply andb_prop in H as [H Hne]. apply andb_prop in H as [Hc Hl].
  rewrite andb_true_r in Hc. apply Ascii.eqb_eq in Hc as <-.
  destruct t as [|a u]; [discriminate |]. now exists a, u.
Qed.

Lemma filterList_ok : Forall (fun t => token_ok t = true) filterList.
Proof. repeat constructor. Qed.

Lemma specialFilterList_ok :
  Forall (fun t => token_ok t = true) specialFilterList.
Proof. repeat constructor. Qed.

Lemma filter_pats_lookup :
  Forall (fun t => logos_filter_pats !! t = Some (compile_logos_token_pat t))
         filterList.
Proof. repeat constructor. Qed.

Lemma special_pats_lookup :
  Forall (fun t => logos_special_filter_pats !! t =
                   Some (compile_logos_token_pat t))
         specialFilterList.
Proof. repeat constructor. Qed.

Lemma specialFilterList_initials :
  List.NoDup (map initial specialFilterList).
Proof.
  repeat (apply List.NoDup_cons; [simpl; intuition discriminate |]).
  apply List.NoDup_nil.
Qed.

(** Where the name is absent the pattern cannot match, so the guard of
    each round only decides whether a terminator is appended. *)
Lemma sub_token_absent t line :
  token_ok t = true -> contains t line = false -> sub_token line t = line.
Proof.
  intros Ht Hc. destruct (token_ok_inv t Ht) as (a & u & -> & _).
  apply re_sub_id, re_count_absent. exact Hc.
Qed.

Lemma filter_step_sub t line :
  In t filterList -> filter_step line t = sub_token line t.
Proof.
  intros Hin. unfold filter_step.
  pose proof (proj1 (List.Forall_forall _ _) filter_pats_lookup t Hin) as ->.
  pose proof (proj1 (List.Forall_forall _ _) filterList_ok t Hin) as Hok.
  destruct (contains t line) eqn:Hc; [reflexivity |].
  symmetry. now apply sub_token_absent.
Qed.

Lemma special_step_sub t line :
  In t specialFilterList ->
  special_step line t =
  sub_token line t +:+ semis (if contains t line then 1 else 0).
Proof.
  intros Hin. unfold special_step.
  pose proof (proj1 (List.Forall_forall _ _) special_pats_lookup t Hin) as ->.
  pose proof (proj1 (List.Forall_forall _ _) specialFilterList_ok t Hin) as Hok.
  destruct (contains t line) eqn:Hc; [reflexivity |].
  simpl. rewrite app_str_nil_r. symmetry. now apply sub_token_absent.
Qed.

Lemma token_ok_nosep t : token_ok t = true -> nosep t = true /\ t <> "".
Proof.
  intros Ht. destruct (token_ok_inv t Ht) as (a & u & -> & Hl).
  split; [| discriminate].
  change (negb (is_sep "%") && nosep (String a u) = true).
  now rewrite lower_nosep.
Qed.

Lemma sub_token_replace t line :
  token_ok t = true ->
  str_replace marker "%" (sub_token line t) = str_replace marker "%" line.
Proof.
  intros Ht. destruct (token_ok_inv t Ht) as (a & u & -> & Hl).
  apply (str_replace_re_sub _ marker_lower). exact Hl.
Qed.

Lemma sub_token_app_seps t x y :
  token_ok t = true -> seps y = true ->
  sub_token (x +:+ y) t = sub_token x t +:+ y.
Proof.
  intros Ht Hy. destruct (token_ok_inv t Ht) as (a & u & -> & Hl).
  now apply (re_sub_app_seps "logosformat").
Qed.

Lemma sub_token_pct t line :
  token_ok t = true ->
  pct (sub_token line t) + occurrences t line = pct line.
Proof.
  intros Ht. destruct (token_ok_inv t Ht) as (a & u & -> & Hl).
  now apply (pct_re_sub _ marker_lower).
Qed.

Lemma sub_token_id t line :
  occurrences t line = 0 -> sub_token line t = line.
Proof. apply re_sub_id. Qed.

Lemma sub_token_contains_inv t t' line :
  token_ok t = true -> token_ok t' = true ->
  contains t' (sub_token line t) = true -> contains t' line = true.
Proof.
  intros Ht Ht'. destruct (token_ok_inv t Ht) as (a & u & -> & Hl).
  destruct (token_ok_inv t' Ht') as (a' & u' & -> & Hl').
  now apply (contains_re_sub_inv _ marker_lower).
Qed.

Lemma sub_token_contains t t' line :
  token_ok t = true -> token_ok t' = true -> initial t <> initial t' ->
  contains t' (sub_token line t) = contains t' line.
Proof.
  intros Ht Ht' Hne. destruct (token_ok_inv t Ht) as (a & u & -> & Hl).
  destruct (token_ok_inv t' Ht') as (a' & u' & -> & Hl').
  apply (contains_re_sub _ marker_lower _ a' u' a u); auto.
  simpl in Hne. congruence.
Qed.

Lemma contains_token_app_seps t x y :
  token_ok t = true -> seps y = true -> contains t (x +:+ y) = contains t x.
Proof.
  intros Ht Hy. destruct (token_ok_nosep t Ht). now apply contains_app_seps.
Qed.

Lemma occurrences_app_seps t x y :
  token_ok t = true -> seps y = true ->
  occurrences t (x +:+ y) = occurrences t x.
Proof.
  intros Ht Hy. destruct (token_ok_inv t Ht) as (a & u & -> & Hl).
  now apply re_count_app_seps.
Qed.

Lemma occurrences_contains t line :
  token_ok t = true -> occurrences t line <> 0 -> contains t line = true.
Proof.
  intros Ht Hn. destruct (token_ok_inv t Ht) as (a & u & -> & Hl).
  destruct (contains (String "%" (String a u)) line) eqn:Hc; [reflexivity |].
  now apply (re_count_absent (compile_logos_token_pat
                               (String "%" (String a u)))) in Hc.
Qed.

(** ** A list of substitutions *)

Lemma subs_replace ts line :
  tokens_ok ts ->
  str_replace marker "%" (subs ts line) = str_replace marker "%" line.
Proof.
  intros Hts. unfold subs. revert line.
  induction Hts as [|t l Ht _ IH]; intros line; [reflexivity |].
  simpl. now rewrite IH, sub_token_replace.
Qed.

Lemma subs_app_seps ts x y :
  tokens_ok ts -> seps y = true -> subs ts (x +:+ y) = subs ts x +:+ y.
Proof.
  intros Hts Hy. unfold subs. revert x.
  induction Hts as [|t l Ht _ IH]; intros x; [reflexivity |].
  simpl. now rewrite sub_token_app_seps, IH.
Qed.

Lemma subs_pct_le ts line : tokens_ok ts -> pct (subs ts line) <= pct line.
Proof.
  intros Hts. unfold subs. revert line.
  induction Hts as [|t l Ht _ IH]; intros line; [reflexivity |].
  simpl. specialize (IH (sub_token line t)).
  pose proof (sub_token_pct t line Ht). lia.
Qed.

Lemma subs_contains_inv ts t' line :
  tokens_ok ts -> token_ok t' = true ->
  contains t' (subs ts line) = true -> contains t' line = true.
Proof.
  intros Hts Ht'. unfold subs. revert line.
  induction Hts as [|t l Ht _ IH]; intros line; [trivial |].
  simpl. intros H. apply IH in H. now apply sub_token_contains_inv in H.
Qed.

(** Where no token of the list has a word-boundary occurrence, nothing
    is substituted. *)
Lemma subs_id ts line :
  (forall t, In t ts -> occurrences t line = 0) -> subs ts line = line.
Proof.
  unfold subs. revert line. induction ts as [|t l IH]; intros line H;
    [reflexivity |].
  simpl. rewrite sub_token_id by (apply H; now left).
  apply IH. intros t' Ht'. apply H. now right.
Qed.

(** A word-boundary occurrence of a token of the list costs a [%]. *)
Lemma subs_consumes ts line :
  tokens_ok ts ->
  (exists t, In t ts /\ occurrences t line <> 0) ->
  pct (subs ts line) < pct line.
Proof.
  intros Hts. revert line. induction Hts as [|t l Ht Hl IH]; intros line.
  - intros (t & [] & _).
  - intros (t' & Hin & Hocc).
    change (subs (t :: l) line) with (subs l (sub_token line t)).
    pose proof (sub_token_pct t line Ht) as Hp.
    pose proof (subs_pct_le l (sub_token line t) Hl) as Hle.
    destruct (Nat.eq_dec (occurrences t line) 0) as [Hz | Hnz]; [| lia].
    destruct Hin as [-> | Hin]; [contradiction |].
    rewrite (sub_token_id _ _ Hz). apply IH. now exists t'.
Qed.

(** The terminators appended by the second loop. *)
Lemma fired_none ts line :
  tokens_ok ts ->
  (forall t, In t ts -> contains t line = false) -> fired ts line = 0.
Proof.
  intros Hts. revert line. induction Hts as [|t l Ht Hl IH]; intros line H;
    [reflexivity |].
  simpl. rewrite (H t) by now left.
  rewrite (sub_token_absent t line Ht) by (apply H; now left).
  apply IH. intros t' Ht'. apply H. now right.
Qed.

Lemma fired_count ts line :
  tokens_ok ts -> List.NoDup (map initial ts) ->
  fired ts line = length (List.filter (fun t => contains t line) ts).
Proof.
  intros Hts. revert line.
  induction Hts as [|t l Ht Hl IH]; intros line Hnd; [reflexivity |].
  simpl in Hnd. apply List.NoDup_cons_iff in Hnd as [Hnin Hnd].
  cbn [fired List.filter]. rewrite (IH _ Hnd).
  assert (Heq : List.filter (fun t' => contains t' (sub_token line t)) l =
                List.filter (fun t' => contains t' line) l).
  { clear IH Hnd. induction Hl as [|t' l' Ht' Hl' IH']; [reflexivity |].
    cbn [List.filter]. rewrite sub_token_contains; auto.
    - rewrite IH'; [reflexivity |]. intros Hin. apply Hnin. now right.
    - intros Heq. apply Hnin. left. now symmetry. }
  rewrite Heq. now destruct (contains t line).
Qed.

Lemma filter_fold ts line :
  incl ts filterList -> fold_left filter_step ts line = subs ts line.
Proof.
  unfold subs. revert line. induction ts as [|t l IH]; intros line Hin;
    [reflexivity |].
  simpl. rewrite filter_step_sub by (apply Hin; now left).
  apply IH. intros t' Ht'. apply Hin. now right.
Qed.

Lemma special_fold ts x j :
  incl ts specialFilterList ->
  fold_left special_step ts (x +:+ semis j) =
  subs ts x +:+ semis (j + fired ts x).
Proof.
  unfold subs. revert x j. induction ts as [|t l IH]; intros x j Hin.
  - simpl. now rewrite Nat.add_0_r.
  - assert (Ht : In t specialFilterList) by (apply Hin; now left).
    pose proof (proj1 (List.Forall_forall _ _) specialFilterList_ok t Ht) as Hok.
    cbn [fold_left fired]. rewrite (special_step_sub t _ Ht).
    rewrite sub_token_app_seps, contains_token_app_seps
      by auto using seps_semis.
    rewrite app_str_assoc, semis_app, IH.
    + now rewrite Nat.add_assoc.
    + intros t' Ht'. apply Hin. now right.
Qed.

Lemma after_filter_subs line : after_filter line = subs filterList line.
Proof. apply filter_fold, incl_refl. Qed.

(** The forward transform: every token substituted, then one terminator
    for each terminated name found when its turn came. *)
Lemma logos_to_norm_line_shape line :
  logos_to_norm_line line =
  subs specialFilterList (after_filter line) +:+
  semis (fired specialFilterList (after_filter line)).
Proof.
  unfold logos_to_norm_line. fold (after_filter line).
  rewrite <- (app_str_nil_r (after_filter line)) at 1.
  change "" with (semis 0). now rewrite special_fold by apply incl_refl.
Qed.

(** ** Lines and files *)

(** Writing the lines of a text one after the other gives the text. *)
Lemma write_all_readlines s : write_all (readlines s) = s.
Proof.
  induction s as [|c s IH]; [reflexivity |]. cbn [readlines].
  destruct (Ascii.eqb c "010").
  - cbn [write_all fold_right String.append]. fold (write_all (readlines s)).
    now rewrite IH.
  - destruct (readlines s) as [|l ls]; cbn [write_all fold_right] in IH |- *.
    + now rewrite <- IH.
    + cbn [String.append]. now rewrite IH.
Qed.

(** A newline-terminated line without inner newline is one line. *)
Lemma readlines_line body :
  free_of "010" body = true -> readlines (body +:+ nl) = [body +:+ nl].
Proof.
  induction body as [|c body IH]; [reflexivity |].
  rewrite free_of_cons. intros H. apply andb_prop in H as [Hc Hb].
  apply negb_true_iff in Hc. cbn [String.append readlines].
  now rewrite Hc, (IH Hb).
Qed.

(** On a file of one line the file transforms are the line transforms. *)
Lemma logos_to_norm_one_line body :
  free_of "010" body = true ->
  logos_to_norm (body +:+ nl) = logos_to_norm_line (body +:+ nl).
Proof.
  intros H. unfold logos_to_norm. rewrite (readlines_line body H).
  cbn [map write_all fold_right]. apply app_str_nil_r.
Qed.

Lemma norm_to_logos_one_line body :
  free_of "010" body = true ->
  norm_to_logos (body +:+ nl) = norm_to_logos_line (body +:+ nl).
Proof.
  intros H. unfold norm_to_logos. rewrite (readlines_line body H).
  cbn [map write_all fold_right]. apply app_str_nil_r.
Qed.

(** * The reverse transform after the forward transform *)

Lemma catalog_ok : tokens_ok catalog.
Proof. apply Forall_app; split; [apply filterList_ok | apply specialFilterList_ok]. Qed.

Lemma subs_catalog line :
  subs specialFilterList (after_filter line) = subs catalog line.
Proof.
  rewrite after_filter_subs. unfold subs, catalog. now rewrite fold_left_app.
Qed.

Lemma marker_nosep : nosep marker = true /\ marker <> "".
Proof. split; [reflexivity | discriminate]. Qed.

Lemma contains_marker_app_seps x y :
  seps y = true -> contains marker (x +:+ y) = contains marker x.
Proof. intros Hy. now apply contains_app_seps. Qed.

Lemma replace_marker_app_seps x y :
  seps y = true ->
  str_replace marker "%" (x +:+ y) = str_replace marker "%" x +:+ y.
Proof.
  intros Hy. now apply (str_replace_app_seps "logosformat" marker_lower).
Qed.

(** Stripping the terminators of a line that had none removes exactly the
    appended ones. *)
Lemma strip_semis k : str_replace ";" "" (semis k) = "".
Proof.
  induction k as [|k IH]; [reflexivity |].
  rewrite str_replace_hit by (reflexivity || discriminate). exact IH.
Qed.

Lemma strip_appended line k :
  contains ";" line = false -> str_replace ";" "" (line +:+ semis k) = line.
Proof.
  induction line as [|c line IH]; [intros _; apply strip_semis |].
  rewrite contains_cons. intros H. apply orb_false_elim in H as [Hs Hc].
  cbn [String.append]. rewrite str_replace_miss; [now rewrite IH |].
  rewrite startswith_cons in Hs |- *. rewrite !startswith_nil in *. exact Hs.
Qed.

Lemma existsb_special_app_seps line y :
  seps y = true ->
  existsb (fun t => contains t (line +:+ y)) specialFilterList =
  existsb (fun t => contains t line) specialFilterList.
Proof.
  intros Hy. pose proof specialFilterList_ok as Hok.
  induction Hok as [|t l Ht _ IH]; [reflexivity |].
  cbn [existsb]. now rewrite IH, contains_token_app_seps.
Qed.

(** What the reverse transform makes of a forward-transformed line that
    held no marker: the markers are undone, and the appended terminators
    are still at the end when the terminators are stripped. *)
Lemma roundtrip_cases line :
  contains marker line = false ->
  let x := subs catalog line in
  let k := fired specialFilterList (after_filter line) in
  roundtrip line =
  if contains marker x then
    if existsb (fun t => contains t line) specialFilterList
    then str_replace ";" "" (line +:+ semis k)
    else line +:+ semis k
  else x +:+ semis k.
Proof.
  intros Hm x k. unfold norm_to_logos_line.
  rewrite logos_to_norm_line_shape, subs_catalog. fold x k.
  rewrite contains_marker_app_seps by apply seps_semis.
  destruct (contains marker x) eqn:Hx; [| reflexivity].
  cbv zeta. rewrite replace_marker_app_seps by apply seps_semis.
  unfold x. rewrite subs_replace by apply catalog_ok.
  rewrite (str_replace_absent marker "%" line Hm).
  now rewrite existsb_special_app_seps by apply seps_semis.
Qed.

(** A line without markers whose substitution wrote none is unchanged. *)
Lemma subs_without_marker line :
  contains marker line = false ->
  contains marker (subs catalog line) = false -> subs catalog line = line.
Proof.
  intros Hm Hx.
  rewrite <- (str_replace_absent marker "%" _ Hx), subs_replace
    by apply catalog_ok.
  now apply str_replace_absent.
Qed.

(** A word-boundary occurrence of a catalog token leaves a marker. *)
Lemma subs_writes_marker line t :
  contains marker line = false ->
  In t catalog -> occurrences t line <> 0 ->
  contains marker (subs catalog line) = true.
Proof.
  intros Hm Hin Hocc.
  destruct (contains marker (subs catalog line)) eqn:Hx; [reflexivity |].
  pose proof (subs_consumes catalog line catalog_ok
                (ex_intro _ t (conj Hin Hocc))) as Hlt.
  rewrite (subs_without_marker line Hm Hx) in Hlt. lia.
Qed.

(** The round trip is the identity on every line in which no terminated
    name occurs, even as part of a longer word, and no marker. *)
Lemma roundtrip_without_special_names line :
  (forall t, In t specialFilterList -> contains t line = false) ->
  contains marker line = false ->
  roundtrip line = line.
Proof.
  intros Hsp Hm. rewrite roundtrip_cases by exact Hm. cbv zeta.
  assert (Hk : fired specialFilterList (after_filter line) = 0).
  { apply fired_none; [apply specialFilterList_ok |].
    intros t Ht. destruct (contains t (after_filter line)) eqn:Hc; [| reflexivity].
    rewrite after_filter_subs in Hc.
    apply subs_contains_inv in Hc;
      [| apply filterList_ok
       | exact (proj1 (List.Forall_forall _ _) specialFilterList_ok t Ht)].
    now rewrite (Hsp t Ht) in Hc. }
  rewrite Hk. cbn [semis]. rewrite !app_str_nil_r.
  destruct (contains marker (subs catalog line)) eqn:Hx.
  - replace (existsb _ _) with false; [reflexivity |].
    symmetry. apply not_true_is_false. intros He.
    apply existsb_exists in He as (t & Ht & Hc). now rewrite (Hsp t Ht) in Hc.
  - now apply subs_without_marker.
Qed.

Lemma special_occurrences_pos line :
  special_occurrences line <> 0 ->
  exists t, In t specialFilterList /\ occurrences t line <> 0.
Proof.
  unfold special_occurrences.
  induction specialFilterList as [|t l IH]; [now intros [] |].
  cbn [map list_sum]. intros H.
  destruct (Nat.eq_dec (occurrences t line) 0) as [Hz | Hnz].
  - rewrite Hz in H. destruct (IH H) as (t' & Hin & Ht').
    exists t'. split; [now right | exact Ht'].
  - exists t. split; [now left | exact Hnz].
Qed.

(** The round trip on a line with a word-boundary occurrence of a
    terminated token, no terminator and no marker. *)
Lemma roundtrip_terminated line :
  special_occurrences line <> 0 ->
  contains ";" line = false ->
  contains marker line = false ->
  roundtrip line = line.
Proof.
  intros Hocc Hsemi Hm.
  destruct (special_occurrences_pos line Hocc) as (t & Hin & Ht).
  pose proof (proj1 (List.Forall_forall _ _) specialFilterList_ok t Hin) as Hok.
  rewrite roundtrip_cases by exact Hm. cbv zeta.
  rewrite (subs_writes_marker line t Hm) by (auto; apply in_or_app; now right).
  replace (existsb _ _) with true; [now apply strip_appended |].
  symmetry. apply existsb_exists. exists t. split; [exact Hin |].
  now apply occurrences_contains.
Qed.

(** * The claims about the line transforms *)

(** C1 (round-trip stability), evaluated where the code breaks it.  The
    line below holds the non-terminated directives [%hookf] and [%orig],
    no terminated directive and no marker.  The forward transform appends
    nothing, but the reverse transform finds the spelling [%hook] inside
    [%hookf] and strips the terminator the user wrote. *)
Theorem C1_hookf_line_loses_its_terminator :
  let line := "%hookf(int, close, int fd) { return %orig; }" +:+ nl in
  occurrences "%hookf" line = 1 /\ occurrences "%orig" line = 1 /\
  special_occurrences line = 0 /\ contains marker line = false /\
  logos_to_norm_line line =
    "@logosformathookf(int, close, int fd) { return @logosformatorig; }"
    +:+ nl /\
  roundtrip line = "%hookf(int, close, int fd) { return %orig }" +:+ nl /\
  roundtrip line <> line.
Proof.
  repeat split; try (vm_compute; reflexivity).
  intros H. vm_compute in H. discriminate H.
Qed.

(** C3, as stated, fails: the reverse transform of the forward result of
    [%hook -(void)foo;] is not the original line. *)
Lemma C3_counterexample :
  ~ (logos_to_norm_line "%hook -(void)foo;" = "@logosformathook -(void)foo;;"
     /\ norm_to_logos_line "@logosformathook -(void)foo;;"
        = "%hook -(void)foo;").
Proof. intros [_ H]. vm_compute in H. discriminate H. Qed.

(** C3, amended: the forward transform of [%hook -(void)foo;] is the
    marker spelling with one terminator appended, and the reverse transform
    of that result is [%hook -(void)foo]: every terminator of the line is
    stripped, the one the user wrote included. *)
Theorem C3_hook_scenario :
  logos_to_norm_line "%hook -(void)foo;" = "@logosformathook -(void)foo;;" /\
  norm_to_logos_line "@logosformathook -(void)foo;;" = "%hook -(void)foo".
Proof. split; vm_compute; reflexivity. Qed.

(** C5, as stated, fails in both directions: [%hooked] is no directive,
    yet the forward transform appends a terminator to its line; and a line
    without directives that holds the marker text is rewritten by the
    reverse transform. *)
Lemma C5_counterexample :
  (directive_free ("%hooked" +:+ nl) = true /\
   logos_to_norm_line ("%hooked" +:+ nl) = "%hooked" +:+ nl +:+ ";" /\
   logos_to_norm_line ("%hooked" +:+ nl) <> "%hooked" +:+ nl) /\
  (directive_free ("x = @logosformatter;" +:+ nl) = true /\
   norm_to_logos_line ("x = @logosformatter;" +:+ nl) = "x = %ter;" +:+ nl /\
   norm_to_logos_line ("x = @logosformatter;" +:+ nl)
   <> "x = @logosformatter;" +:+ nl).
Proof.
  repeat split; try (vm_compute; reflexivity);
    intros H; vm_compute in H; discriminate H.
Qed.

(** C5, amended: on a line without word-boundary occurrence of a catalog
    directive, the forward transform changes nothing when no terminated
    name occurs in the line even as part of a longer word, and the reverse
    transform changes nothing when the line holds no marker text. *)
Theorem C5_pass_through line :
  directive_free line = true ->
  (existsb (fun t => contains t line) specialFilterList = false ->
   logos_to_norm_line line = line) /\
  (contains marker line = false -> norm_to_logos_line line = line).
Proof.
  intros Hfree. split.
  - intros Hsp. rewrite logos_to_norm_line_shape, subs_catalog.
    assert (Hnone : forall t, In t specialFilterList -> contains t line = false).
    { intros t Ht. destruct (contains t line) eqn:Hc; [| reflexivity].
      rewrite <- Hsp. symmetry. apply existsb_exists. now exists t. }
    assert (Hocc : forall t, In t catalog -> occurrences t line = 0).
    { intros t Ht. unfold directive_free in Hfree.
      rewrite forallb_forall in Hfree. apply Nat.eqb_eq, Hfree.
      apply in_app_or in Ht. apply in_or_app. tauto. }
    rewrite (subs_id catalog line Hocc).
    rewrite after_filter_subs, subs_id
      by (intros t Ht; apply Hocc, in_or_app; now left).
    rewrite fired_none by (apply specialFilterList_ok || exact Hnone).
    apply app_str_nil_r.
  - intros Hm. unfold norm_to_logos_line. now rewrite Hm.
Qed.

Lemma C5_pass_through_witness :
  logos_to_norm_line ("  int x = 100 % c;" +:+ nl) = "  int x = 100 % c;" +:+ nl
  /\ norm_to_logos_line ("  int x = 100 % c;" +:+ nl)
     = "  int x = 100 % c;" +:+ nl.
Proof.
  split.
  - apply (C5_pass_through ("  int x = 100 % c;" +:+ nl));
      vm_compute; reflexivity.
  - apply (C5_pass_through ("  int x = 100 % c;" +:+ nl));
      vm_compute; reflexivity.
Defined.

(** C8: the line [%log(@"x");] holds only the non-terminated directive
    [%log]; the forward transform writes the marker and appends nothing,
    and the reverse transform of the result is the original line. *)
Theorem C8_log_scenario :
  let line := "%log(@" +:+ dq +:+ "x" +:+ dq +:+ ");" in
  occurrences "%log" line = 1 /\ special_occurrences line = 0 /\
  logos_to_norm_line line = "@logosformatlog(@" +:+ dq +:+ "x" +:+ dq +:+ ");"
  /\ norm_to_logos_line
       ("@logosformatlog(@" +:+ dq +:+ "x" +:+ dq +:+ ");") = line.
Proof. repeat split; vm_compute; reflexivity. Qed.

Lemma endswith_app x suffix : endswith suffix (x +:+ suffix) = true.
Proof.
  induction x as [|c x IH]; cbn [String.append].
  - destruct suffix; cbn [endswith]; now rewrite String.eqb_refl.
  - cbn [endswith]. rewrite IH. apply orb_true_r.
Qed.

(** C10, as stated, fails: the name [%hook] occurs in this line, inside
    [%hookf], and no terminator is appended. *)
Lemma C10_counterexample :
  let line := "%hookf(void, f, int x) {" +:+ nl in
  contains "%hook" line = true /\
  logos_to_norm_line line = "@logosformathookf(void, f, int x) {" +:+ nl /\
  endswith (nl +:+ ";") (logos_to_norm_line line) = false.
Proof. repeat split; vm_compute; reflexivity. Qed.

(** C10, amended: the forward transform of a newline-terminated line is
    the line with its directives replaced, still ending in its newline,
    followed by one terminator for each distinct terminated name that
    occurs as a substring once the non-terminated directives have been
    replaced, however often the name occurs; with one such name the output
    ends with a newline and a terminator. *)
Theorem C10_terminators_after_newline body :
  let line := body +:+ nl in
  let names := special_names_in (after_filter line) in
  logos_to_norm_line line =
    (subs catalog body +:+ nl) +:+ semis (length names) /\
  (length names = 1 -> endswith (nl +:+ ";") (logos_to_norm_line line) = true).
Proof.
  intros line names.
  assert (Hshape : logos_to_norm_line line =
                   (subs catalog body +:+ nl) +:+ semis (length names)).
  { rewrite logos_to_norm_line_shape, subs_catalog. unfold line at 1.
    rewrite subs_app_seps by (apply catalog_ok || reflexivity).
    f_equal. f_equal.
    apply fired_count;
      [apply specialFilterList_ok | apply specialFilterList_initials]. }
  split; [exact Hshape |].
  intros Hone. rewrite Hshape, Hone, app_str_assoc. apply endswith_app.
Qed.

Lemma C10_terminators_after_newline_witness :
  endswith (nl +:+ ";")
           (logos_to_norm_line ("%hook A // and %hook B" +:+ nl)) = true.
Proof.
  apply (proj2 (C10_terminators_after_newline "%hook A // and %hook B")).
  vm_compute; reflexivity.
Defined.

(** * Facts about paths *)

Lemma basename_free p : free_of "/" (basename p) = true.
Proof.
  induction p as [|c p IH]; [reflexivity |].
  cbn [basename]. now destruct (free_of "/" (String c p)) eqn:H.
Qed.

Lemma take_str_free c n s :
  free_of c s = true -> free_of c (take_str n s) = true.
Proof.
  revert s. induction n as [|n IH]; intros [|a s] H; try reflexivity.
  cbn [take_str]. rewrite free_of_cons in H |- *.
  apply andb_prop in H as [-> H]. now rewrite IH.
Qed.

Lemma path_stem_free p : free_of "/" (path_stem p) = true.
Proof. apply take_str_free, basename_free. Qed.

Lemma ext_go_free c seen name :
  free_of c name = true -> free_of c (ext_go seen name) = true.
Proof.
  revert seen. induction name as [|a name IH]; intros seen H; [reflexivity |].
  cbn [ext_go]. destruct (_ && _ && _); [exact H |].
  apply IH. rewrite free_of_cons in H. now apply andb_prop in H as [_ H].
Qed.

Lemma path_ext_free p : free_of "/" (path_ext p) = true.
Proof. apply ext_go_free, basename_free. Qed.

Lemma characters_plain i : Ascii.eqb (nth i characters "_"%char) "/" = false.
Proof.
  assert (H : Forall (fun c => Ascii.eqb c "/" = false) characters)
    by (repeat constructor).
  destruct (nth_in_or_default i characters "_"%char) as [Hin | ->];
    [| reflexivity].
  exact (proj1 (List.Forall_forall _ _) H _ Hin).
Qed.

Lemma choices_free k seed : free_of "/" (choices k seed) = true.
Proof.
  revert seed. induction k as [|k IH]; intros seed; [reflexivity |].
  cbn [choices]. now rewrite free_of_cons, characters_plain, IH.
Qed.

Lemma last_char_app c a b : last_char c (a +:+ b) = last_char (last_char c a) b.
Proof. revert c. induction a as [|x a IH]; intros c; simpl; auto. Qed.

Lemma last_char_cons c c' x s : last_char c (String x s) = last_char c' (String x s).
Proof. reflexivity. Qed.

Lemma last_char_free c x s :
  free_of "/" (String x s) = true ->
  Ascii.eqb (last_char c (String x s)) "/" = false.
Proof.
  revert x. induction s as [|y s IH]; intros x H; rewrite free_of_cons in H;
    apply andb_prop in H as [Hx Hs].
  - now apply negb_true_iff in Hx.
  - cbn [last_char]. now apply IH.
Qed.

(** A name built from a slash-free stem is not an absolute path. *)
Lemma startswith_slash_free a r :
  free_of "/" a = true -> startswith "/" (a +:+ "-" +:+ r) = false.
Proof.
  destruct a as [|c a]; [reflexivity |].
  rewrite free_of_cons. intros H. apply andb_prop in H as [H _].
  apply negb_true_iff in H. cbn [String.append]. rewrite startswith_cons.
  now rewrite Ascii.eqb_sym, H.
Qed.

Lemma under_join d x y :
  startswith "/" x = false -> under d (path_join d x +:+ y) = true.
Proof.
  intros H. unfold under, path_join. rewrite H, app_str_assoc.
  apply startswith_app.
Qed.

Lemma under_join_0 d x : startswith "/" x = false -> under d (path_join d x) = true.
Proof. intros H. rewrite <- (app_str_nil_r (path_join d x)). now apply under_join. Qed.

Lemma dir_prefix_proper d : proper_dir d -> dir_prefix d = d +:+ "/".
Proof. unfold proper_dir, dir_prefix. now intros ->. Qed.

Lemma dir_head_app h x :
  free_of "/" x = true -> dir_head (h +:+ String "/" x) = h +:+ "/".
Proof.
  intros Hx.
  assert (Hs : free_of "/" (String "/" x) = false) by reflexivity.
  induction h as [|c h IH].
  - cbn [String.append dir_head]. rewrite Hs. f_equal.
    destruct x as [|a x]; cbn [dir_head]; [reflexivity |]. now rewrite Hx.
  - cbn [String.append dir_head]. rewrite free_of_cons, free_of_app, Hs.
    rewrite !andb_false_r. now rewrite IH.
Qed.

Lemma proper_not_slashes d :
  proper_dir d -> all_chars (Ascii.eqb "/") d = false.
Proof.
  unfold proper_dir. induction d as [|c d IH]; [discriminate |].
  destruct d as [|c' d].
  - cbn [last_char all_chars]. intros H. now rewrite Ascii.eqb_sym, H.
  - intros H. cbn [all_chars] in IH |- *.
    rewrite (IH H). now rewrite andb_false_r.
Qed.

Lemma rstrip_proper d : proper_dir d -> rstrip "/" (d +:+ "/") = d.
Proof.
  unfold proper_dir. induction d as [|c d IH]; [discriminate |].
  destruct d as [|c' d].
  - cbn [last_char]. intros H. cbn. now rewrite H.
  - intros H. cbn [String.append rstrip] in IH |- *.
    rewrite (IH H). reflexivity.
Qed.

Lemma dirname_join d x :
  proper_dir d -> free_of "/" x = true -> dirname (path_join d x) = d.
Proof.
  intros Hd Hx. unfold path_join.
  replace (startswith "/" x) with false.
  - rewrite (dir_prefix_proper d Hd), app_str_assoc. unfold dirname.
    change ("/" +:+ x) with (String "/" x).
    rewrite (dir_head_app d x Hx), all_chars_app, (proper_not_slashes d Hd).
    replace (String.eqb (d +:+ "/") "") with false
      by (now destruct d). cbn [negb andb].
    now apply rstrip_proper.
  - destruct x as [|c x]; [reflexivity |]. rewrite free_of_cons in Hx.
    apply andb_prop in Hx as [Hc _]. apply negb_true_iff in Hc.
    now rewrite startswith_cons, Ascii.eqb_sym, Hc.
Qed.

Lemma workspace_proper env w : proper_dir (workspace env w).
Proof.
  unfold proper_dir, workspace, path_join.
  replace (startswith "/" _) with false by reflexivity.
  rewrite !last_char_app. apply last_char_free.
  exact (choices_free 8 (rng env (w_next w))).
Qed.

(** ** The extension table *)

Lemma in_tuple_logos_extensions e :
  in_tuple e logos_extensions = true ->
  e = ".x" \/ e = ".xi" \/ e = ".xm" \/ e = ".xmi".
Proof.
  unfold in_tuple. intros H. apply existsb_exists in H as (x & Hin & Hx).
  apply String.eqb_eq in Hx as <-.
  destruct Hin as [<- | [<- | [<- | [<- | []]]]]; tauto.
Qed.

Lemma normal_extension_lookup e :
  in_tuple e logos_extensions = true ->
  exists t, logos_extensions_to_normal_extensions !! e = Some t /\
            (t = ".m" \/ t = ".mm").
Proof.
  intros H. apply in_tuple_logos_extensions in H as [-> | [-> | [-> | ->]]];
    eexists; (split; [vm_compute; reflexivity | tauto]).
Qed.

(** * The first loop of [real_main] *)

Lemma spawn_results_app a b :
  spawn_results (a ++ b) = spawn_results a ++ spawn_results b.
Proof.
  induction a as [|e a IH]; [reflexivity |].
  destruct e; simpl; now rewrite ?IH.
Qed.

Lemma written_app a b : written (a ++ b) = written a ++ written b.
Proof.
  induction a as [|e a IH]; [reflexivity |].
  destruct e; simpl; now rewrite ?IH.
Qed.

Lemma touched_app a b : touched (a ++ b) = touched a ++ touched b.
Proof.
  induction a as [|e a IH]; [reflexivity |].
  destruct e; simpl; now rewrite ?IH.
Qed.

Lemma okpath_under d q : under d q = true -> okpath d q = true.
Proof. unfold okpath. now intros ->. Qed.

Lemma okpath_ext d q :
  in_tuple (path_ext q) logos_extensions = true -> okpath d q = true.
Proof. unfold okpath. intros ->. apply orb_true_r. Qed.

Lemma steps_refl d w : steps d w w.
Proof.
  repeat split; auto. exists []. rewrite app_nil_r. repeat split; constructor.
Qed.

Lemma steps_trans d w1 w2 w3 : steps d w1 w2 -> steps d w2 w3 -> steps d w1 w3.
Proof.
  intros (Hf1 & Hd1 & evs1 & Ht1 & Hs1 & Hw1 & Ho1)
         (Hf2 & Hd2 & evs2 & Ht2 & Hs2 & Hw2 & Ho2).
  repeat split.
  - intros q Hq. now rewrite Hf2, Hf1.
  - auto.
  - exists (evs1 ++ evs2). repeat split.
    + now rewrite Ht2, Ht1, app_assoc.
    + now rewrite spawn_results_app, Hs1, Hs2.
    + rewrite written_app. now apply Forall_app.
    + rewrite touched_app. now apply Forall_app.
Qed.

Lemma is_Some_insert_mono (fs : gmap string string) k v q :
  is_Some (fs !! q) -> is_Some (<[k := v]> fs !! q).
Proof.
  intros H. destruct (decide (k = q)) as [-> |].
  - rewrite lookup_insert_eq. eauto.
  - now rewrite lookup_insert_ne.
Qed.

(** A world reached by creating or overwriting workspace files, with
    events that launch nothing, is a step away. *)
Ltac solve_steps :=
  repeat split; cbn [w_files w_trace];
  [ intros ? ?; rewrite ?lookup_insert_ne by congruence; reflexivity
  | intros ? ?; repeat apply is_Some_insert_mono; assumption
  | eexists; split;
    [ rewrite <- ?app_assoc; reflexivity
    | split; [reflexivity |
      split; [ cbn [written app]; repeat constructor; assumption
             | cbn [touched app]; repeat constructor; assumption ] ] ] ].

Lemma recognized_steps d w w' a :
  steps d w w' -> recognized w a = true -> recognized w' a = true.
Proof.
  intros (_ & Hd & _). unfold recognized. intros H.
  apply andb_prop in H as [Hf He]. rewrite He, andb_true_r.
  apply bool_decide_eq_true in Hf. apply bool_decide_eq_true. auto.
Qed.

Lemma recognized_steps_outside d w w' a :
  steps d w w' -> under d a = false -> recognized w' a = recognized w a.
Proof. intros (Hf & _) Ha. unfold recognized. now rewrite (Hf a Ha). Qed.

(** A temporary name made from the stem of a path lies in the workspace. *)
Lemma temp_name_under d p name suffix :
  under d (path_join d ((path_stem p +:+ "-") +:+ name +:+ suffix)) = true.
Proof.
  apply under_join_0. rewrite app_str_assoc.
  apply startswith_slash_free, path_stem_free.
Qed.

Lemma temp_name_free p k seed suffix :
  free_of "/" suffix = true ->
  free_of "/" ((path_stem p +:+ "-") +:+ choices k seed +:+ suffix) = true.
Proof.
  intros H. rewrite !free_of_app, path_stem_free, choices_free, H. reflexivity.
Qed.

Lemma dict_set_Forall (P : string * string -> Prop) k v dict :
  P (k, v) -> Forall P dict -> Forall P (dict_set k v dict).
Proof.
  intros Hkv Hd. induction Hd as [|[k' v'] dict Hx Hd IH]; cbn [dict_set].
  - now repeat constructor.
  - destruct (String.eqb k' k); constructor; auto.
Qed.

(** The transformation of one recognized file always completes: the
    temporary files are made in the workspace and the original is only
    read. *)
Lemma transform_to_temp_spec env d in_place save_temps st orig w :
  proper_dir d ->
  recognized w orig = true ->
  exists st' w' x,
    transform_to_temp env d in_place save_temps st orig w = (Ok st', w') /\
    steps d w w' /\
    new_cf_args st' = new_cf_args st ++ [x] /\ under d x = true /\
    (session_ok d st -> session_ok d st').
Proof.
  intros Hd Hrec. unfold recognized in Hrec.
  apply andb_prop in Hrec as [Hfile Hext].
  apply bool_decide_eq_true in Hfile.
  pose proof (okpath_ext d orig Hext) as Horig.
  destruct (normal_extension_lookup _ Hext) as (t & Hlook & Ht).
  assert (Htfree : free_of "/" t = true) by (destruct Ht as [-> | ->]; reflexivity).
  destruct w as [fs n out tr]. cbn [w_files] in Hfile.
  set (tmp_norm := path_join d ((path_stem orig +:+ "-") +:+
                                choices 8 (rng env n) +:+ t)).
  assert (Hnorm : under d tmp_norm = true) by apply temp_name_under.
  pose proof (okpath_under d _ Hnorm) as Hnorm'.
  unfold transform_to_temp. rewrite Hlook.
  destruct in_place.
  - (* in place: a second temporary file *)
    set (tmp_logos := path_join d ((path_stem orig +:+ "-") +:+
                         choices 8 (rng env (S n)) +:+ path_ext orig)).
    assert (Hlogos : under d tmp_logos = true) by apply temp_name_under.
    pose proof (okpath_under d _ Hlogos) as Hlogos'.
    assert (Hsome : is_Some ((<[tmp_logos := ""]> (<[tmp_norm := ""]> fs))
                             !! orig))
      by (repeat apply is_Some_insert_mono; exact Hfile).
    destruct Hsome as [text Htext].
    rewrite andb_false_r.
    cbv beta iota zeta delta
      [bind ret raise emit get_files set_files NamedTemporaryFile random_name
       read_file write_file w_files w_next w_stdout w_trace].
    fold tmp_norm. fold tmp_logos. rewrite Htext.
    eexists _, _, tmp_norm. split; [reflexivity |].
    split; [solve_steps |]. split; [reflexivity |]. split; [exact Hnorm |].
    intros [Hs1 Hs2]. split; cbn [tmp_norm_to_tmp_logos tmp_logos_to_orig_logos];
      apply dict_set_Forall; auto.
  - (* stream mode *)
    assert (Hsome : is_Some ((<[tmp_norm := ""]> fs) !! orig))
      by (apply is_Some_insert_mono; exact Hfile).
    destruct Hsome as [text Htext].
    rewrite andb_true_r.
    assert (Hcopy : under d (path_join (dirname tmp_norm) (path_stem tmp_norm)
                             +:+ "-unformatted" +:+ path_ext tmp_norm) = true).
    { unfold tmp_norm at 1. rewrite dirname_join by auto using temp_name_free.
      apply under_join. destruct (path_stem tmp_norm) as [|c r] eqn:Hst;
        [reflexivity |].
      pose proof (path_stem_free tmp_norm) as Hf. rewrite Hst, free_of_cons in Hf.
      apply andb_prop in Hf as [Hc _]. apply negb_true_iff in Hc.
      now rewrite startswith_cons, Ascii.eqb_sym, Hc. }
    pose proof (okpath_under d _ Hcopy) as Hcopy'.
    destruct save_temps;
      cbv beta iota zeta delta
        [bind ret raise emit get_files set_files NamedTemporaryFile random_name
         read_file write_file copy_file w_files w_next w_stdout w_trace];
      fold tmp_norm; rewrite Htext; rewrite ?lookup_insert_eq;
      (eexists _, _, tmp_norm; split; [reflexivity |]);
      (split; [solve_steps |]); (split; [reflexivity |]);
      (split; [exact Hnorm | trivial]).
Qed.

(** [get_logos_path] reads the world and leaves it as it is. *)
Lemma get_logos_path_unfold env arg w :
  get_logos_path env arg w =
  if recognized w arg then
    if negb (readable env arg) then
      (Raise (PermissionError ("Can't read Logos file '" +:+ arg +:+ "'")), w)
    else if negb (writable env arg) then
      (Raise (PermissionError ("Can't write Logos file '" +:+ arg +:+ "'")), w)
    else (Ok (Some arg), w)
  else (Ok None, w).
Proof.
  unfold get_logos_path, recognized, bind, isfile, raise, ret.
  destruct (bool_decide _ && _); [| reflexivity].
  destruct (negb (readable env arg)); [reflexivity |].
  now destruct (negb (writable env arg)).
Qed.

(** One round of the loop: a step; on success one argument more, a
    workspace file or the argument itself when it is not recognized; and
    the only exception is the [PermissionError] of a recognized file that
    cannot be read or written. *)
Lemma classify_and_transform_spec env d in_place save_temps st arg w r w' :
  proper_dir d ->
  classify_and_transform env d in_place save_temps st arg w = (r, w') ->
  steps d w w' /\
  match r with
  | Ok st' =>
      (recognized w arg = true -> readable env arg && writable env arg = true)
      /\ (session_ok d st -> session_ok d st')
      /\ exists x, new_cf_args st' = new_cf_args st ++ [x] /\
                   (under d x = true \/ x = arg /\ recognized w arg = false)
  | Raise e =>
      recognized w arg = true /\
      readable env arg && writable env arg = false /\
      exists msg, e = PermissionError msg
  end.
Proof.
  intros Hd. unfold classify_and_transform, bind.
  rewrite get_logos_path_unfold.
  destruct (recognized w arg) eqn:Hrec.
  - destruct (readable env arg); cbn [negb andb].
    + destruct (writable env arg); cbn [negb].
      * destruct (transform_to_temp_spec env d in_place save_temps st arg w
                    Hd Hrec) as (st' & w1 & x & -> & Hsteps & Hargs & Hx & Hs).
        intros [= <- <-]. split; [exact Hsteps |]. split; [reflexivity |].
        split; [exact Hs |]. exists x. auto.
      * intros [= <- <-]. split; [apply steps_refl |]. eauto.
    + intros [= <- <-]. split; [apply steps_refl |]. eauto.
  - unfold ret. intros [= <- <-]. split; [apply steps_refl |].
    split; [discriminate |]. split; [trivial |]. exists arg. auto.
Qed.

(** The whole loop. *)
Lemma forward_loop_spec env d in_place save_temps args :
  proper_dir d ->
  forall st w r w',
    for_each (classify_and_transform env d in_place save_temps) args st w
    = (r, w') ->
    steps d w w' /\
    match r with
    | Ok st' =>
        (forall a, In a args -> recognized w a = true ->
                   readable env a && writable env a = true) /\
        (session_ok d st -> session_ok d st') /\
        (forall a, In a (new_cf_args st') ->
                   In a (new_cf_args st) \/ under d a = true \/
                   recognized w a = false)
    | Raise e =>
        exists msg a, e = PermissionError msg /\ In a args /\
                      readable env a && writable env a = false
    end.
Proof.
  intros Hd. induction args as [|arg args IH]; intros st w r w'.
  - cbn [for_each]. unfold ret. intros [= <- <-].
    split; [apply steps_refl |]. split; [intros a [] | auto].
  - cbn [for_each]. unfold bind at 1.
    destruct (classify_and_transform env d in_place save_temps st arg w)
      as [r1 w1] eqn:Hround.
    apply classify_and_transform_spec in Hround as [Hs1 Hr1]; [| exact Hd].
    destruct r1 as [st1 | e].
    + intros Hrest. apply IH in Hrest as [Hs2 Hr2].
      split; [eapply steps_trans; eauto |].
      destruct Hr1 as (Hperm & Hsess & x & Hargs & Hx).
      destruct r as [st' | e].
      * destruct Hr2 as (Hperms & Hsess2 & Hr2). split; [| split].
        -- intros a [<- | Hin] Hrec; [auto |].
           apply Hperms; [exact Hin |]. eapply recognized_steps; eauto.
        -- auto.
        -- intros a Hin. destruct (Hr2 a Hin) as [Hin1 | [Hu | Hrec]].
           ++ rewrite Hargs in Hin1. apply in_app_or in Hin1 as [? | [<- | []]];
                [auto |]. destruct Hx as [Hx | [-> Hx]]; auto.
           ++ auto.
           ++ destruct (under d a) eqn:Hu; [auto |].
              right. right.
              now rewrite <- (recognized_steps_outside d w w1 a Hs1 Hu).
      * destruct Hr2 as (msg & a & -> & Hin & Hperm').
        exists msg, a. repeat split; auto. now right.
    + intros [= <- <-]. split; [exact Hs1 |].
      destruct Hr1 as (Hrec & Hperm & msg & ->).
      exists msg, arg. repeat split; auto. now left.
Qed.

(** * Launching the formatter, and what follows *)

Section Polite.
Variable d : string.

Lemma polite_ret {A} (a : A) : polite d (ret a).
Proof. intros w. exists []. rewrite app_nil_r. repeat split. constructor. Qed.

Lemma polite_raise {A} e : polite d (@raise A e).
Proof. intros w. exists []. rewrite app_nil_r. repeat split. constructor. Qed.

Lemma polite_bind {A B} (m : M A) (k : A -> M B) :
  polite d m -> (forall a, polite d (k a)) -> polite d (bind m k).
Proof.
  intros Hm Hk w. unfold bind. destruct (Hm w) as (evs1 & Ht1 & Hs1 & Ho1).
  destruct (m w) as [[a | e] w1]; cbn [snd] in *.
  - destruct (Hk a w1) as (evs2 & Ht2 & Hs2 & Ho2). exists (evs1 ++ evs2).
    rewrite Ht2, Ht1, app_assoc, spawn_results_app, Hs1, Hs2, touched_app.
    repeat split. now apply Forall_app.
  - now exists evs1.
Qed.

Lemma polite_emit e :
  spawn_results [e] = [] ->
  Forall (fun q => okpath d q = true) (touched [e]) -> polite d (emit e).
Proof. intros H Ho w. now exists [e]. Qed.

Lemma polite_get_files : polite d get_files.
Proof. intros w. exists []. rewrite app_nil_r. repeat split. constructor. Qed.

Lemma polite_set_files fs : polite d (set_files fs).
Proof.
  intros w. exists []. cbn. rewrite app_nil_r. repeat split. constructor.
Qed.

Lemma polite_print s : polite d (print s).
Proof.
  intros w. exists []. cbn. rewrite app_nil_r. repeat split. constructor.
Qed.

Lemma polite_read_file p : okpath d p = true -> polite d (read_file p).
Proof.
  intros Hp. unfold read_file.
  apply polite_bind; [apply polite_emit; repeat constructor; exact Hp |].
  intros _. apply polite_bind; [apply polite_get_files |]. intros fs.
  destruct (fs !! p); [apply polite_ret | apply polite_raise].
Qed.

Lemma polite_write_file p text :
  okpath d p = true -> polite d (write_file p text).
Proof.
  intros Hp. unfold write_file.
  apply polite_bind; [apply polite_emit; repeat constructor; exact Hp |].
  intros _. apply polite_bind; [apply polite_get_files |]. intros fs.
  apply polite_set_files.
Qed.

Lemma polite_for_each {A S} (body : S -> A -> M S) xs :
  Forall (fun x => forall st, polite d (body st x)) xs ->
  forall st, polite d (for_each body xs st).
Proof.
  intros Hbody. induction Hbody as [|x xs Hx _ IH]; intros st; cbn [for_each].
  - apply polite_ret.
  - apply polite_bind; auto.
Qed.

(** With the dictionaries of a session in order, what follows the
    formatter opens workspace files and Logos originals only. *)
Lemma polite_post_process in_place st out :
  session_ok d st -> polite d (post_process in_place st out).
Proof.
  intros [Hs1 Hs2]. unfold post_process.
  destruct in_place; [| apply polite_print].
  apply polite_bind; [apply polite_print |]. intros _.
  apply polite_bind; [| intros _]; apply polite_for_each.
  - eapply Forall_impl; [exact Hs1 |]. intros [a b] [Ha Hb] _. cbn [fst snd] in *.
    apply polite_bind; [now apply polite_read_file, okpath_under |].
    intros text. now apply polite_write_file, okpath_under.
  - eapply Forall_impl; [exact Hs2 |]. intros [a b] [Ha Hb] _. cbn [fst snd] in *.
    apply polite_bind; [now apply polite_read_file, okpath_under |].
    intros text. now apply polite_write_file, okpath_ext.
Qed.
End Polite.

(** In stream mode what follows the formatter only prints. *)
Lemma post_process_stream st out w :
  w_trace (post_process false st out w).2 = w_trace w.
Proof. reflexivity. Qed.

Lemma subprocess_run_unfold env check cmd w :
  subprocess_run env check cmd w =
  let res := (spawn env cmd (w_files w)).1 in
  (match res with
   | Exited rc out =>
       if check && negb (Z.eqb rc 0) then Raise (CalledProcessError rc out)
       else Ok out
   | Failed e => Raise e
   end,
   mkWorld (spawn env cmd (w_files w)).2 (w_next w) (w_stdout w)
           (w_trace w ++ [EvSpawn cmd res])).
Proof.
  unfold subprocess_run, bind, get_files.
  destruct (spawn env cmd (w_files w)) as [res fs'].
  unfold emit, set_files, raise, ret. cbn [fst snd w_files w_next w_stdout w_trace].
  destruct res as [rc out | e]; [| reflexivity].
  now destruct (check && negb (Z.eqb rc 0)).
Qed.

(** The formatter run, by the way the formatter ended.  After a failure
    nothing else happens: no file is opened and the world is the one the
    formatter left.  After a success in stream mode no file is opened
    either. *)
Lemma run_clang_format_spec env d in_place st w r w' :
  session_ok d st ->
  run_clang_format env in_place st w = (r, w') ->
  let cmd := new_cf_cmd env in_place st in
  let res := (spawn env cmd (w_files w)).1 in
  exists evs,
    w_trace w' = w_trace w ++ EvSpawn cmd res :: evs /\
    spawn_results evs = [] /\
    Forall (fun q => okpath d q = true) (touched evs) /\
    match res with
    | Exited rc out =>
        if Z.eqb rc 0
        then (r = Ok 0%Z \/ exists e, r = Raise e) /\
             (in_place = false -> evs = [])
        else r = Ok rc /\ evs = [] /\
             w_files w' = (spawn env cmd (w_files w)).2
    | Failed e =>
        evs = [] /\ w_files w' = (spawn env cmd (w_files w)).2 /\
        (is_CalledProcessError e = false ->
         r = Raise (if is_Exception e then UnboundLocalError "cf_res" else e))
    end.
Proof.
  intros Hsess. unfold run_clang_format. rewrite subprocess_run_unfold. cbv zeta.
  destruct (spawn env _ (w_files w)) as [res fs'] eqn:Hsp. cbn [fst snd].
  destruct res as [rc out | e].
  - cbn [andb]. destruct (Z.eqb rc 0) eqn:Hrc; cbn [negb].
    + set (w1 := mkWorld _ _ _ _). unfold bind.
      destruct (polite_post_process d in_place st out Hsess w1)
        as (evs & Ht & Hs & Ho).
      pose proof (post_process_stream st out w1) as Hstream.
      destruct (post_process in_place st out w1) as [[[] | e] w2] eqn:Hpost;
        cbn [snd] in Ht; intros [= <- <-]; exists evs;
        (split; [rewrite Ht; unfold w1; cbn [w_trace];
                 now rewrite <- app_assoc |]);
        (split; [exact Hs |]); (split; [exact Ho |]);
        (split; [eauto |]); intros ->; rewrite Hpost in Hstream;
        cbn [snd] in Hstream; rewrite Hstream in Ht;
        rewrite <- (app_nil_r (w_trace w1)) in Ht at 1;
        now apply app_inv_head in Ht.
    + intros [= <- <-]. exists []. repeat split; auto; constructor.
  - destruct e; cbn [is_Exception]; intros [= <- <-]; exists [];
      repeat split; auto; try constructor; discriminate.
Qed.

Lemma rmtree_unfold d w :
  rmtree d w =
  (Ok tt, mkWorld (filter (fun kv => under d kv.1 = false) (w_files w))
                  (w_next w) (w_stdout w) (w_trace w ++ [EvRmtree d])).
Proof. reflexivity. Qed.

(** Removing the workspace leaves the files outside it alone. *)
Lemma rmtree_outside d (fs : gmap string string) q :
  under d q = false ->
  filter (fun kv : string * string => under d kv.1 = false) fs !! q = fs !! q.
Proof.
  intros Hq. apply option_eq. intros x.
  rewrite map_lookup_filter_Some. cbn [fst]. tauto.
Qed.

Lemma cleanup_trace save d w :
  exists evs, w_trace (cleanup save d w) = w_trace w ++ evs /\
              spawn_results evs = [] /\ written evs = [] /\ touched evs = [].
Proof.
  unfold cleanup. destruct save.
  - exists []. now rewrite app_nil_r.
  - now exists [EvRmtree d].
Qed.

Lemma cleanup_outside save d w q :
  under d q = false -> w_files (cleanup save d w) !! q = w_files w !! q.
Proof.
  intros Hq. unfold cleanup. destruct save; [reflexivity |].
  rewrite rmtree_unfold. cbn [snd w_files]. now apply rmtree_outside.
Qed.

Lemma In_spawn_results cmd res tr :
  In (EvSpawn cmd res) tr -> In res (spawn_results tr).
Proof.
  induction tr as [|e tr IH]; [intros [] |].
  intros [-> | Hin]; [now left |].
  destruct e; cbn [spawn_results]; auto. right. auto.
Qed.

(** [real_main] on a formatting run: the workspace is made, the loop and
    the formatter run inside it, and it is removed unless it is kept. *)
Lemma real_main_unfold env a args w :
  ns_version a = false ->
  real_main env a args w =
  let d := workspace env w in
  let w1 := mkWorld (w_files w) (S (w_next w)) (w_stdout w)
                    (w_trace w ++ [EvMkdtemp d]) in
  let '(r, w2) :=
    (st <- for_each (classify_and_transform env d (ns_in_place a)
                                            (ns_save_logos_temps a))
                    args empty_session ;;
     run_clang_format env (ns_in_place a) st) w1 in
  (r, cleanup (ns_save_logos_temps a) d w2).
Proof.
  intros Hv. unfold real_main, cleanup. rewrite Hv.
  unfold with_SaveableTempDir, bind at 1. cbn.
  destruct (bind _ _ _) as [r w2]. now destruct (ns_save_logos_temps a).
Qed.

(** The two ways a formatting run can go: the loop raises the
    [PermissionError] of some argument and nothing is launched, or the
    loop completes and the formatter is run. *)
Lemma real_main_run env a args w r w' :
  ns_version a = false ->
  real_main env a args w = (r, w') ->
  let d := workspace env w in
  exists w2 evs,
    steps d w w2 /\
    w_trace w2 = w_trace w ++ EvMkdtemp d :: evs /\
    ((exists msg arg,
        r = Raise (PermissionError msg) /\ In arg args /\
        readable env arg && writable env arg = false /\
        w' = cleanup (ns_save_logos_temps a) d w2) \/
     (exists st w3,
        (forall x, In x args -> recognized w x = true ->
                   readable env x && writable env x = true) /\
        session_ok d st /\
        (forall x, In x (new_cf_args st) ->
                   under d x = true \/ recognized w x = false) /\
        run_clang_format env (ns_in_place a) st w2 = (r, w3) /\
        w' = cleanup (ns_save_logos_temps a) d w3)).
Proof.
  intros Hv Hrun d. rewrite (real_main_unfold env a args w Hv) in Hrun.
  cbv zeta in Hrun. fold d in Hrun. unfold bind in Hrun.
  set (w1 := mkWorld _ _ _ _) in Hrun.
  assert (Hw1 : steps d w w1).
  { destruct w as [fs n out tr]. unfold w1. cbn [w_files w_next w_stdout w_trace].
    repeat split; cbn [w_files w_trace]; auto.
    exists [EvMkdtemp d]. repeat split; constructor. }
  destruct (for_each _ args empty_session w1) as [r1 w2] eqn:Hloop.
  apply forward_loop_spec in Hloop as [Hsteps Hr1];
    [| apply workspace_proper].
  destruct Hsteps as (Hf & Hdom & evs & Htr & Hsp & Hwr & Hok).
  exists w2, evs. split; [| split].
  - eapply steps_trans; [exact Hw1 |]. repeat split; eauto.
  - rewrite Htr. unfold w1. cbn [w_trace]. now rewrite <- app_assoc.
  - destruct r1 as [st | e].
    + right. destruct Hr1 as (Hperms & Hsess & Hargs).
      destruct (run_clang_format env (ns_in_place a) st w2) as [r2 w3] eqn:Hfmt.
      exists st, w3. repeat split.
      * exact Hperms.
      * apply Hsess. split; constructor.
      * apply Hsess. split; constructor.
      * intros x Hx. destruct (Hargs x Hx) as [[] | H]; exact H.
      * congruence.
      * congruence.
    + left. destruct Hr1 as (msg & arg & -> & Hin & Hperm).
      exists msg, arg. repeat split; auto; congruence.
Qed.

(** * The claims about the pipeline *)

(** C2: when the formatter invocation of a formatting run fails (a
    non-zero exit status, or an exception while launching it), every
    recognized source file has the text it had before the run, and every
    file the run opened for writing is one it created: the run ends
    before any reverse transform or overwrite of an original.  In any
    formatting run, a file that existed before is opened for writing only
    in in-place mode and only when the formatter has exited with status 0.
    The formatter is taken to change only files named in its arguments,
    and the workspace to be a new directory. *)
Theorem C2_formatter_failure_leaves_originals env a args w r w' :
  spawn_frame env ->
  fresh_dir (workspace env w) w ->
  w_trace w = [] ->
  ns_version a = false ->
  real_main env a args w = (r, w') ->
  ((exists cmd res, In (EvSpawn cmd res) (w_trace w') /\ failed res = true) ->
   (forall p, recognized w p = true -> w_files w' !! p = w_files w !! p) /\
   (forall q, In q (written (w_trace w')) -> w_files w !! q = None)) /\
  (forall q, In q (written (w_trace w')) -> is_Some (w_files w !! q) ->
             ns_in_place a = true /\
             exists cmd out, In (EvSpawn cmd (Exited 0 out)) (w_trace w')).
Proof.
  intros Hframe Hfresh Htr Hv Hrun.
  destruct (real_main_run env a args w r w' Hv Hrun)
    as (w2 & evs & Hsteps & _ & Hcases).
  destruct Hsteps as (Hfiles & _ & evs2 & Htr2 & Hsp2 & Hwr2 & _).
  rewrite Htr in Htr2. cbn [app] in Htr2.
  set (d := workspace env w) in *.
  assert (Hnew : forall q, In q (written evs2) -> w_files w !! q = None).
  { intros q Hq.
    pose proof (proj1 (List.Forall_forall _ _) Hwr2 q Hq) as Hu.
    destruct (w_files w !! q) as [text |] eqn:Hlook; [| reflexivity].
    pose proof (Hfresh q text Hlook) as Hu'. cbn beta in Hu'. congruence. }
  destruct Hcases as [(msg & arg & -> & _ & _ & ->)
                     | (st & w3 & _ & Hsess & Hargs & Hfmt & ->)].
  - (* the loop raised: nothing was launched *)
    destruct (cleanup_trace (ns_save_logos_temps a) d w2)
      as (evc & Hc & Hsc & Hwc & _).
    rewrite Hc, Htr2. split.
    + intros (cmd & res & Hin & _). apply In_spawn_results in Hin.
      rewrite spawn_results_app, Hsp2, Hsc in Hin. destruct Hin.
    + intros q Hq [text Hsome]. rewrite written_app, Hwc, app_nil_r in Hq.
      rewrite (Hnew q Hq) in Hsome. discriminate.
  - apply (run_clang_format_spec env d) in Hfmt as (evs3 & Htr3 & Hsp3 & _ & Hres);
      [| exact Hsess].
    destruct (cleanup_trace (ns_save_logos_temps a) d w3)
      as (evc & Hc & Hsc & Hwc & _).
    set (cmd0 := new_cf_cmd env (ns_in_place a) st) in *.
    set (res0 := (spawn env cmd0 (w_files w2)).1) in *.
    rewrite Hc, Htr3, Htr2. split.
    + intros (cmd & res & Hin & Hfail). apply In_spawn_results in Hin.
      rewrite !spawn_results_app in Hin. cbn [spawn_results] in Hin.
      rewrite Hsp2, Hsp3, Hsc in Hin. destruct Hin as [<- | []].
      assert (Hdone : evs3 = [] /\
                      w_files w3 = (spawn env cmd0 (w_files w2)).2).
      { destruct res0 as [rc out | e].
        - cbn [failed] in Hfail. apply negb_true_iff in Hfail.
          rewrite Hfail in Hres. tauto.
        - tauto. }
      destruct Hdone as [-> Hw3]. split.
      * intros p Hrec. pose proof Hrec as Hrec'. unfold recognized in Hrec'.
        apply andb_prop in Hrec' as [Hp Hext].
        apply bool_decide_eq_true in Hp as [text Hp].
        pose proof (Hfresh p text Hp) as Hup. cbn beta in Hup.
        rewrite cleanup_outside by exact Hup. rewrite Hw3.
        rewrite Hframe; [now apply Hfiles |].
        unfold cmd0, new_cf_cmd. cbn [tl]. intros Hmem.
        assert (Hst : In p (new_cf_args st)).
        { destruct (ns_in_place a); [| exact Hmem].
          destruct Hmem as [<- | Hmem]; [discriminate Hext | exact Hmem]. }
        destruct (Hargs p Hst); congruence.
      * intros q Hq. rewrite !written_app in Hq. cbn [written] in Hq.
        rewrite Hwc, !app_nil_r in Hq. auto.
    + intros q Hq [text Hsome]. rewrite !written_app in Hq.
      cbn [written] in Hq. rewrite Hwc, app_nil_r in Hq.
      apply in_app_or in Hq as [Hq | Hq];
        [rewrite (Hnew q Hq) in Hsome; discriminate |].
      destruct res0 as [rc out | e] eqn:Hres0.
      * destruct (Z.eqb rc 0) eqn:Hrc.
        -- apply Z.eqb_eq in Hrc as ->. destruct Hres as [_ Hstream]. split.
           ++ destruct (ns_in_place a); [reflexivity |].
              rewrite (Hstream eq_refl) in Hq. cbn in Hq. contradiction.
           ++ exists cmd0, out. apply in_or_app. left.
              apply in_or_app. right. now left.
        -- destruct Hres as (_ & -> & _). cbn in Hq. contradiction.
      * destruct Hres as (-> & _). cbn in Hq. contradiction.
Qed.

Lemma sample_frame can_write res : spawn_frame (sample_env can_write res).
Proof. intros cmd fs q _. reflexivity. Qed.

Lemma sample_fresh can_write res :
  fresh_dir (workspace (sample_env can_write res) sample_world) sample_world.
Proof.
  intros p text. unfold sample_world, sample_files. cbn [w_files].
  rewrite lookup_insert_Some, lookup_empty. intros [[<- _] | [_ [=]]].
  vm_compute. reflexivity.
Qed.

Lemma C2_formatter_failure_leaves_originals_witness :
  let run := real_main (sample_env true (Exited 2 "error: X")) in_place_args
                       ["-style=file"; "Tweak.xm"] sample_world in
  run.1 = Ok 2%Z /\
  w_files run.2 !! "Tweak.xm" = w_files sample_world !! "Tweak.xm".
Proof.
  intros run. split; [vm_compute; reflexivity |].
  refine (proj1 (proj1 (C2_formatter_failure_leaves_originals
                   (sample_env true (Exited 2 "error: X")) in_place_args
                   ["-style=file"; "Tweak.xm"] sample_world run.1 run.2
                   (sample_frame _ _) (sample_fresh _ _) eq_refl eq_refl
                   _) _) "Tweak.xm" _).
  - unfold run. now destruct (real_main _ _ _ _).
  - eexists _, (Exited 2 "error: X"). split; [| reflexivity].
    vm_compute. do 5 right. left. reflexivity.
  - vm_compute. reflexivity.
Defined.

(** C4, as stated, fails: in this run the only source file cannot be
    written, [PermissionError] is raised, and the trace shows that the
    temporary directory had been created (and is removed again). *)
Lemma C4_counterexample :
  let run := real_main (sample_env false (Exited 0 "")) in_place_args
                       ["Tweak.xm"] sample_world in
  recognized sample_world "Tweak.xm" = true /\
  run.1 = Raise (PermissionError "Can't write Logos file 'Tweak.xm'") /\
  w_trace run.2 = [EvMkdtemp "/work/logos-format-tmp-aaaaaaaa";
                   EvRmtree "/work/logos-format-tmp-aaaaaaaa"].
Proof. repeat split; vm_compute; reflexivity. Qed.

(** C4, amended: in a formatting run whose arguments include a recognized
    source file that cannot be read or cannot be written,
    [PermissionError] is raised and [main] exits with code 1; the
    temporary directory has been created by then, but the formatter is
    never launched and whatever was written lies in the workspace. *)
Theorem C4_permission_error_inside_workspace env a args w arg :
  ns_version a = false ->
  In arg args ->
  recognized w arg = true ->
  readable env arg && writable env arg = false ->
  exists msg evs w',
    real_main env a args w = (Raise (PermissionError msg), w') /\
    main env (Ok (a, args)) w = (Ok 1%Z, w') /\
    w_trace w' = w_trace w ++ EvMkdtemp (workspace env w) :: evs /\
    spawn_results evs = [] /\
    Forall (fun q => under (workspace env w) q = true) (written evs).
Proof.
  intros Hv Hin Hrec Hperm.
  destruct (real_main env a args w) as [r w'] eqn:Hrun.
  destruct (real_main_run env a args w r w' Hv Hrun)
    as (w2 & evs & Hsteps & Htr2 & Hcases).
  destruct Hsteps as (_ & _ & evs2 & Htr2' & Hsp2 & Hwr2 & _).
  assert (Hevs : evs2 = EvMkdtemp (workspace env w) :: evs).
  { rewrite Htr2' in Htr2. now apply app_inv_head in Htr2. }
  subst evs2. cbn [spawn_results written] in Hsp2, Hwr2.
  destruct Hcases as [(msg & arg' & -> & _ & _ & ->)
                     | (st & w3 & Hperms & _ & _ & _ & _)].
  - destruct (cleanup_trace (ns_save_logos_temps a) (workspace env w) w2)
      as (evc & Hc & Hsc & Hwc & _).
    exists msg, (evs ++ evc), (cleanup (ns_save_logos_temps a) (workspace env w) w2).
    split; [reflexivity |]. split; [| split; [| split]].
    + unfold main. now rewrite Hrun.
    + now rewrite Hc, Htr2, <- app_assoc.
    + now rewrite spawn_results_app, Hsp2, Hsc.
    + now rewrite written_app, Hwc, app_nil_r.
  - rewrite (Hperms arg Hin Hrec) in Hperm. discriminate.
Qed.

Lemma C4_permission_error_inside_workspace_witness :
  exists msg evs w',
    real_main (sample_env false (Exited 0 "")) in_place_args
              ["-style=file"; "Tweak.xm"] sample_world
    = (Raise (PermissionError msg), w') /\
    main (sample_env false (Exited 0 "")) (Ok (in_place_args,
              ["-style=file"; "Tweak.xm"])) sample_world = (Ok 1%Z, w') /\
    w_trace w' = w_trace sample_world ++
                 EvMkdtemp (workspace (sample_env false (Exited 0 ""))
                                      sample_world) :: evs /\
    spawn_results evs = [] /\
    Forall (fun q => under (workspace (sample_env false (Exited 0 ""))
                                      sample_world) q = true) (written evs).
Proof.
  apply (C4_permission_error_inside_workspace
           (sample_env false (Exited 0 "")) in_place_args
           ["-style=file"; "Tweak.xm"] sample_world "Tweak.xm").
  - reflexivity.
  - right. left. reflexivity.
  - vm_compute. reflexivity.
  - reflexivity.
Defined.

(** The exit code [main] makes of the outcome of [real_main]. *)
Lemma main_exit_code env a args w :
  (main env (Ok (a, args)) w).1 =
  match (real_main env a args w).1 with
  | Ok code => Ok code
  | Raise e =>
      if is_Exception e then Ok 1%Z
      else match e with
           | KeyboardInterrupt => Ok 0%Z
           | _ => Raise e
           end
  end.
Proof.
  unfold main. destruct (real_main env a args w) as [[code | e] w'];
    [reflexivity |].
  cbn [fst]. destruct (is_Exception e); [reflexivity |]. now destruct e.
Qed.

(** What a formatter result found in the trace of a formatting run says
    about the outcome of [real_main]. *)
Lemma real_main_by_formatter_result env a args w r w' cmd res :
  ns_version a = false ->
  w_trace w = [] ->
  real_main env a args w = (r, w') ->
  In (EvSpawn cmd res) (w_trace w') ->
  match res with
  | Exited rc out =>
      if Z.eqb rc 0 then r = Ok 0%Z \/ exists e, r = Raise e else r = Ok rc
  | Failed e =>
      is_CalledProcessError e = false ->
      r = Raise (if is_Exception e then UnboundLocalError "cf_res" else e)
  end.
Proof.
  intros Hv Htr Hrun Hin. apply In_spawn_results in Hin.
  destruct (real_main_run env a args w r w' Hv Hrun)
    as (w2 & evs & Hsteps & _ & Hcases).
  destruct Hsteps as (_ & _ & evs2 & Htr2 & Hsp2 & _).
  rewrite Htr in Htr2. cbn [app] in Htr2.
  set (d := workspace env w) in *.
  destruct Hcases as [(msg & arg & -> & _ & _ & ->)
                     | (st & w3 & _ & Hsess & _ & Hfmt & ->)].
  - destruct (cleanup_trace (ns_save_logos_temps a) d w2) as (evc & Hc & Hsc & _).
    rewrite Hc, Htr2, spawn_results_app, Hsp2, Hsc in Hin. destruct Hin.
  - apply (run_clang_format_spec env d) in Hfmt as (evs3 & Htr3 & Hsp3 & _ & Hres);
      [| exact Hsess].
    destruct (cleanup_trace (ns_save_logos_temps a) d w3) as (evc & Hc & Hsc & _).
    rewrite Hc, Htr3, Htr2 in Hin.
    rewrite !spawn_results_app in Hin. cbn [spawn_results] in Hin.
    rewrite Hsp2, Hsp3, Hsc in Hin. destruct Hin as [<- | []].
    destruct (spawn env _ (w_files w2)).1 as [rc out | e].
    + destruct (Z.eqb rc 0); tauto.
    + tauto.
Qed.

(** C6: the exit code of a formatting run is 0 when the formatter exited
    with status 0 and the rest of the pipeline completed, the formatter's
    own exit status when that is not 0, and 1 when launching the formatter
    raised an exception or any other exception reached the handler of
    [main]. *)
Theorem C6_exit_codes env a args w r w' :
  ns_version a = false ->
  w_trace w = [] ->
  real_main env a args w = (r, w') ->
  let exit_code := (main env (Ok (a, args)) w).1 in
  (forall cmd out,
      In (EvSpawn cmd (Exited 0 out)) (w_trace w') ->
      (exists code, r = Ok code) -> exit_code = Ok 0%Z) /\
  (forall cmd rc out,
      In (EvSpawn cmd (Exited rc out)) (w_trace w') ->
      rc <> 0%Z -> exit_code = Ok rc) /\
  (forall cmd e,
      In (EvSpawn cmd (Failed e)) (w_trace w') ->
      is_Exception e = true -> is_CalledProcessError e = false ->
      exit_code = Ok 1%Z) /\
  (forall e, r = Raise e -> is_Exception e = true -> exit_code = Ok 1%Z).
Proof.
  intros Hv Htr Hrun exit_code. unfold exit_code.
  rewrite main_exit_code, Hrun. cbn [fst].
  repeat split.
  - intros cmd out Hin [code ->].
    pose proof (real_main_by_formatter_result _ _ _ _ _ _ _ _ Hv Htr Hrun Hin)
      as H. cbn in H. destruct H as [H | [e H]]; congruence.
  - intros cmd rc out Hin Hrc.
    pose proof (real_main_by_formatter_result _ _ _ _ _ _ _ _ Hv Htr Hrun Hin)
      as H. cbn beta iota in H.
    apply Z.eqb_neq in Hrc. rewrite Hrc in H. now rewrite H.
  - intros cmd e Hin He Hc.
    pose proof (real_main_by_formatter_result _ _ _ _ _ _ _ _ Hv Htr Hrun Hin)
      as H. cbn beta iota in H. rewrite (H Hc), He. reflexivity.
  - intros e -> He. now rewrite He.
Qed.

Lemma C6_exit_codes_witness :
  (main (sample_env true (Exited 2 "error: X"))
        (Ok (in_place_args, ["-style=file"; "Tweak.xm"])) sample_world).1
  = Ok 2%Z /\
  (main (sample_env true (Failed (OSError "cannot launch")))
        (Ok (stream_args, ["Tweak.xm"])) sample_world).1
  = Ok 1%Z /\
  (main (sample_env true (Exited 0 ""))
        (Ok (in_place_args, ["Tweak.xm"])) sample_world).1
  = Ok 0%Z /\
  (main (sample_env false (Exited 0 ""))
        (Ok (in_place_args, ["Tweak.xm"])) sample_world).1
  = Ok 1%Z.
Proof.
  split; [| split; [| split]].
  - set (env := sample_env true (Exited 2 "error: X")).
    set (run := real_main env in_place_args ["-style=file"; "Tweak.xm"]
                          sample_world).
    refine (proj1 (proj2 (C6_exit_codes env in_place_args _ sample_world
                            run.1 run.2 eq_refl eq_refl _))
                  _ 2%Z "error: X" _ _).
    + unfold run. now destruct (real_main _ _ _ _).
    + vm_compute. do 5 right. left. reflexivity.
    + discriminate.
  - set (env := sample_env true (Failed (OSError "cannot launch"))).
    set (run := real_main env stream_args ["Tweak.xm"] sample_world).
    refine (proj1 (proj2 (proj2 (C6_exit_codes env stream_args _ sample_world
                                   run.1 run.2 eq_refl eq_refl _)))
                  _ (OSError "cannot launch") _ eq_refl eq_refl).
    + unfold run. now destruct (real_main _ _ _ _).
    + vm_compute. do 4 right. left. reflexivity.
  - set (env := sample_env true (Exited 0 "")).
    set (run := real_main env in_place_args ["Tweak.xm"] sample_world).
    refine (proj1 (C6_exit_codes env in_place_args _ sample_world
                     run.1 run.2 eq_refl eq_refl _) _ "" _ _).
    + unfold run. now destruct (real_main _ _ _ _).
    + vm_compute. do 5 right. left. reflexivity.
    + exists 0%Z. vm_compute. reflexivity.
  - set (env := sample_env false (Exited 0 "")).
    set (run := real_main env in_place_args ["Tweak.xm"] sample_world).
    refine (proj2 (proj2 (proj2 (C6_exit_codes env in_place_args _ sample_world
                                   run.1 run.2 eq_refl eq_refl _)))
                  (PermissionError "Can't write Logos file 'Tweak.xm'") _ eq_refl).
    + unfold run. now destruct (real_main _ _ _ _).
    + vm_compute. reflexivity.
Defined.

(** C9: each of the four Logos extensions has exactly one target in the
    table, [.x] and [.xi] go to [.m] and [.xm] and [.xmi] to [.mm]; an
    argument with any other extension is not taken for a source file by
    [get_logos_path], and the loop hands it on as it is without opening a
    file or changing the world; in a whole formatting run the program
    never creates, opens or copies a file with another extension outside
    its workspace, so no such file is given to a transform. *)
Theorem C9_extension_mapping :
  Forall (fun e => exists t,
                     logos_extensions_to_normal_extensions !! e = Some t /\
                     (t = ".m" \/ t = ".mm") /\
                     forall t', logos_extensions_to_normal_extensions !! e
                                = Some t' -> t' = t)
         logos_extensions /\
  map (fun e => logos_extensions_to_normal_extensions !! e) logos_extensions
  = [Some ".m"; Some ".m"; Some ".mm"; Some ".mm"] /\
  (forall env arg w,
      in_tuple (path_ext arg) logos_extensions = false ->
      get_logos_path env arg w = (Ok None, w) /\
      forall d in_place save_temps st,
        classify_and_transform env d in_place save_temps st arg w
        = (Ok (mkSession (new_cf_args st ++ [arg])
                         (tmp_norm_to_tmp_logos st)
                         (tmp_logos_to_orig_logos st)), w)) /\
  (forall env a args w r w' arg,
      ns_version a = false ->
      w_trace w = [] ->
      real_main env a args w = (r, w') ->
      in_tuple (path_ext arg) logos_extensions = false ->
      under (workspace env w) arg = false ->
      ~ In arg (touched (w_trace w'))).
Proof.
  split; [| split; [| split]].
  - repeat constructor;
      (eexists; split; [vm_compute; reflexivity |]; split; [tauto |]);
      intros t' H; vm_compute in H; congruence.
  - vm_compute. reflexivity.
  - intros env arg w Hext.
    assert (Hpath : get_logos_path env arg w = (Ok None, w)).
    { rewrite get_logos_path_unfold. unfold recognized.
      now rewrite Hext, andb_false_r. }
    split; [exact Hpath |]. intros d in_place save_temps st.
    unfold classify_and_transform, bind. now rewrite Hpath.
  - intros env a args w r w' arg Hv Htr Hrun Hext Hunder Hin.
    destruct (real_main_run env a args w r w' Hv Hrun)
      as (w2 & evs & Hsteps & _ & Hcases).
    destruct Hsteps as (_ & _ & evs2 & Htr2 & _ & _ & Hok2).
    rewrite Htr in Htr2. cbn [app] in Htr2.
    set (d := workspace env w) in *.
    assert (Hno : forall tr, Forall (fun q => okpath d q = true) (touched tr) ->
                             ~ In arg (touched tr)).
    { intros tr Hall Harg.
      pose proof (proj1 (List.Forall_forall _ _) Hall arg Harg) as H.
      unfold okpath in H. now rewrite Hunder, Hext in H. }
    destruct Hcases as [(msg & arg' & -> & _ & _ & ->)
                       | (st & w3 & _ & Hsess & _ & Hfmt & ->)].
    + destruct (cleanup_trace (ns_save_logos_temps a) d w2)
        as (evc & Hc & _ & _ & Htc).
      rewrite Hc, Htr2, touched_app, Htc, app_nil_r in Hin.
      exact (Hno evs2 Hok2 Hin).
    + apply (run_clang_format_spec env d) in Hfmt
        as (evs3 & Htr3 & _ & Hok3 & _); [| exact Hsess].
      destruct (cleanup_trace (ns_save_logos_temps a) d w3)
        as (evc & Hc & _ & _ & Htc).
      rewrite Hc, Htr3, Htr2, !touched_app, Htc, app_nil_r in Hin.
      cbn [touched] in Hin. apply in_app_or in Hin as [Hin | Hin].
      * exact (Hno evs2 Hok2 Hin).
      * exact (Hno evs3 Hok3 Hin).
Qed.

Lemma C9_extension_mapping_witness :
  get_logos_path (sample_env true (Exited 0 "")) "Tweak.h"
                 (mkWorld (<["Tweak.h" := "int x;"]> sample_files) 0 "" [])
  = (Ok None, mkWorld (<["Tweak.h" := "int x;"]> sample_files) 0 "" []) /\
  ~ In "Tweak.h"
       (touched (w_trace (real_main (sample_env true (Exited 0 ""))
                            in_place_args ["Tweak.h"; "Tweak.xm"]
                            (mkWorld (<["Tweak.h" := "int x;"]> sample_files)
                                     0 "" [])).2)).
Proof.
  split.
  - apply (proj1 (proj2 (proj2 C9_extension_mapping))). vm_compute. reflexivity.
  - set (env := sample_env true (Exited 0 "")).
    set (w := mkWorld (<["Tweak.h" := "int x;"]> sample_files) 0 "" []).
    set (run := real_main env in_place_args ["Tweak.h"; "Tweak.xm"] w).
    refine (proj2 (proj2 (proj2 C9_extension_mapping)) env in_place_args
                  ["Tweak.h"; "Tweak.xm"] w run.1 run.2 "Tweak.h"
                  eq_refl eq_refl _ _ _).
    + unfold run. now destruct (real_main _ _ _ _).
    + vm_compute. reflexivity.
    + vm_compute. reflexivity.
Defined.

(** * Further properties of the program *)

(** * More about the line transforms *)

(** ** No directive is left behind *)

Lemma is_lower_word c : is_lower c = true -> is_word c = true.
Proof.
  destruct c as [[|] [|] [|] [|] [|] [|] [|] [|]]; intros H;
    try discriminate H; reflexivity.
Qed.

Lemma word_ahead_lower a v s :
  lower (String a v) = true -> word_ahead (String a v +:+ s) = true.
Proof.
  unfold lower. cbn [all_chars String.append word_ahead]. intros H.
  apply andb_prop in H as [H _]. now apply is_lower_word.
Qed.

(** The substitution does not change whether a word character comes
    first: it only replaces a [%] by an [@]. *)
Lemma word_ahead_re_sub p s :
  word_ahead (re_sub p marker s) = word_ahead s.
Proof.
  destruct s as [|c s]; [reflexivity |].
  destruct (match_at p (String c s)) eqn:Hm.
  - rewrite re_sub_hit by exact Hm.
    unfold match_at in Hm. apply andb_prop in Hm as [Hm _].
    apply andb_prop in Hm as [Hc _]. apply Ascii.eqb_eq in Hc as ->.
    reflexivity.
  - rewrite re_sub_miss by exact Hm. reflexivity.
Qed.

(** Whether a pattern matches at a character is not changed by a
    substitution in the text after that character. *)
Lemma match_at_re_sub_tail p q c s :
  lower (pat_name q) = true ->
  match_at q (String c (re_sub p marker s)) = match_at q (String c s).
Proof.
  intros Hq. unfold match_at.
  rewrite (startswith_re_sub "logosformat")
    by auto using lower_free_pct, lower_free_at.
  destruct (startswith (pat_name q) s) eqn:Hs;
    [| now rewrite !andb_false_r].
  apply startswith_split in Hs. rewrite Hs at 1.
  rewrite re_sub_skip_clean by auto using lower_free_pct.
  rewrite drop_str_app. unfold word_boundary.
  now rewrite word_ahead_re_sub.
Qed.

(** Two names that match at the same place, each up to a word boundary,
    are the same name. *)
Lemma names_agree np : forall nq s c1 c2,
  lower np = true -> lower nq = true ->
  is_word c1 = true -> is_word c2 = true ->
  startswith np s = true -> startswith nq s = true ->
  word_boundary (last_char c1 np) (drop_str (String.length np) s) = true ->
  word_boundary (last_char c2 nq) (drop_str (String.length nq) s) = true ->
  np = nq.
Proof.
  induction np as [|a np IH]; intros [|b nq] s c1 c2 Hp Hq H1 H2 Sp Sq Bp Bq.
  - reflexivity.
  - exfalso. apply startswith_split in Sq. rewrite Sq in Bp.
    cbn [last_char String.length drop_str] in Bp. unfold word_boundary in Bp.
    rewrite H1, (word_ahead_lower _ _ _ Hq) in Bp. discriminate Bp.
  - exfalso. apply startswith_split in Sp. rewrite Sp in Bq.
    cbn [last_char String.length drop_str] in Bq. unfold word_boundary in Bq.
    rewrite H2, (word_ahead_lower _ _ _ Hp) in Bq. discriminate Bq.
  - destruct s as [|x s]; [discriminate Sp |].
    rewrite startswith_cons in Sp, Sq.
    apply andb_prop in Sp as [Ea Sp]. apply andb_prop in Sq as [Eb Sq].
    apply Ascii.eqb_eq in Ea as ->. apply Ascii.eqb_eq in Eb as ->.
    unfold lower in Hp, Hq. cbn [all_chars] in Hp, Hq.
    apply andb_prop in Hp as [Hx Hp]. apply andb_prop in Hq as [_ Hq].
    f_equal. apply (IH nq s x x); auto using is_lower_word.
Qed.

Lemma match_at_exclusive p q s :
  lower (pat_name p) = true -> lower (pat_name q) = true ->
  pat_name p <> "" -> pat_name q <> "" ->
  match_at p s = true -> match_at q s = true -> pat_name p = pat_name q.
Proof.
  intros Hp Hq Np Nq Mp Mq. destruct s as [|c s]; [discriminate Mp |].
  unfold match_at in Mp, Mq.
  apply andb_prop in Mp as [Mp Bp]. apply andb_prop in Mp as [_ Sp].
  apply andb_prop in Mq as [Mq Bq]. apply andb_prop in Mq as [_ Sq].
  destruct (pat_name p) as [|a np] eqn:Ep; [congruence |].
  destruct (pat_name q) as [|b nq] eqn:Eq; [congruence |].
  destruct s as [|x s]; [discriminate Sp |].
  pose proof Sp as Sp'. pose proof Sq as Sq'.
  rewrite startswith_cons in Sp', Sq'.
  apply andb_prop in Sp' as [Ea _]. apply andb_prop in Sq' as [Eb _].
  apply Ascii.eqb_eq in Ea. apply Ascii.eqb_eq in Eb. subst a b.
  assert (Hx : is_word x = true).
  { unfold lower in Hp. cbn [all_chars] in Hp.
    apply andb_prop in Hp as [Hx _]. now apply is_lower_word. }
  rewrite (last_char_cons "%" x) in Bp. rewrite (last_char_cons "%" x) in Bq.
  apply (names_agree (String x np) (String x nq) (String x s) x x); auto.
Qed.

(** After the substitution of a pattern, the pattern matches nowhere. *)
Lemma re_count_re_sub_same p s :
  lower (pat_name p) = true -> re_count p (re_sub p marker s) = 0.
Proof.
  intros Hp. induction s as [|c s IH0 IH] using string_suffix_ind;
    [reflexivity |].
  destruct (match_at p (String c s)) eqn:Hm.
  - rewrite re_sub_hit by exact Hm. rewrite <- app_str_assoc.
    rewrite re_count_skip_clean.
    + cbn [drop_str]. apply IH.
    + rewrite free_of_app. rewrite (lower_free_pct _ Hp). reflexivity.
  - rewrite re_sub_miss by exact Hm.
    rewrite re_count_miss; [exact IH0 |].
    now rewrite match_at_re_sub_tail.
Qed.

(** The substitution of one pattern leaves the matches of a pattern with
    another name as they are. *)
Lemma re_count_re_sub_other p q s :
  lower (pat_name p) = true -> lower (pat_name q) = true ->
  pat_name p <> "" -> pat_name q <> "" -> pat_name p <> pat_name q ->
  re_count q (re_sub p marker s) = re_count q s.
Proof.
  intros Hp Hq Np Nq Hne.
  induction s as [|c s IH0 IH] using string_suffix_ind; [reflexivity |].
  destruct (match_at p (String c s)) eqn:Hm.
  - assert (Hmq : match_at q (String c s) = false).
    { destruct (match_at q (String c s)) eqn:Hmq; [| reflexivity].
      exfalso. apply Hne. eapply match_at_exclusive; eauto. }
    rewrite re_sub_hit by exact Hm. rewrite <- app_str_assoc.
    rewrite re_count_skip_clean
      by (rewrite free_of_app, (lower_free_pct _ Hp); reflexivity).
    cbn [drop_str]. rewrite IH. rewrite (re_count_miss q c s Hmq).
    apply match_at_split in Hm. cbn [drop_str String.append] in Hm.
    injection Hm as _ Hs. rewrite Hs at 2.
    rewrite re_count_skip_clean by auto using lower_free_pct. reflexivity.
  - rewrite re_sub_miss by exact Hm.
    destruct (match_at q (String c s)) eqn:Hmq.
    + rewrite (re_count_hit q (String c s) Hmq).
      rewrite re_count_hit by now rewrite match_at_re_sub_tail.
      f_equal. cbn [drop_str].
      unfold match_at in Hmq. apply andb_prop in Hmq as [Hmq _].
      apply andb_prop in Hmq as [_ Hs]. apply startswith_split in Hs.
      rewrite Hs at 1. rewrite re_sub_skip_clean by auto using lower_free_pct.
      rewrite drop_str_app. apply IH.
    + rewrite (re_count_miss q c s Hmq).
      rewrite re_count_miss by now rewrite match_at_re_sub_tail.
      exact IH0.
Qed.

Lemma token_ok_name t :
  token_ok t = true ->
  lower (pat_name (compile_logos_token_pat t)) = true /\
  pat_name (compile_logos_token_pat t) <> "".
Proof.
  intros H. destruct (token_ok_inv t H) as (a & u & -> & Hl).
  split; [exact Hl | discriminate].
Qed.

Lemma occurrences_sub_token_same t line :
  token_ok t = true -> occurrences t (sub_token line t) = 0.
Proof.
  intros H. apply re_count_re_sub_same. now apply token_ok_name.
Qed.

Lemma occurrences_sub_token_other t u line :
  token_ok t = true -> token_ok u = true -> t <> u ->
  occurrences t (sub_token line u) = occurrences t line.
Proof.
  intros Ht Hu Hne. unfold occurrences, sub_token.
  destruct (token_ok_name t Ht) as [Lt Nt].
  destruct (token_ok_name u Hu) as [Lu Nu].
  apply re_count_re_sub_other; auto.
  destruct (token_ok_inv t Ht) as (a & v & -> & _).
  destruct (token_ok_inv u Hu) as (b & v' & -> & _).
  cbn. congruence.
Qed.

Lemma occurrences_subs_other ts t line :
  tokens_ok ts -> token_ok t = true -> ~ In t ts ->
  occurrences t (subs ts line) = occurrences t line.
Proof.
  intros Hts Ht. revert line.
  induction Hts as [|u ts Hu Hts IH]; intros line Hin; [reflexivity |].
  cbn [subs fold_left]. fold (subs ts (sub_token line u)).
  rewrite IH by (intros H; apply Hin; now right).
  apply occurrences_sub_token_other; auto.
  intros ->. apply Hin. now left.
Qed.

Lemma occurrences_subs ts t line :
  tokens_ok ts -> List.NoDup ts -> In t ts ->
  occurrences t (subs ts line) = 0.
Proof.
  intros Hts Hnd. revert line.
  induction Hts as [|u ts Hu Hts IH]; intros line Hin; [destruct Hin |].
  apply List.NoDup_cons_iff in Hnd as [Hu' Hnd].
  cbn [subs fold_left]. fold (subs ts (sub_token line u)).
  destruct Hin as [-> | Hin].
  - rewrite occurrences_subs_other by auto.
    now apply occurrences_sub_token_same.
  - now apply IH.
Qed.

Lemma catalog_NoDup : List.NoDup catalog.
Proof.
  unfold catalog, filterList, specialFilterList. cbn [app].
  repeat (apply List.NoDup_cons;
          [cbn [In]; intros H;
           repeat (destruct H as [H | H]; [discriminate H |]); exact H |]).
  apply List.NoDup_nil.
Qed.

(** X1: the forward transform leaves no directive behind.  Whatever the
    line, no token of the two catalogs has a word-boundary occurrence in
    the transformed line: the substitution of a token removes all its
    occurrences, creates none, and does not disturb the occurrences of the
    other tokens. *)
Theorem X1_forward_leaves_no_directive line :
  directive_free (logos_to_norm_line line) = true.
Proof.
  unfold directive_free. apply forallb_forall. intros t Ht.
  apply Nat.eqb_eq.
  assert (Hin : In t catalog).
  { apply in_app_or in Ht. apply in_or_app. tauto. }
  pose proof (proj1 (List.Forall_forall _ _) catalog_ok t Hin) as Hok.
  rewrite logos_to_norm_line_shape, subs_catalog.
  rewrite occurrences_app_seps by (auto; apply seps_semis).
  apply occurrences_subs; auto using catalog_ok, catalog_NoDup.
Qed.

(** ** The forward transform loses nothing *)

Lemma length_app_str a b :
  String.length (a +:+ b) = String.length a + String.length b.
Proof. induction a as [|x a IH]; cbn; [reflexivity | now rewrite IH]. Qed.

Lemma app_str_inv_tail c : forall a b, a +:+ c = b +:+ c -> a = b.
Proof.
  induction a as [|x a IH]; intros [|y b] H.
  - reflexivity.
  - apply (f_equal String.length) in H. cbn in H.
    rewrite length_app_str in H. lia.
  - apply (f_equal String.length) in H. cbn in H.
    rewrite length_app_str in H. lia.
  - cbn in H. injection H as -> H. f_equal. now apply IH.
Qed.

Lemma fired_app_seps ts : forall x y,
  tokens_ok ts -> seps y = true -> fired ts (x +:+ y) = fired ts x.
Proof.
  induction ts as [|t ts IH]; intros x y Hts Hy; [reflexivity |].
  apply Forall_cons in Hts as [Ht Hts]. cbn [fired].
  rewrite contains_token_app_seps, sub_token_app_seps by auto.
  now rewrite IH.
Qed.

(** The number of terminators the forward transform appends. *)
Lemma appended_app_seps x y :
  seps y = true ->
  fired specialFilterList (after_filter (x +:+ y)) =
  fired specialFilterList (after_filter x).
Proof.
  intros Hy. rewrite !after_filter_subs.
  rewrite subs_app_seps by (apply filterList_ok || exact Hy).
  apply fired_app_seps; [apply specialFilterList_ok | exact Hy].
Qed.

(** Undoing the markers of a transformed line gives the line back,
    followed by the terminators that were appended. *)
Lemma replace_forward line :
  str_replace marker "%" (logos_to_norm_line line) =
  str_replace marker "%" line +:+
  semis (fired specialFilterList (after_filter line)).
Proof.
  rewrite logos_to_norm_line_shape, subs_catalog.
  rewrite replace_marker_app_seps by apply seps_semis.
  now rewrite subs_replace by apply catalog_ok.
Qed.

Lemma forward_injective_le l1 l2 :
  contains marker l1 = false -> contains marker l2 = false ->
  fired specialFilterList (after_filter l1) <=
  fired specialFilterList (after_filter l2) ->
  logos_to_norm_line l1 = logos_to_norm_line l2 -> l1 = l2.
Proof.
  intros H1 H2 Hle Heq.
  apply (f_equal (str_replace marker "%")) in Heq.
  rewrite !replace_forward in Heq.
  rewrite (str_replace_absent _ _ _ H1), (str_replace_absent _ _ _ H2) in Heq.
  set (k1 := fired specialFilterList (after_filter l1)) in *.
  set (k2 := fired specialFilterList (after_filter l2)) in *.
  replace k2 with ((k2 - k1) + k1) in Heq by lia.
  rewrite <- semis_app, <- app_str_assoc in Heq.
  apply app_str_inv_tail in Heq.
  assert (Hk : k1 = k2).
  { unfold k1 at 1. rewrite Heq.
    now rewrite appended_app_seps by apply seps_semis. }
  rewrite Heq. replace (k2 - k1) with 0 by lia. apply app_str_nil_r.
Qed.

(** X2: the forward transform loses nothing.  Two different lines that
    hold no marker text are transformed to two different lines. *)
Theorem X2_forward_keeps_lines_apart l1 l2 :
  contains marker l1 = false -> contains marker l2 = false ->
  l1 <> l2 -> logos_to_norm_line l1 <> logos_to_norm_line l2.
Proof.
  intros H1 H2 Hne Heq. apply Hne.
  destruct (Nat.le_ge_cases (fired specialFilterList (after_filter l1))
                            (fired specialFilterList (after_filter l2))).
  - now apply forward_injective_le.
  - symmetry. now apply forward_injective_le.
Qed.

Lemma X2_forward_keeps_lines_apart_witness :
  logos_to_norm_line ("%hook A" +:+ nl) <>
  logos_to_norm_line ("%hook A" +:+ nl +:+ ";").
Proof.
  apply X2_forward_keeps_lines_apart;
    [vm_compute; reflexivity | vm_compute; reflexivity | discriminate].
Defined.

(** ** The round trip of any line without marker *)

Lemma str_replace_char_app c new a b :
  str_replace (String c "") new (a +:+ b) =
  str_replace (String c "") new a +:+ str_replace (String c "") new b.
Proof.
  induction a as [|x a IH]; [reflexivity |]. cbn [String.append].
  destruct (Ascii.eqb c x) eqn:Hc.
  - rewrite !(str_replace_hit (String c "") new (String x _))
      by (discriminate || (rewrite startswith_cons, Hc; reflexivity)).
    cbn [String.length drop_str]. rewrite IH. now rewrite app_str_assoc.
  - rewrite !(str_replace_miss (String c "") new x)
      by (rewrite startswith_cons, Hc; reflexivity).
    cbn [String.append]. now rewrite IH.
Qed.

Lemma strip_app_semis line k :
  str_replace ";" "" (line +:+ semis k) = str_replace ";" "" line.
Proof.
  rewrite str_replace_char_app, strip_semis. apply app_str_nil_r.
Qed.

Lemma directive_free_catalog line :
  directive_free line = true <->
  forall t, In t catalog -> occurrences t line = 0.
Proof.
  unfold directive_free. rewrite forallb_forall. split.
  - intros H t Ht. apply Nat.eqb_eq, H.
    apply in_app_or in Ht. apply in_or_app. tauto.
  - intros H t Ht. apply Nat.eqb_eq, H.
    apply in_app_or in Ht. apply in_or_app. tauto.
Qed.

Lemma directive_found line :
  directive_free line = false ->
  exists t, In t catalog /\ occurrences t line <> 0.
Proof.
  intros H.
  destruct (List.Exists_dec (fun t => occurrences t line <> 0) catalog)
    as [He | Hn].
  - intros t. destruct (Nat.eq_dec (occurrences t line) 0); [right | left]; lia.
  - apply List.Exists_exists in He. exact He.
  - exfalso. apply not_true_iff_false in H. apply H.
    apply directive_free_catalog. intros t Ht.
    destruct (Nat.eq_dec (occurrences t line) 0) as [| Hne]; [assumption |].
    exfalso. apply Hn, List.Exists_exists. eauto.
Qed.

(** The loop bodies one after the other, on any line that holds no marker
    text.  When the line has no word-boundary occurrence of a catalog
    directive, the result is the line followed by one terminator for each
    terminated name that occurs in it as part of a longer word.  Otherwise
    the result is the line without any of its terminators when some
    terminated name occurs in it as a substring, and the line itself when
    none does. *)
Lemma line_roundtrip_law line :
  contains marker line = false ->
  roundtrip line =
  if directive_free line
  then line +:+ semis (length (special_names_in line))
  else if existsb (fun t => contains t line) specialFilterList
       then str_replace ";" "" line
       else line.
Proof.
  intros Hm. rewrite roundtrip_cases by exact Hm. cbv zeta.
  destruct (directive_free line) eqn:Hfree.
  - pose proof (proj1 (directive_free_catalog line) Hfree) as Hocc.
    rewrite (subs_id catalog line Hocc), Hm.
    rewrite after_filter_subs, subs_id
      by (intros t Ht; apply Hocc, in_or_app; now left).
    rewrite fired_count
      by (apply specialFilterList_ok || apply specialFilterList_initials).
    reflexivity.
  - destruct (directive_found line Hfree) as (t & Ht & Hocc).
    rewrite (subs_writes_marker line t Hm Ht Hocc).
    destruct (existsb _ specialFilterList) eqn:He.
    + apply strip_app_semis.
    + rewrite fired_none; [apply app_str_nil_r | apply specialFilterList_ok |].
      intros u Hu.
      destruct (contains u (after_filter line)) eqn:Hc; [| reflexivity].
      rewrite after_filter_subs in Hc.
      apply subs_contains_inv in Hc;
        [| apply filterList_ok
         | exact (proj1 (List.Forall_forall _ _) specialFilterList_ok u Hu)].
      rewrite <- He. symmetry. apply existsb_exists. eauto.
Qed.

(** * The transforms on whole texts *)

Lemma startswith_app_r p a b :
  startswith p a = true -> startswith p (a +:+ b) = true.
Proof.
  revert a. induction p as [|x p IH]; intros [|y a] H;
    [reflexivity | reflexivity | discriminate H |].
  cbn [String.append]. rewrite startswith_cons in H |- *.
  apply andb_prop in H as [-> H]. now rewrite IH.
Qed.

Lemma contains_app_r p a b :
  contains p a = true -> contains p (a +:+ b) = true.
Proof.
  induction a as [|x a IH]; intros H.
  - cbn [contains] in H. rewrite orb_false_r in H.
    destruct p; [| discriminate H]. cbn [String.append].
    apply contains_startswith, startswith_nil.
  - cbn [String.append]. rewrite contains_cons in H |- *.
    apply orb_prop in H as [H | H].
    + pose proof (startswith_app_r p (String x a) b H) as H'.
      cbn [String.append] in H'. now rewrite H'.
    + rewrite (IH H). apply orb_true_r.
Qed.

Lemma write_all_cons l ls : write_all (l :: ls) = l +:+ write_all ls.
Proof. reflexivity. Qed.

Lemma write_all_app ls1 ls2 :
  write_all (ls1 ++ ls2) = write_all ls1 +:+ write_all ls2.
Proof.
  induction ls1 as [|l ls1 IH]; [reflexivity |].
  cbn [app]. now rewrite !write_all_cons, IH, app_str_assoc.
Qed.

Lemma contains_write_all p l ls :
  In l ls -> contains p l = true -> contains p (write_all ls) = true.
Proof.
  induction ls as [|l' ls IH]; [intros [] |].
  intros [-> | Hin] Hc; rewrite write_all_cons.
  - now apply contains_app_r.
  - apply contains_app_l. now apply IH.
Qed.

(** What occurs in a line of a text occurs in the text. *)
Lemma contains_readlines p s l :
  In l (readlines s) -> contains p l = true -> contains p s = true.
Proof.
  intros Hin Hc. rewrite <- (write_all_readlines s).
  eapply contains_write_all; eauto.
Qed.

Lemma write_all_map_id (f : string -> string) ls :
  (forall l, In l ls -> f l = l) -> write_all (map f ls) = write_all ls.
Proof.
  intros H. f_equal. rewrite <- (map_id ls) at 2.
  apply map_ext_in. exact H.
Qed.

(** A line in which no catalog token occurs, even as part of a longer
    word, is left as it is by the forward transform. *)
Lemma logos_to_norm_line_plain line :
  (forall t, In t catalog -> contains t line = false) ->
  logos_to_norm_line line = line.
Proof.
  intros H.
  assert (Hocc : forall t, In t catalog -> occurrences t line = 0).
  { intros t Ht.
    pose proof (proj1 (List.Forall_forall _ _) catalog_ok t Ht) as Hok.
    destruct (Nat.eq_dec (occurrences t line) 0) as [| Hne]; [assumption |].
    apply occurrences_contains in Hne; [| exact Hok].
    now rewrite (H t Ht) in Hne. }
  rewrite logos_to_norm_line_shape, subs_catalog, (subs_id catalog line Hocc).
  rewrite after_filter_subs, subs_id
    by (intros t Ht; apply Hocc, in_or_app; now left).
  rewrite fired_none; [apply app_str_nil_r | apply specialFilterList_ok |].
  intros t Ht. apply H, in_or_app. now right.
Qed.

(** A text in which no catalog token occurs is left as it is by the
    forward transform, and a text without marker by the reverse one. *)
Lemma logos_to_norm_plain text :
  (forall t, In t catalog -> contains t text = false) ->
  logos_to_norm text = text.
Proof.
  intros H. unfold logos_to_norm. rewrite write_all_map_id;
    [apply write_all_readlines |].
  intros l Hl. apply logos_to_norm_line_plain. intros t Ht.
  destruct (contains t l) eqn:Hc; [| reflexivity].
  rewrite <- (H t Ht). symmetry. eapply contains_readlines; eauto.
Qed.

Lemma norm_to_logos_plain text :
  contains marker text = false -> norm_to_logos text = text.
Proof.
  intros H. unfold norm_to_logos. rewrite write_all_map_id;
    [apply write_all_readlines |].
  intros l Hl. unfold norm_to_logos_line.
  destruct (contains marker l) eqn:Hc; [| reflexivity].
  rewrite (contains_readlines marker text l Hl Hc) in H. discriminate H.
Qed.

(** X5: [logos_to_norm] writes a text in which no catalog token occurs,
    even as part of a longer word, as it is; [norm_to_logos] writes a text
    without marker text as it is. *)
Theorem X5_texts_pass_through text :
  ((forall t, In t catalog -> contains t text = false) ->
   logos_to_norm text = text) /\
  (contains marker text = false -> norm_to_logos text = text).
Proof.
  split; [apply logos_to_norm_plain | apply norm_to_logos_plain].
Qed.

Lemma X5_texts_pass_through_witness :
  let text := "#import <UIKit/UIKit.h>" +:+ nl +:+
              "int percent = 100 % count;" +:+ nl in
  logos_to_norm text = text /\ norm_to_logos text = text.
Proof.
  intros text. split.
  - apply (proj1 (X5_texts_pass_through text)).
    intros t Ht. unfold catalog, filterList, specialFilterList in Ht.
    cbn [app In] in Ht.
    repeat (destruct Ht as [<- | Ht]; [vm_compute; reflexivity |]).
    destruct Ht.
  - apply (proj2 (X5_texts_pass_through text)). vm_compute. reflexivity.
Defined.

(** ** The transforms work line by line *)

Lemma readlines_nil s : readlines s = [] -> s = "".
Proof.
  intros H. rewrite <- (write_all_readlines s), H. reflexivity.
Qed.

Lemma readlines_app_nl a b :
  readlines ((a +:+ nl) +:+ b) = readlines (a +:+ nl) ++ readlines b.
Proof.
  induction a as [|c a IH]; [reflexivity |].
  cbn [String.append readlines]. rewrite IH.
  destruct (Ascii.eqb c "010"); [reflexivity |].
  destruct (readlines (a +:+ nl)) as [|l ls] eqn:Hl; [| reflexivity].
  apply readlines_nil in Hl. destruct a; discriminate Hl.
Qed.

Lemma logos_to_norm_app_nl a b :
  logos_to_norm ((a +:+ nl) +:+ b)
  = logos_to_norm (a +:+ nl) +:+ logos_to_norm b.
Proof.
  unfold logos_to_norm.
  now rewrite readlines_app_nl, !map_app, !write_all_app.
Qed.

Lemma norm_to_logos_app_nl a b :
  norm_to_logos ((a +:+ nl) +:+ b)
  = norm_to_logos (a +:+ nl) +:+ norm_to_logos b.
Proof.
  unfold norm_to_logos.
  now rewrite readlines_app_nl, !map_app, !write_all_app.
Qed.

(** X6: both transforms work line by line.  The transform of a text that
    consists of a part ending in a newline and of a rest is the transform
    of the part followed by the transform of the rest. *)
Theorem X6_transforms_go_line_by_line a b :
  logos_to_norm ((a +:+ nl) +:+ b)
  = logos_to_norm (a +:+ nl) +:+ logos_to_norm b /\
  norm_to_logos ((a +:+ nl) +:+ b)
  = norm_to_logos (a +:+ nl) +:+ norm_to_logos b.
Proof.
  split; [apply logos_to_norm_app_nl | apply norm_to_logos_app_nl].
Qed.

(** ** The reverse transform of a transformed text *)

Lemma free_of_drop c n s : free_of c s = true -> free_of c (drop_str n s) = true.
Proof.
  revert s. induction n as [|n IH]; intros [|x s] H; try exact H.
  cbn [drop_str]. rewrite free_of_cons in H.
  apply andb_prop in H as [_ H]. now apply IH.
Qed.

Lemma lower_free_nl v : lower v = true -> free_of "010" v = true.
Proof.
  apply all_chars_impl. intros c H.
  destruct c as [[|] [|] [|] [|] [|] [|] [|] [|]];
    try discriminate H; reflexivity.
Qed.

(** The substitution writes no newline. *)
Lemma re_sub_free_nl p s :
  lower (pat_name p) = true ->
  free_of "010" s = true -> free_of "010" (re_sub p marker s) = true.
Proof.
  intros Hp. induction s as [|c s IH0 IH] using string_suffix_ind;
    [reflexivity |].
  intros H. destruct (match_at p (String c s)) eqn:Hm.
  - rewrite re_sub_hit by exact Hm.
    rewrite !free_of_app, (lower_free_nl _ Hp). cbn [drop_str].
    rewrite IH; [reflexivity |]. apply free_of_drop.
    rewrite free_of_cons in H. now apply andb_prop in H as [_ H].
  - rewrite re_sub_miss by exact Hm. rewrite free_of_cons in H |- *.
    apply andb_prop in H as [-> H]. now rewrite IH0.
Qed.

Lemma subs_free_nl ts : forall s,
  tokens_ok ts -> free_of "010" s = true -> free_of "010" (subs ts s) = true.
Proof.
  induction ts as [|t ts IH]; intros s Hts H; [exact H |].
  apply Forall_cons in Hts as [Ht Hts].
  cbn [subs fold_left]. fold (subs ts (sub_token s t)).
  apply IH; [exact Hts |]. apply re_sub_free_nl; [| exact H].
  now apply token_ok_name.
Qed.

Lemma readlines_single a :
  free_of "010" a = true -> a <> "" -> readlines a = [a].
Proof.
  induction a as [|c a IH]; [congruence |]. intros H _.
  rewrite free_of_cons in H. apply andb_prop in H as [Hc H].
  apply negb_true_iff in Hc. cbn [readlines]. rewrite Hc.
  destruct a as [|c' a]; [reflexivity |].
  rewrite IH by (exact H || discriminate). reflexivity.
Qed.

(** On a text without newline the text transforms are the line
    transforms. *)
Lemma logos_to_norm_single a :
  free_of "010" a = true -> logos_to_norm a = logos_to_norm_line a.
Proof.
  intros H. destruct a as [|c a]; [reflexivity |].
  unfold logos_to_norm. rewrite readlines_single by (exact H || discriminate).
  cbn [map write_all fold_right]. apply app_str_nil_r.
Qed.

Lemma norm_to_logos_single a :
  free_of "010" a = true -> norm_to_logos a = norm_to_logos_line a.
Proof.
  intros H. destruct a as [|c a]; [reflexivity |].
  unfold norm_to_logos. rewrite readlines_single by (exact H || discriminate).
  cbn [map write_all fold_right]. apply app_str_nil_r.
Qed.

Lemma semis_free_nl k : free_of "010" (semis k) = true.
Proof. induction k as [|k IH]; [reflexivity |]. cbn [semis]. now rewrite free_of_cons, IH. Qed.

Lemma logos_to_norm_line_free_nl line :
  free_of "010" line = true -> free_of "010" (logos_to_norm_line line) = true.
Proof.
  intros H. rewrite logos_to_norm_line_shape, subs_catalog, free_of_app.
  rewrite subs_free_nl by (apply catalog_ok || exact H).
  apply semis_free_nl.
Qed.

(** On a text that is one line without newline, [norm_to_logos] after
    [logos_to_norm] is the one loop body after the other: what the first
    appends stays in the line the second reads. *)
Lemma text_round_trip_single line :
  free_of "010" line = true ->
  norm_to_logos (logos_to_norm line) = roundtrip line.
Proof.
  intros H. rewrite logos_to_norm_single by exact H.
  rewrite norm_to_logos_single by now apply logos_to_norm_line_free_nl.
  reflexivity.
Qed.

(** X3: [norm_to_logos] applied to what [logos_to_norm] wrote, on a text
    that is one line without newline (the last line of a file that does not
    end with one) and holds no marker text.  When the line has no
    word-boundary occurrence of a catalog directive, the result is the
    line followed by one terminator for each terminated name that occurs
    in it as part of a longer word.  Otherwise the result is the line
    without any of its terminators when some terminated name occurs in it
    as a substring, and the line itself when none does. *)
Theorem X3_roundtrip_law line :
  free_of "010" line = true ->
  contains marker line = false ->
  norm_to_logos (logos_to_norm line) =
  if directive_free line
  then line +:+ semis (length (special_names_in line))
  else if existsb (fun t => contains t line) specialFilterList
       then str_replace ";" "" line
       else line.
Proof.
  intros Hnl Hm. rewrite text_round_trip_single by exact Hnl.
  now apply line_roundtrip_law.
Qed.

Lemma X3_roundtrip_law_witness :
  norm_to_logos (logos_to_norm "%new - (void)reload; // added")
  = "%new - (void)reload // added".
Proof.
  rewrite (X3_roundtrip_law "%new - (void)reload; // added");
    vm_compute; reflexivity.
Defined.

Lemma forward_line_nl body :
  logos_to_norm_line (body +:+ nl) =
  (subs catalog body +:+ nl) +:+
  semis (fired specialFilterList (after_filter (body +:+ nl))).
Proof.
  rewrite logos_to_norm_line_shape, subs_catalog.
  now rewrite subs_app_seps by (apply catalog_ok || reflexivity).
Qed.

Lemma contains_marker_semis k : contains marker (semis k) = false.
Proof.
  apply contains_seps; [discriminate | reflexivity | apply seps_semis].
Qed.

(** The text-level round trip of one newline-terminated line: the reverse
    transform reads the appended terminators as a line of their own. *)
Lemma text_round_trip_line body :
  free_of "010" body = true ->
  norm_to_logos (logos_to_norm (body +:+ nl)) =
  norm_to_logos_line (subs catalog (body +:+ nl)) +:+
  semis (fired specialFilterList (after_filter (body +:+ nl))).
Proof.
  intros Hb. rewrite logos_to_norm_one_line by exact Hb.
  rewrite forward_line_nl.
  rewrite norm_to_logos_app_nl.
  rewrite norm_to_logos_one_line
    by (apply subs_free_nl; [apply catalog_ok | exact Hb]).
  rewrite (norm_to_logos_plain (semis _)) by apply contains_marker_semis.
  now rewrite subs_app_seps by (apply catalog_ok || reflexivity).
Qed.

Lemma contains_app_false p a b :
  contains p (a +:+ b) = false ->
  contains p a = false /\ contains p b = false.
Proof.
  intros H. split.
  - destruct (contains p a) eqn:Ha; [| reflexivity].
    now rewrite (contains_app_r p a b Ha) in H.
  - destruct (contains p b) eqn:Hb; [| reflexivity].
    now rewrite (contains_app_l p a b Hb) in H.
Qed.

(** The reverse transform of a line whose tokens were substituted. *)
Lemma reverse_of_subs line :
  contains marker line = false ->
  norm_to_logos_line (subs catalog line) =
  if negb (directive_free line) &&
     existsb (fun t => contains t line) specialFilterList
  then str_replace ";" "" line
  else line.
Proof.
  intros Hm. unfold norm_to_logos_line.
  destruct (directive_free line) eqn:Hfree; cbn [negb andb].
  - rewrite (subs_id catalog line)
      by now apply directive_free_catalog.
    now rewrite Hm.
  - destruct (directive_found line Hfree) as (t & Ht & Hocc).
    rewrite (subs_writes_marker line t Hm Ht Hocc).
    rewrite subs_replace by apply catalog_ok.
    now rewrite (str_replace_absent marker "%" line Hm).
Qed.

Lemma special_occurrence_fires line :
  special_occurrences line <> 0 ->
  fired specialFilterList (after_filter line) <> 0.
Proof.
  intros H. destruct (special_occurrences_pos line H) as (t & Ht & Hocc).
  pose proof (proj1 (List.Forall_forall _ _) specialFilterList_ok t Ht) as Hok.
  rewrite fired_count
    by (apply specialFilterList_ok || apply specialFilterList_initials).
  assert (Hc : contains t (after_filter line) = true).
  { apply occurrences_contains; [exact Hok |].
    rewrite after_filter_subs, occurrences_subs_other;
      [exact Hocc | apply filterList_ok | exact Hok |].
    intros Hin. revert Ht Hin. unfold specialFilterList, filterList.
    cbn [In]. intros Ht Hin.
    repeat (destruct Ht as [<- | Ht];
            [repeat (destruct Hin as [Hin | Hin]; [discriminate Hin |]);
             exact Hin |]).
    exact Ht. }
  assert (Hin : In t (List.filter (fun t => contains t (after_filter line))
                                  specialFilterList)).
  { apply filter_In. auto. }
  destruct (List.filter _ specialFilterList); [destruct Hin | discriminate].
Qed.

Lemma last_char_semis c k : k <> 0 -> last_char c (semis k) = ";"%char.
Proof.
  revert c. induction k as [|k IH]; intros c H; [congruence |].
  cbn [semis last_char]. destruct k; [reflexivity |]. now apply IH.
Qed.

(** ** The terminator round trip

    Here the reverse transform is applied to what the forward transform
    wrote, as the program does it: [logos_to_norm] writes the text that
    [norm_to_logos] reads line by line. *)

(** C7, as stated, fails.  The first line holds exactly one terminated
    token and no terminator, and ends with a newline: the terminator that
    [logos_to_norm] appends comes after the newline, [norm_to_logos] reads
    it as a line of its own and leaves it.  The second line holds marker
    text besides its one terminated token, and [norm_to_logos] rewrites
    it. *)
Lemma C7_counterexample :
  (let line := "%hook SpringBoard" +:+ nl in
   special_occurrences line = 1 /\ contains ";" line = false /\
   logos_to_norm line = "@logosformathook SpringBoard" +:+ nl +:+ ";" /\
   norm_to_logos (logos_to_norm line) = "%hook SpringBoard" +:+ nl +:+ ";" /\
   norm_to_logos (logos_to_norm line) <> line) /\
  (let line := "%hook Foo // see @logosformat" in
   special_occurrences line = 1 /\ contains ";" line = false /\
   norm_to_logos (logos_to_norm line) = "%hook Foo // see %" /\
   norm_to_logos (logos_to_norm line) <> line).
Proof.
  repeat split; try (vm_compute; reflexivity);
    intros H; vm_compute in H; discriminate H.
Qed.

(** C7, amended: take a line with exactly one word-boundary occurrence of
    a terminated token, no terminator character and no marker text.  When
    the line has no trailing newline, [norm_to_logos] applied to what
    [logos_to_norm] wrote for it is the original line.  When the line ends
    with its newline, the result is the line followed by the terminators
    that [logos_to_norm] appended, one for each terminated name spelled in
    the line after the first loop; they come after the newline, and the
    line is not reproduced. *)
Theorem C7_terminator_round_trip line :
  special_occurrences line = 1 ->
  contains ";" line = false ->
  contains marker line = false ->
  (free_of "010" line = true -> norm_to_logos (logos_to_norm line) = line) /\
  (forall body, line = body +:+ nl -> free_of "010" body = true ->
     norm_to_logos (logos_to_norm line) =
       line +:+ semis (length (special_names_in (after_filter line))) /\
     special_names_in (after_filter line) <> [] /\
     norm_to_logos (logos_to_norm line) <> line).
Proof.
  intros Hone Hsemi Hm.
  assert (Hocc : special_occurrences line <> 0) by (rewrite Hone; discriminate).
  split.
  - intros Hnl. rewrite text_round_trip_single by exact Hnl.
    now apply roundtrip_terminated.
  - intros body -> Hb.
    assert (Heq : norm_to_logos (logos_to_norm (body +:+ nl)) =
                  (body +:+ nl) +:+
                  semis (fired specialFilterList (after_filter (body +:+ nl)))).
    { rewrite text_round_trip_line, reverse_of_subs by assumption.
      destruct (_ && _); [| reflexivity].
      now rewrite (str_replace_absent ";" "" _ Hsemi). }
    pose proof (special_occurrence_fires _ Hocc) as Hf.
    split; [| split].
    + rewrite Heq. unfold special_names_in.
      now rewrite fired_count
        by (apply specialFilterList_ok || apply specialFilterList_initials).
    + rewrite fired_count in Hf
        by (apply specialFilterList_ok || apply specialFilterList_initials).
      unfold special_names_in. intros Hnil. now rewrite Hnil in Hf.
    + intros Hfix. rewrite Heq in Hfix.
      apply (f_equal (last_char "a")) in Hfix.
      rewrite last_char_app, last_char_semis in Hfix by exact Hf.
      rewrite last_char_app in Hfix. discriminate Hfix.
Qed.

Lemma C7_terminator_round_trip_witness :
  norm_to_logos (logos_to_norm "%hook SpringBoard") = "%hook SpringBoard" /\
  norm_to_logos (logos_to_norm ("%hook SpringBoard" +:+ nl))
  = ("%hook SpringBoard" +:+ nl) +:+ ";".
Proof.
  split.
  - apply (C7_terminator_round_trip "%hook SpringBoard");
      vm_compute; reflexivity.
  - refine (proj1 (proj2 (C7_terminator_round_trip
                            ("%hook SpringBoard" +:+ nl)
                            ltac:(vm_compute; reflexivity)
                            ltac:(vm_compute; reflexivity)
                            ltac:(vm_compute; reflexivity))
                         "%hook SpringBoard" ltac:(reflexivity)
                         ltac:(reflexivity))).
Defined.

(** X7: [norm_to_logos] applied to what [logos_to_norm] wrote for one
    newline-terminated line without marker text.  The terminators that
    [logos_to_norm] appended come after the newline, so [norm_to_logos]
    reads them as a line of their own and leaves them: the result is the
    line (without its own terminators when a directive was replaced and a
    terminated name occurs in it) followed by the appended terminators.
    A line with a word-boundary occurrence of a terminated token is
    therefore never given back as it was. *)
Theorem X7_text_round_trip_of_a_line body :
  free_of "010" body = true ->
  contains marker body = false ->
  let line := body +:+ nl in
  norm_to_logos (logos_to_norm line) =
    (if negb (directive_free line) &&
        existsb (fun t => contains t line) specialFilterList
     then str_replace ";" "" line
     else line) +:+
    semis (length (special_names_in (after_filter line))) /\
  (special_occurrences line <> 0 -> norm_to_logos (logos_to_norm line) <> line).
Proof.
  intros Hb Hm line.
  assert (Hml : contains marker line = false).
  { unfold line. now rewrite contains_marker_app_seps. }
  assert (Heq : norm_to_logos (logos_to_norm line) =
                norm_to_logos_line (subs catalog line) +:+
                semis (fired specialFilterList (after_filter line)))
    by now apply text_round_trip_line.
  split.
  - rewrite Heq, reverse_of_subs by exact Hml.
    unfold special_names_in.
    now rewrite fired_count
      by (apply specialFilterList_ok || apply specialFilterList_initials).
  - intros Hocc Hfix. apply special_occurrence_fires in Hocc.
    rewrite Heq in Hfix. apply (f_equal (last_char "a")) in Hfix.
    rewrite last_char_app, last_char_semis in Hfix by exact Hocc.
    unfold line in Hfix. rewrite last_char_app in Hfix. discriminate Hfix.
Qed.

Lemma X7_text_round_trip_of_a_line_witness :
  norm_to_logos (logos_to_norm ("%hook -(void)foo;" +:+ nl))
  = "%hook -(void)foo" +:+ nl +:+ ";".
Proof.
  rewrite (proj1 (X7_text_round_trip_of_a_line "%hook -(void)foo;"
                    ltac:(reflexivity) ltac:(vm_compute; reflexivity))).
  vm_compute. reflexivity.
Defined.

(** A text is a line without newline, or a newline-terminated line
    followed by a shorter text. *)
Lemma first_line s :
  free_of "010" s = true \/
  exists a rest, s = (a +:+ nl) +:+ rest /\ free_of "010" a = true /\
                 String.length rest < String.length s.
Proof.
  induction s as [|c s IH]; [now left |].
  destruct (Ascii.eqb c "010") eqn:Hc.
  - right. exists "", s. apply Ascii.eqb_eq in Hc as ->.
    repeat split. cbn. lia.
  - destruct IH as [IH | (a & rest & -> & Ha & Hlen)].
    + left. now rewrite free_of_cons, Hc, IH.
    + right. exists (String c a), rest. repeat split.
      * now rewrite free_of_cons, Hc, Ha.
      * cbn [String.append String.length]. lia.
Qed.

Lemma text_round_trip_plain_aux n : forall text,
  String.length text < n ->
  (forall t, In t specialFilterList -> contains t text = false) ->
  contains marker text = false ->
  norm_to_logos (logos_to_norm text) = text.
Proof.
  induction n as [|n IH]; intros text Hn Hsp Hm; [lia |].
  destruct (first_line text) as [Hfree | (a & rest & -> & Ha & Hlen)].
  - rewrite logos_to_norm_single by exact Hfree.
    assert (Hk : fired specialFilterList (after_filter text) = 0).
    { apply fired_none; [apply specialFilterList_ok |].
      intros t Ht.
      destruct (contains t (after_filter text)) eqn:Hc; [| reflexivity].
      rewrite after_filter_subs in Hc.
      apply subs_contains_inv in Hc;
        [| apply filterList_ok
         | exact (proj1 (List.Forall_forall _ _) specialFilterList_ok t Ht)].
      now rewrite (Hsp t Ht) in Hc. }
    rewrite norm_to_logos_single.
    + now apply roundtrip_without_special_names.
    + rewrite logos_to_norm_line_shape, subs_catalog, Hk.
      cbn [semis]. rewrite app_str_nil_r.
      apply subs_free_nl; [apply catalog_ok | exact Hfree].
  - assert (Hsp1 : forall t, In t specialFilterList ->
                             contains t (a +:+ nl) = false)
      by (intros t Ht; exact (proj1 (contains_app_false _ _ _ (Hsp t Ht)))).
    assert (Hsp2 : forall t, In t specialFilterList ->
                             contains t rest = false)
      by (intros t Ht; exact (proj2 (contains_app_false _ _ _ (Hsp t Ht)))).
    apply contains_app_false in Hm as [Hm1 Hm2].
    assert (Hk : fired specialFilterList (after_filter (a +:+ nl)) = 0).
    { apply fired_none; [apply specialFilterList_ok |].
      intros t Ht.
      destruct (contains t (after_filter (a +:+ nl))) eqn:Hc; [| reflexivity].
      rewrite after_filter_subs in Hc.
      apply subs_contains_inv in Hc;
        [| apply filterList_ok
         | exact (proj1 (List.Forall_forall _ _) specialFilterList_ok t Ht)].
      now rewrite (Hsp1 t Ht) in Hc. }
    rewrite logos_to_norm_app_nl, logos_to_norm_one_line by exact Ha.
    pose proof (roundtrip_without_special_names (a +:+ nl) Hsp1 Hm1) as Hrt.
    rewrite forward_line_nl, Hk in Hrt |- *. cbn [semis] in Hrt |- *.
    rewrite app_str_nil_r in Hrt |- *.
    rewrite norm_to_logos_app_nl, norm_to_logos_one_line
      by (apply subs_free_nl; [apply catalog_ok | exact Ha]).
    rewrite Hrt. f_equal. apply IH; auto.
    lia.
Qed.

(** X8: on a text in which no terminated name occurs, even as part of a
    longer word, and no marker text, [norm_to_logos] undoes
    [logos_to_norm]. *)
Theorem X8_text_round_trip_plain text :
  (forall t, In t specialFilterList -> contains t text = false) ->
  contains marker text = false ->
  norm_to_logos (logos_to_norm text) = text.
Proof. apply (text_round_trip_plain_aux (S (String.length text))). lia. Qed.

Lemma X8_text_round_trip_plain_witness :
  let text := "%ctor {" +:+ nl +:+ "  %init;" +:+ nl +:+ "}" +:+ nl in
  norm_to_logos (logos_to_norm text) = text.
Proof.
  intros text. apply X8_text_round_trip_plain; [| vm_compute; reflexivity].
  intros t Ht. unfold specialFilterList in Ht. cbn [In] in Ht.
  repeat (destruct Ht as [<- | Ht]; [vm_compute; reflexivity |]).
  destruct Ht.
Defined.

(** * Counting *)

(** ** One [%] for each directive *)

Lemma pct_semis k : pct (semis k) = 0.
Proof. induction k as [|k IH]; [reflexivity | exact IH]. Qed.

Lemma subs_pct ts : forall line,
  tokens_ok ts -> List.NoDup ts ->
  pct (subs ts line) + list_sum (map (fun t => occurrences t line) ts)
  = pct line.
Proof.
  induction ts as [|t ts IH]; intros line Hts Hnd; [cbn; lia |].
  apply Forall_cons in Hts as [Ht Hts].
  apply List.NoDup_cons_iff in Hnd as [Hnin Hnd].
  cbn [subs fold_left map list_sum]. fold (subs ts (sub_token line t)).
  pose proof (IH (sub_token line t) Hts Hnd) as H.
  pose proof (sub_token_pct t line Ht) as Hp.
  assert (Hsame : map (fun u => occurrences u (sub_token line t)) ts
                  = map (fun u => occurrences u line) ts).
  { apply map_ext_in. intros u Hu.
    apply occurrences_sub_token_other; auto.
    - exact (proj1 (List.Forall_forall _ _) Hts u Hu).
    - intros ->. contradiction. }
  rewrite Hsame in H. unfold list_sum in *. cbn [fold_right]. lia.
Qed.

(** X4: the forward transform removes one [%] for each word-boundary
    occurrence of a catalog token in the line, and no other [%]. *)
Theorem X4_one_percent_sign_for_each_directive line :
  pct (logos_to_norm_line line)
  + list_sum (map (fun t => occurrences t line) catalog)
  = pct line.
Proof.
  rewrite logos_to_norm_line_shape, subs_catalog, pct_app, pct_semis.
  rewrite Nat.add_0_r. apply subs_pct; [apply catalog_ok | apply catalog_NoDup].
Qed.

(** ** The lines keep their numbers *)

Lemma newlines_app a b : newlines (a +:+ b) = newlines a + newlines b.
Proof.
  induction a as [|c a IH]; [reflexivity |].
  cbn [String.append newlines]. rewrite IH. lia.
Qed.

Lemma newlines_free v : free_of "010" v = true -> newlines v = 0.
Proof.
  induction v as [|c v IH]; [reflexivity |]. rewrite free_of_cons.
  intros H. apply andb_prop in H as [Hc Hv]. apply negb_true_iff in Hc.
  cbn [newlines]. now rewrite Hc, IH.
Qed.

Lemma newlines_drop_prefix v s :
  startswith v s = true ->
  newlines s = newlines v + newlines (drop_str (String.length v) s).
Proof.
  intros H. apply startswith_split in H. rewrite H at 1. apply newlines_app.
Qed.

Lemma newlines_str_replace old new s :
  old <> "" -> newlines old = 0 -> newlines new = 0 ->
  newlines (str_replace old new s) = newlines s.
Proof.
  intros Hne Hold Hnew.
  induction s as [|c s IH0 IH] using string_suffix_ind; [reflexivity |].
  destruct (startswith old (String c s)) eqn:Hs.
  - rewrite str_replace_hit by assumption.
    rewrite newlines_app, Hnew, (newlines_drop_prefix old _ Hs), Hold.
    destruct old as [|x old]; [congruence |].
    cbn [String.length drop_str]. apply IH.
  - rewrite str_replace_miss by assumption. cbn [newlines]. now rewrite IH0.
Qed.

Lemma newlines_re_sub p s :
  lower (pat_name p) = true ->
  newlines (re_sub p marker s) = newlines s.
Proof.
  intros Hp.
  induction s as [|c s IH0 IH] using string_suffix_ind; [reflexivity |].
  destruct (match_at p (String c s)) eqn:Hm.
  - rewrite re_sub_hit by exact Hm.
    pose proof (match_at_split p _ Hm) as Hs. rewrite Hs at 2.
    rewrite !newlines_app, (newlines_free _ (lower_free_nl _ Hp)).
    cbn [drop_str newlines]. now rewrite IH.
  - rewrite re_sub_miss by exact Hm. cbn [newlines]. now rewrite IH0.
Qed.

Lemma newlines_subs ts : forall line,
  tokens_ok ts -> newlines (subs ts line) = newlines line.
Proof.
  induction ts as [|t ts IH]; intros line Hts; [reflexivity |].
  apply Forall_cons in Hts as [Ht Hts].
  cbn [subs fold_left]. fold (subs ts (sub_token line t)).
  rewrite IH by exact Hts. apply newlines_re_sub. now apply token_ok_name.
Qed.

Lemma newlines_semis k : newlines (semis k) = 0.
Proof. induction k as [|k IH]; [reflexivity | exact IH]. Qed.

Lemma newlines_logos_to_norm_line line :
  newlines (logos_to_norm_line line) = newlines line.
Proof.
  rewrite logos_to_norm_line_shape, subs_catalog, newlines_app, newlines_semis.
  rewrite newlines_subs by apply catalog_ok. lia.
Qed.

Lemma newlines_norm_to_logos_line line :
  newlines (norm_to_logos_line line) = newlines line.
Proof.
  unfold norm_to_logos_line. destruct (contains marker line); [| reflexivity].
  cbv zeta. destruct (existsb _ _).
  - rewrite !newlines_str_replace by (discriminate || reflexivity).
    reflexivity.
  - now rewrite newlines_str_replace by (discriminate || reflexivity).
Qed.

Lemma newlines_write_all_map (f : string -> string) ls :
  (forall l, newlines (f l) = newlines l) ->
  newlines (write_all (map f ls)) = newlines (write_all ls).
Proof.
  intros H. induction ls as [|l ls IH]; [reflexivity |].
  cbn [map]. rewrite !write_all_cons, !newlines_app, H, IH. reflexivity.
Qed.

(** X9: both transforms keep the number of newlines of a text, so the
    lines of the transformed text have the numbers of the lines they come
    from. *)
Theorem X9_transforms_keep_line_count text :
  newlines (logos_to_norm text) = newlines text /\
  newlines (norm_to_logos text) = newlines text.
Proof.
  unfold logos_to_norm, norm_to_logos. split.
  - rewrite newlines_write_all_map by apply newlines_logos_to_norm_line.
    now rewrite write_all_readlines.
  - rewrite newlines_write_all_map by apply newlines_norm_to_logos_line.
    now rewrite write_all_readlines.
Qed.

(** * The rounds of the loop, spelled out *)

Lemma classify_and_transform_unfold env d in_place save_temps st arg w :
  classify_and_transform env d in_place save_temps st arg w =
  if recognized w arg then
    if negb (readable env arg) then
      (Raise (PermissionError ("Can't read Logos file '" +:+ arg +:+ "'")), w)
    else if negb (writable env arg) then
      (Raise (PermissionError ("Can't write Logos file '" +:+ arg +:+ "'")), w)
    else transform_to_temp env d in_place save_temps st arg w
  else (Ok (mkSession (new_cf_args st ++ [arg]) (tmp_norm_to_tmp_logos st)
                      (tmp_logos_to_orig_logos st)), w).
Proof.
  unfold classify_and_transform, bind. rewrite get_logos_path_unfold.
  destruct (recognized w arg); [| reflexivity].
  destruct (negb (readable env arg)); [reflexivity |].
  now destruct (negb (writable env arg)).
Qed.

(** The transformation of one source, when the source is not one of the
    temporary files just made. *)
Lemma transform_to_temp_run env d (in_place save_temps : bool) st orig w t
  text :
  logos_extensions_to_normal_extensions !! path_ext orig = Some t ->
  let tmp_norm := temp_path env d orig t (w_next w) in
  let tmp_logos := temp_path env d orig (path_ext orig) (S (w_next w)) in
  let fs1 : gmap string string :=
             if in_place
             then <[tmp_logos := ""]> (<[tmp_norm := ""]> (w_files w))
             else <[tmp_norm := ""]> (w_files w) in
  fs1 !! orig = Some text ->
  transform_to_temp env d in_place save_temps st orig w =
  (Ok (mkSession
         (new_cf_args st ++ [tmp_norm])
         (if in_place
          then dict_set tmp_norm tmp_logos (tmp_norm_to_tmp_logos st)
          else tmp_norm_to_tmp_logos st)
         (if in_place
          then dict_set tmp_logos orig (tmp_logos_to_orig_logos st)
          else tmp_logos_to_orig_logos st)),
   mkWorld
     (let fs2 : gmap string string :=
        <[tmp_norm := logos_to_norm (universal_newlines text)]> fs1 in
      if save_temps && negb in_place
      then <[unformatted_path tmp_norm :=
               logos_to_norm (universal_newlines text)]> fs2
      else fs2)
     (if in_place then S (S (w_next w)) else S (w_next w))
     (w_stdout w)
     (w_trace w ++ EvMkTemp tmp_norm ::
      (if in_place then [EvMkTemp tmp_logos] else []) ++
      EvOpenRead orig :: EvOpenWrite tmp_norm ::
      (if save_temps && negb in_place
       then [EvCopy tmp_norm (unformatted_path tmp_norm)] else []))).
Proof.
  intros Hlook tmp_norm tmp_logos fs1 Htext.
  destruct w as [fs n out tr]. cbn [w_files w_next w_stdout w_trace] in *.
  unfold transform_to_temp. rewrite Hlook.
  destruct in_place.
  - rewrite andb_false_r.
    cbv beta iota zeta delta
      [bind ret raise emit get_files set_files NamedTemporaryFile random_name
       read_file write_file w_files w_next w_stdout w_trace].
    fold (temp_path env d orig t n).
    fold (temp_path env d orig (path_ext orig) (S n)).
    fold tmp_norm tmp_logos. fold fs1. rewrite Htext.
    cbn [app]. rewrite <- !app_assoc. reflexivity.
  - rewrite andb_true_r.
    destruct save_temps;
      cbv beta iota zeta delta
        [bind ret raise emit get_files set_files NamedTemporaryFile
         random_name read_file write_file copy_file
         w_files w_next w_stdout w_trace];
      fold (temp_path env d orig t n); fold tmp_norm; fold fs1;
      rewrite Htext; rewrite ?lookup_insert_eq;
      cbn [app]; rewrite <- !app_assoc; reflexivity.
Qed.

(** A recognized source can always be transformed. *)
Lemma transform_to_temp_ready env d (in_place : bool) orig w :
  recognized w orig = true ->
  exists t text,
    logos_extensions_to_normal_extensions !! path_ext orig = Some t /\
    (if in_place
     then <[temp_path env d orig (path_ext orig) (S (w_next w)) := ""]>
            (<[temp_path env d orig t (w_next w) := ""]> (w_files w))
     else <[temp_path env d orig t (w_next w) := ""]> (w_files w))
    !! orig = Some text.
Proof.
  unfold recognized. intros H. apply andb_prop in H as [Hfile Hext].
  apply bool_decide_eq_true in Hfile.
  destruct (normal_extension_lookup _ Hext) as (t & Hlook & _).
  exists t.
  assert (Hsome : is_Some
    ((if in_place
      then <[temp_path env d orig (path_ext orig) (S (w_next w)) := ""]>
             (<[temp_path env d orig t (w_next w) := ""]> (w_files w))
      else <[temp_path env d orig t (w_next w) := ""]> (w_files w))
     !! orig))
    by (destruct in_place; repeat apply is_Some_insert_mono; exact Hfile).
  destruct Hsome as [text Htext]. eauto.
Qed.

Lemma temp_path_under env d orig suffix n :
  under d (temp_path env d orig suffix n) = true.
Proof. apply temp_name_under. Qed.

Lemma dict_set_values (P : string -> Prop) k v dict :
  P v -> Forall (fun kv : string * string => P kv.2) dict ->
  Forall (fun kv : string * string => P kv.2) (dict_set k v dict).
Proof. intros Hv. now apply dict_set_Forall. Qed.

(** One round of the loop that completes: nothing is printed, one
    argument is added, and the originals of the session are arguments. *)
Lemma classify_and_transform_round env d in_place save_temps st arg w r w' :
  classify_and_transform env d in_place save_temps st arg w = (r, w') ->
  w_stdout w' = w_stdout w /\
  match r with
  | Ok st' =>
      (exists x, new_cf_args st' = new_cf_args st ++ [x] /\
                 (recognized w arg = true -> under d x = true) /\
                 (recognized w arg = false -> x = arg)) /\
      (forall P : string -> Prop,
          P arg ->
          Forall (fun kv => P kv.2) (tmp_logos_to_orig_logos st) ->
          Forall (fun kv => P kv.2) (tmp_logos_to_orig_logos st'))
  | Raise _ => w' = w
  end.
Proof.
  rewrite classify_and_transform_unfold.
  destruct (recognized w arg) eqn:Hrec.
  - destruct (negb (readable env arg)); [now intros [= <- <-] |].
    destruct (negb (writable env arg)); [now intros [= <- <-] |].
    destruct (transform_to_temp_ready env d in_place arg w Hrec)
      as (t & text & Hlook & Htext).
    rewrite (transform_to_temp_run env d in_place save_temps st arg w t text
               Hlook Htext).
    intros [= <- <-]. split; [reflexivity |]. split.
    + eexists. split; [reflexivity |].
      split; [intros _; apply temp_path_under | discriminate].
    + intros P Harg HP. cbn [tmp_logos_to_orig_logos].
      destruct in_place; [now apply dict_set_values | exact HP].
  - intros [= <- <-]. split; [reflexivity |]. split.
    + exists arg. split; [reflexivity |]. split; [discriminate | reflexivity].
    + intros P _ HP. exact HP.
Qed.

Lemma substituted_steps d w w1 a x :
  steps d w w1 ->
  (recognized w1 a = true -> under d x = true) ->
  (recognized w1 a = false -> x = a) ->
  substituted d w a x.
Proof.
  intros Hs H1 H2. split; [| split].
  - destruct (recognized w1 a); auto.
  - intros Hrec. apply H1. eapply recognized_steps; eauto.
  - intros Hrec Hu. apply H2.
    now rewrite (recognized_steps_outside d w w1 a Hs Hu).
Qed.

(** The whole loop: nothing is printed; the arguments of the formatter
    stand for the arguments of the run, one for one and in their order;
    the originals of the session are arguments of the run. *)
Lemma forward_loop_session env d in_place save_temps args :
  proper_dir d ->
  forall st w0 w r w',
    steps d w0 w ->
    for_each (classify_and_transform env d in_place save_temps) args st w
    = (r, w') ->
    w_stdout w' = w_stdout w /\
    match r with
    | Ok st' =>
        (exists xs, new_cf_args st' = new_cf_args st ++ xs /\
                    Forall2 (substituted d w0) args xs) /\
        (forall P : string -> Prop,
            (forall a, In a args -> P a) ->
            Forall (fun kv => P kv.2) (tmp_logos_to_orig_logos st) ->
            Forall (fun kv => P kv.2) (tmp_logos_to_orig_logos st'))
    | Raise _ => True
    end.
Proof.
  intros Hd. induction args as [|arg args IH]; intros st w0 w r w' Hs0.
  - cbn [for_each]. unfold ret. intros [= <- <-]. split; [reflexivity |].
    split; [exists []; rewrite app_nil_r; split; [reflexivity | constructor]
           | auto].
  - cbn [for_each]. unfold bind at 1.
    destruct (classify_and_transform env d in_place save_temps st arg w)
      as [r1 w1] eqn:Hround.
    pose proof Hround as Hspec.
    apply classify_and_transform_spec in Hspec as [Hs1 _]; [| exact Hd].
    apply classify_and_transform_round in Hround as [Hout Hr1].
    destruct r1 as [st1 | e].
    + intros Hrest.
      apply (IH st1 w0) in Hrest as [Hout2 Hr2];
        [| eapply steps_trans; eauto].
      split; [congruence |].
      destruct r as [st' | e]; [| exact I].
      destruct Hr1 as ((x & Hx & Hx1 & Hx2) & HP1).
      destruct Hr2 as ((xs & Hxs & Hall) & HP2). split.
      * exists (x :: xs). split.
        -- rewrite Hxs, Hx, <- app_assoc. reflexivity.
        -- constructor; [| exact Hall].
           now apply (substituted_steps d w0 w).
      * intros P HP Hst. apply HP2; [intros a Ha; apply HP; now right |].
        apply HP1; [apply HP; now left | exact Hst].
    + intros [= <- <-]. split; [now subst w1 | exact I].
Qed.

(** * The formatter run, spelled out *)

Lemma run_clang_format_unfold env in_place st w :
  run_clang_format env in_place st w =
  let cmd := new_cf_cmd env in_place st in
  let w1 := launched env cmd w in
  match (spawn env cmd (w_files w)).1 with
  | Exited rc out =>
      if Z.eqb rc 0 then (post_process in_place st out ;;; ret 0%Z) w1
      else (Ok rc, w1)
  | Failed (CalledProcessError rc _) => (Ok rc, w1)
  | Failed e =>
      if is_Exception e then (Raise (UnboundLocalError "cf_res"), w1)
      else (Raise e, w1)
  end.
Proof.
  unfold run_clang_format. rewrite subprocess_run_unfold. cbv zeta.
  unfold launched.
  destruct (spawn env _ (w_files w)) as [res fs'] eqn:Hsp. cbn [fst snd].
  destruct res as [rc out | e].
  - cbn [andb]. now destruct (Z.eqb rc 0).
  - now destruct e.
Qed.

Lemma silent_ret {A} (a : A) : silent (ret a).
Proof. intros w. reflexivity. Qed.

Lemma silent_raise {A} e : silent (@raise A e).
Proof. intros w. reflexivity. Qed.

Lemma silent_bind {A B} (m : M A) (k : A -> M B) :
  silent m -> (forall a, silent (k a)) -> silent (bind m k).
Proof.
  intros Hm Hk w. unfold bind. specialize (Hm w).
  destruct (m w) as [[a | e] w1]; cbn [snd] in *; [| exact Hm].
  now rewrite (Hk a w1).
Qed.

Lemma silent_read_file p : silent (read_file p).
Proof.
  intros w. unfold read_file, bind, emit, get_files.
  cbn [w_files]. now destruct (w_files w !! p).
Qed.

Lemma silent_write_file p text : silent (write_file p text).
Proof. intros w. reflexivity. Qed.

Lemma silent_for_each {A S} (body : S -> A -> M S) xs :
  (forall st x, silent (body st x)) -> forall st, silent (for_each body xs st).
Proof.
  intros Hb. induction xs as [|x xs IH]; intros st; cbn [for_each].
  - apply silent_ret.
  - apply silent_bind; auto.
Qed.

Lemma stdout_print_then {A} s (m : M A) w :
  silent m -> w_stdout ((print s ;;; m) w).2 = w_stdout w +:+ s.
Proof. intros H. unfold bind, print. now rewrite H. Qed.

(** What a successful formatter run prints: its output as it is in
    in-place mode, the reverse transform of its output in stream mode. *)
Lemma post_process_stdout in_place st out w :
  w_stdout (post_process in_place st out w).2 =
  w_stdout w +:+ (if in_place then out else norm_to_logos out).
Proof.
  unfold post_process. destruct in_place; [| reflexivity].
  apply stdout_print_then. apply silent_bind.
  - apply silent_for_each. intros [] [tmp_norm tmp_logos].
    apply silent_bind; [apply silent_read_file |].
    intros text. apply silent_write_file.
  - intros _. apply silent_for_each. intros [] [tmp_logos orig_logos].
    apply silent_bind; [apply silent_read_file |].
    intros text. apply silent_write_file.
Qed.

Section WritesOnly.
Variable P : string -> Prop.

Lemma writes_only_ret {A} (a : A) : writes_only P (ret a).
Proof. intros w. exists []. split; [now rewrite app_nil_r | constructor]. Qed.

Lemma writes_only_raise {A} e : writes_only P (@raise A e).
Proof. intros w. exists []. split; [now rewrite app_nil_r | constructor]. Qed.

Lemma writes_only_bind {A B} (m : M A) (k : A -> M B) :
  writes_only P m -> (forall a, writes_only P (k a)) ->
  writes_only P (bind m k).
Proof.
  intros Hm Hk w. unfold bind. destruct (Hm w) as (evs1 & Ht1 & Hw1).
  destruct (m w) as [[a | e] w1]; cbn [snd] in Ht1.
  - destruct (Hk a w1) as (evs2 & Ht2 & Hw2). exists (evs1 ++ evs2).
    split; [now rewrite Ht2, Ht1, app_assoc |].
    rewrite written_app. apply Forall_app. auto.
  - exists evs1. auto.
Qed.

Lemma writes_only_emit e : Forall P (written [e]) -> writes_only P (emit e).
Proof. intros H w. now exists [e]. Qed.

Lemma writes_only_get_files : writes_only P get_files.
Proof. intros w. exists []. split; [now rewrite app_nil_r | constructor]. Qed.

Lemma writes_only_set_files fs : writes_only P (set_files fs).
Proof. intros w. exists []. split; [now rewrite app_nil_r | constructor]. Qed.

Lemma writes_only_print s : writes_only P (print s).
Proof. intros w. exists []. split; [now rewrite app_nil_r | constructor]. Qed.

Lemma writes_only_read_file p : writes_only P (read_file p).
Proof.
  unfold read_file.
  apply writes_only_bind; [apply writes_only_emit; constructor |].
  intros _. apply writes_only_bind; [apply writes_only_get_files |].
  intros fs. destruct (fs !! p); [apply writes_only_ret | apply writes_only_raise].
Qed.

Lemma writes_only_write_file p text : P p -> writes_only P (write_file p text).
Proof.
  intros Hp. unfold write_file.
  apply writes_only_bind; [apply writes_only_emit; repeat constructor; exact Hp |].
  intros _. apply writes_only_bind; [apply writes_only_get_files |].
  intros fs. apply writes_only_set_files.
Qed.

Lemma writes_only_for_each {A S} (body : S -> A -> M S) xs :
  List.Forall (fun x => forall st, writes_only P (body st x)) xs ->
  forall st, writes_only P (for_each body xs st).
Proof.
  induction 1 as [|x xs Hx _ IH]; intros st; cbn [for_each].
  - apply writes_only_ret.
  - apply writes_only_bind; auto.
Qed.

(** What follows the formatter run opens for writing the values of the
    two dictionaries, and nothing in stream mode. *)
Lemma writes_only_post_process in_place st out :
  (in_place = true ->
   List.Forall (fun kv => P kv.2) (tmp_norm_to_tmp_logos st) /\
   List.Forall (fun kv => P kv.2) (tmp_logos_to_orig_logos st)) ->
  writes_only P (post_process in_place st out).
Proof.
  intros H. unfold post_process.
  destruct in_place; [| apply writes_only_print].
  destruct (H eq_refl) as [H1 H2].
  apply writes_only_bind; [apply writes_only_print | intros _].
  apply writes_only_bind; [| intros _].
  - apply writes_only_for_each. eapply List.Forall_impl; [| exact H1].
    intros [tmp_norm tmp_logos] Hp []. cbn [snd] in Hp.
    apply writes_only_bind; [apply writes_only_read_file |].
    intros text. now apply writes_only_write_file.
  - apply writes_only_for_each. eapply List.Forall_impl; [| exact H2].
    intros [tmp_logos orig_logos] Hp []. cbn [snd] in Hp.
    apply writes_only_bind; [apply writes_only_read_file |].
    intros text. now apply writes_only_write_file.
Qed.

(** The formatter run as a whole: the launch opens nothing itself. *)
Lemma writes_only_run_clang_format env in_place st :
  (in_place = true ->
   List.Forall (fun kv => P kv.2) (tmp_norm_to_tmp_logos st) /\
   List.Forall (fun kv => P kv.2) (tmp_logos_to_orig_logos st)) ->
  writes_only P (run_clang_format env in_place st).
Proof.
  intros H w. rewrite run_clang_format_unfold. cbv zeta.
  set (cmd := new_cf_cmd env in_place st).
  set (res := (spawn env cmd (w_files w)).1).
  assert (Hl : exists evs,
             w_trace (launched env cmd w) = w_trace w ++ evs /\
             Forall P (written evs)).
  { exists [EvSpawn cmd res]. split; [reflexivity | constructor]. }
  destruct res as [rc out | e].
  - destruct (Z.eqb rc 0); [| exact Hl].
    destruct (writes_only_bind (post_process in_place st out)
                (fun _ => ret 0%Z)
                (writes_only_post_process in_place st out H)
                (fun _ => writes_only_ret 0%Z)
                (launched env cmd w)) as (evs & Ht & Hw).
    exists (EvSpawn cmd (spawn env cmd (w_files w)).1 :: evs).
    split; [| exact Hw].
    rewrite Ht. cbn [launched w_trace]. now rewrite <- app_assoc.
  - destruct e; exact Hl.
Qed.

End WritesOnly.

(** * Formatting runs as a whole *)

Lemma In_single_spawn cmd res cmd0 res0 evs1 evs2 :
  spawn_results evs1 = [] -> spawn_results evs2 = [] ->
  In (EvSpawn cmd res) (evs1 ++ EvSpawn cmd0 res0 :: evs2) ->
  cmd = cmd0 /\ res = res0.
Proof.
  intros H1 H2 Hin. apply in_app_or in Hin as [Hin | [Hin | Hin]].
  - apply In_spawn_results in Hin. rewrite H1 in Hin. destruct Hin.
  - now injection Hin as <- <-.
  - apply In_spawn_results in Hin. rewrite H2 in Hin. destruct Hin.
Qed.

(** The two ways a formatting run can go, with what the loop has built
    when it completes. *)
Lemma formatting_run env a args w r w' :
  ns_version a = false ->
  real_main env a args w = (r, w') ->
  let d := workspace env w in
  exists w2 evs,
    steps d w w2 /\
    w_trace w2 = w_trace w ++ EvMkdtemp d :: evs /\
    spawn_results evs = [] /\
    w_stdout w2 = w_stdout w /\
    ((exists msg arg,
        r = Raise (PermissionError msg) /\ In arg args /\
        readable env arg && writable env arg = false /\
        w' = cleanup (ns_save_logos_temps a) d w2) \/
     (exists st w3,
        (forall x, In x args -> recognized w x = true ->
                   readable env x && writable env x = true) /\
        session_ok d st /\
        Forall2 (substituted d w) args (new_cf_args st) /\
        Forall (fun kv => In kv.2 args) (tmp_logos_to_orig_logos st) /\
        run_clang_format env (ns_in_place a) st w2 = (r, w3) /\
        w' = cleanup (ns_save_logos_temps a) d w3)).
Proof.
  intros Hv Hrun d. rewrite (real_main_unfold env a args w Hv) in Hrun.
  cbv zeta in Hrun. fold d in Hrun. unfold bind in Hrun.
  set (w1 := mkWorld _ _ _ _) in Hrun.
  assert (Hw1 : steps d w w1).
  { destruct w as [fs n out tr]. unfold w1.
    cbn [w_files w_next w_stdout w_trace].
    repeat split; cbn [w_files w_trace]; auto.
    exists [EvMkdtemp d]. repeat split; constructor. }
  destruct (for_each _ args empty_session w1) as [r1 w2] eqn:Hloop.
  pose proof Hloop as Hsession.
  apply (forward_loop_session env d _ _ args (workspace_proper env w)
           empty_session w w1 r1 w2 Hw1) in Hsession as [Hout Hsession].
  apply forward_loop_spec in Hloop as [Hsteps Hr1];
    [| apply workspace_proper].
  pose proof Hsteps as (_ & _ & evs & Htr & Hsp & _).
  exists w2, evs. split; [eapply steps_trans; eauto |].
  split; [rewrite Htr; unfold w1; cbn [w_trace]; now rewrite <- app_assoc |].
  split; [exact Hsp |]. split; [exact Hout |].
  destruct r1 as [st | e].
  - right. destruct Hr1 as (Hperms & Hsess & _).
    destruct Hsession as ((xs & Hxs & Hall) & Horig).
    destruct (run_clang_format env (ns_in_place a) st w2) as [r2 w3] eqn:Hfmt.
    exists st, w3. split; [exact Hperms |].
    split; [apply Hsess; split; constructor |].
    split; [now rewrite Hxs |].
    split; [apply (Horig (fun x => In x args)); [auto | constructor] |].
    split; congruence.
  - left. destruct Hr1 as (msg & arg & -> & Hin & Hperm).
    exists msg, arg. repeat split; auto; congruence.
Qed.

Lemma cleanup_stdout save d w : w_stdout (cleanup save d w) = w_stdout w.
Proof. unfold cleanup. now destruct save. Qed.

Lemma cleanup_spawn_results save d w :
  spawn_results (w_trace (cleanup save d w)) = spawn_results (w_trace w).
Proof.
  destruct (cleanup_trace save d w) as (evs & -> & Hs & _).
  now rewrite spawn_results_app, Hs, app_nil_r.
Qed.

(** The formatter run: one launch, and what is printed after it. *)
Lemma run_clang_format_launch env d in_place st w r w' :
  session_ok d st ->
  run_clang_format env in_place st w = (r, w') ->
  let res := (spawn env (new_cf_cmd env in_place st) (w_files w)).1 in
  spawn_results (w_trace w') = spawn_results (w_trace w) ++ [res] /\
  w_stdout w' =
    w_stdout w +:+
    match res with
    | Exited rc out =>
        if Z.eqb rc 0
        then if in_place then out else norm_to_logos out
        else ""
    | Failed _ => ""
    end.
Proof.
  intros Hsess Hrun res. split.
  - apply (run_clang_format_spec env d) in Hrun as (evs & -> & Hs & _);
      [| exact Hsess].
    rewrite spawn_results_app. cbn [spawn_results]. now rewrite Hs.
  - rewrite run_clang_format_unfold in Hrun. cbv zeta in Hrun. fold res in Hrun.
    destruct res as [rc out | e].
    + destruct (Z.eqb rc 0).
      * unfold bind in Hrun.
        pose proof (post_process_stdout in_place st out
                      (launched env (new_cf_cmd env in_place st) w)) as Hp.
        destruct (post_process in_place st out _) as [[[] | e] w3];
          cbn [snd] in Hp; injection Hrun as <- <-; exact Hp.
      * injection Hrun as <- <-. cbn [launched w_stdout].
        now rewrite app_str_nil_r.
    + assert (Hw : w' = launched env (new_cf_cmd env in_place st) w).
      { destruct e; cbn [is_Exception] in Hrun; congruence. }
      rewrite Hw. cbn [launched w_stdout]. now rewrite app_str_nil_r.
Qed.

(** X10: a formatting run launches at most one process.  Either it ends
    with the [PermissionError] of an argument that cannot be read or
    written, and launches none; or it launches exactly one, and then
    every recognized argument can be read and written. *)
Theorem X10_formatter_runs_at_most_once env a args w r w' :
  ns_version a = false ->
  real_main env a args w = (r, w') ->
  (spawn_results (w_trace w') = spawn_results (w_trace w) /\
   exists msg arg,
     r = Raise (PermissionError msg) /\ In arg args /\
     readable env arg && writable env arg = false) \/
  (exists res,
     spawn_results (w_trace w') = spawn_results (w_trace w) ++ [res] /\
     forall x, In x args -> recognized w x = true ->
               readable env x && writable env x = true).
Proof.
  intros Hv Hrun.
  destruct (formatting_run env a args w r w' Hv Hrun)
    as (w2 & evs & _ & Htr & Hsp & _ & Hcases).
  assert (Hw2 : spawn_results (w_trace w2) = spawn_results (w_trace w)).
  { rewrite Htr, spawn_results_app. cbn [spawn_results].
    now rewrite Hsp, app_nil_r. }
  destruct Hcases as [(msg & arg & -> & Hin & Hperm & ->)
                     | (st & w3 & Hperms & Hsess & _ & _ & Hfmt & ->)].
  - left. rewrite cleanup_spawn_results. eauto 6.
  - right.
    apply (run_clang_format_launch env _ _ _ _ _ _ Hsess) in Hfmt as [Hl _].
    eexists. rewrite cleanup_spawn_results, Hl, Hw2. eauto.
Qed.

Lemma X10_formatter_runs_at_most_once_witness :
  spawn_results
    (w_trace (real_main (sample_env true (Exited 0 "")) stream_args
                        ["-style=file"; "Tweak.xm"] sample_world).2)
  = [Exited 0 ""].
Proof.
  destruct (X10_formatter_runs_at_most_once
              (sample_env true (Exited 0 "")) stream_args
              ["-style=file"; "Tweak.xm"] sample_world _ _
              eq_refl (surjective_pairing _))
    as [[_ (msg & arg & Hr & _)] | (res & Hres & _)].
  - vm_compute in Hr. discriminate Hr.
  - vm_compute. reflexivity.
Defined.

(** X11: the command line of the formatter.  It is the clang-format
    executable, then [-i] in in-place mode, then one argument for each
    argument of the run, in the same order: a file of the workspace in
    place of a recognized source, and the argument itself when it is
    neither a recognized source nor a path into the workspace. *)
Theorem X11_formatter_command_line env a args w r w' cmd res :
  ns_version a = false ->
  w_trace w = [] ->
  real_main env a args w = (r, w') ->
  In (EvSpawn cmd res) (w_trace w') ->
  exists xs,
    cmd = clang_format_path env :: (if ns_in_place a then "-i" :: xs else xs)
    /\ Forall2 (substituted (workspace env w) w) args xs.
Proof.
  intros Hv Htr0 Hrun Hin.
  destruct (formatting_run env a args w r w' Hv Hrun)
    as (w2 & evs & _ & Htr & Hsp & _ & Hcases).
  rewrite Htr0 in Htr. cbn [app] in Htr.
  set (d := workspace env w) in *.
  destruct Hcases as [(msg & arg & -> & _ & _ & ->)
                     | (st & w3 & _ & Hsess & Hall & _ & Hfmt & ->)].
  - exfalso. apply In_spawn_results in Hin.
    rewrite cleanup_spawn_results, Htr in Hin. cbn [spawn_results] in Hin.
    rewrite Hsp in Hin. destruct Hin.
  - exists (new_cf_args st). split; [| exact Hall].
    apply (run_clang_format_spec env d) in Hfmt
      as (evs3 & Htr3 & Hsp3 & _); [| exact Hsess].
    destruct (cleanup_trace (ns_save_logos_temps a) d w3)
      as (evc & Hc & Hsc & _).
    rewrite Hc, Htr3, Htr, <- app_assoc in Hin. cbn [app] in Hin.
    apply (In_single_spawn _ _ _ _ (EvMkdtemp d :: evs) (evs3 ++ evc))
      in Hin as [-> _].
    + reflexivity.
    + cbn [spawn_results]. exact Hsp.
    + now rewrite spawn_results_app, Hsp3, Hsc.
Qed.

Lemma X11_formatter_command_line_witness :
  exists xs,
    ["/usr/bin/clang-format"; "-i"; "-style=file";
     "/work/logos-format-tmp-aaaaaaaa/Tweak-baaaaaaa.mm"]
    = "/usr/bin/clang-format" :: "-i" :: xs /\
    Forall2 (substituted "/work/logos-format-tmp-aaaaaaaa" sample_world)
            ["-style=file"; "Tweak.xm"] xs.
Proof.
  apply (X11_formatter_command_line
           (sample_env true (Exited 0 "")) in_place_args
           ["-style=file"; "Tweak.xm"] sample_world _ _ _ (Exited 0 "")
           eq_refl eq_refl (surjective_pairing _)).
  vm_compute. do 5 right. left. reflexivity.
Defined.

(** X13: what a formatting run prints on standard output.  After a
    formatter run that exited with status 0 it is the output of the
    formatter as it is in in-place mode, and [norm_to_logos] of the whole
    output in stream mode; in every other case nothing is printed. *)
Theorem X13_printed_output env a args w r w' :
  ns_version a = false ->
  w_trace w = [] ->
  real_main env a args w = (r, w') ->
  w_stdout w' =
    w_stdout w +:+
    match spawn_results (w_trace w') with
    | [Exited rc out] =>
        if Z.eqb rc 0
        then if ns_in_place a then out else norm_to_logos out
        else ""
    | _ => ""
    end.
Proof.
  intros Hv Htr0 Hrun.
  destruct (formatting_run env a args w r w' Hv Hrun)
    as (w2 & evs & _ & Htr & Hsp & Hout & Hcases).
  assert (Hw2 : spawn_results (w_trace w2) = []).
  { rewrite Htr, Htr0. cbn [app spawn_results]. exact Hsp. }
  destruct Hcases as [(msg & arg & -> & _ & _ & ->)
                     | (st & w3 & _ & Hsess & _ & _ & Hfmt & ->)].
  - rewrite cleanup_stdout, cleanup_spawn_results, Hw2, Hout.
    now rewrite app_str_nil_r.
  - apply (run_clang_format_launch env _ _ _ _ _ _ Hsess) in Hfmt
      as [Hl Hprint].
    rewrite cleanup_stdout, cleanup_spawn_results, Hl, Hw2, Hprint, Hout.
    cbn [app]. now destruct (spawn env _ _).1.
Qed.

Lemma X13_printed_output_witness :
  w_stdout (real_main (sample_env true (Exited 0 "@logosformatend;"))
                      stream_args ["Tweak.xm"] sample_world).2
  = "%end".
Proof.
  rewrite (X13_printed_output (sample_env true (Exited 0 "@logosformatend;"))
             stream_args ["Tweak.xm"] sample_world _ _
             eq_refl eq_refl (surjective_pairing _)).
  vm_compute. reflexivity.
Defined.

(** X15: the paths a formatting run itself opens for writing or copies
    to, however the run ends.  Each of them lies in the workspace of the
    run, or, in in-place mode only, is an argument of the run with a
    Logos extension.  Paths are the spellings the program hands to [open]
    and to [copy]; what the formatter writes is not among them. *)
Theorem X15_paths_opened_for_writing env a args w r w' :
  ns_version a = false ->
  real_main env a args w = (r, w') ->
  exists evs,
    w_trace w' = w_trace w ++ evs /\
    Forall (fun q =>
              under (workspace env w) q = true \/
              (ns_in_place a = true /\ In q args /\
               in_tuple (path_ext q) logos_extensions = true))
           (written evs).
Proof.
  intros Hv Hrun.
  destruct (formatting_run env a args w r w' Hv Hrun)
    as (w2 & evs & Hsteps & _ & _ & _ & Hcases).
  set (d := workspace env w) in *.
  destruct Hsteps as (_ & _ & evs2 & Htr2 & _ & Hwr2 & _).
  assert (Hloop : Forall (fun q =>
              under d q = true \/
              (ns_in_place a = true /\ In q args /\
               in_tuple (path_ext q) logos_extensions = true))
           (written evs2)).
  { eapply List.Forall_impl; [| exact Hwr2]. intros q Hq. now left. }
  destruct Hcases as [(msg & arg & -> & _ & _ & ->)
                     | (st & w3 & _ & Hsess & _ & Horig & Hfmt & ->)].
  - destruct (cleanup_trace (ns_save_logos_temps a) d w2)
      as (evc & Hc & _ & Hwc & _).
    exists (evs2 ++ evc). split; [now rewrite Hc, Htr2, app_assoc |].
    rewrite written_app, Hwc, app_nil_r. exact Hloop.
  - destruct (writes_only_run_clang_format
                (fun q => under d q = true \/
                          (ns_in_place a = true /\ In q args /\
                           in_tuple (path_ext q) logos_extensions = true))
                env (ns_in_place a) st) with (w := w2)
      as (evs3 & Htr3 & Hwr3).
    { intros Hip. destruct Hsess as [H1 H2]. split.
      - eapply List.Forall_impl; [| exact H1].
        intros kv [_ Hu]. now left.
      - apply List.Forall_forall. intros kv Hkv. right.
        split; [exact Hip |]. split.
        + exact (proj1 (List.Forall_forall _ _) Horig kv Hkv).
        + exact (proj2 (proj1 (List.Forall_forall _ _) H2 kv Hkv)). }
    rewrite Hfmt in Htr3. cbn [snd] in Htr3.
    destruct (cleanup_trace (ns_save_logos_temps a) d w3)
      as (evc & Hc & _ & Hwc & _).
    exists (evs2 ++ evs3 ++ evc).
    split; [now rewrite Hc, Htr3, Htr2, <- !app_assoc |].
    rewrite !written_app, Hwc, app_nil_r. apply Forall_app. auto.
Qed.

Lemma X15_paths_opened_for_writing_witness :
  exists evs,
    w_trace (real_main (sample_env true (Exited 0 "")) in_place_args
                       ["-style=file"; "Tweak.xm"] sample_world).2
    = w_trace sample_world ++ evs /\
    Forall (fun q =>
              under (workspace (sample_env true (Exited 0 "")) sample_world) q
              = true \/
              (ns_in_place in_place_args = true /\
               In q ["-style=file"; "Tweak.xm"] /\
               in_tuple (path_ext q) logos_extensions = true))
           (written evs).
Proof.
  apply (X15_paths_opened_for_writing
           (sample_env true (Exited 0 "")) in_place_args
           ["-style=file"; "Tweak.xm"] sample_world _ _
           eq_refl (surjective_pairing _)).
Defined.

(** * The names of the temporary files *)

Lemma basename_plain b : free_of "/" b = true -> basename b = b.
Proof. intros H. destruct b; cbn [basename]; now rewrite H. Qed.

Lemma free_of_last_slash c h :
  Ascii.eqb (last_char c (String c h)) "/" = true ->
  free_of "/" (String c h) = false.
Proof.
  revert c. induction h as [|x h IH]; intros c H.
  - cbn [last_char] in H. rewrite free_of_cons, H. reflexivity.
  - cbn [last_char] in H. rewrite free_of_cons.
    rewrite (IH x); [apply andb_false_r |]. exact H.
Qed.

(** The base name of a name put after a directory prefix. *)
Lemma basename_after_prefix h b :
  Ascii.eqb (last_char "/" h) "/" = true ->
  free_of "/" b = true -> basename (h +:+ b) = b.
Proof.
  intros Hh Hb. induction h as [|c h IH]; [now apply basename_plain |].
  cbn [String.append basename].
  assert (Hf : free_of "/" (String c (h +:+ b)) = false).
  { change (String c (h +:+ b)) with (String c h +:+ b).
    rewrite free_of_app, Hb, andb_true_r.
    apply free_of_last_slash. cbn [last_char] in Hh |- *. exact Hh. }
  rewrite Hf. apply IH. cbn [last_char] in Hh.
  destruct h as [|x h]; [reflexivity |]. exact Hh.
Qed.

Lemma dir_prefix_last d : Ascii.eqb (last_char "/" (dir_prefix d)) "/" = true.
Proof.
  unfold dir_prefix. destruct (Ascii.eqb (last_char "/" d) "/") eqn:H;
    [exact H |].
  now rewrite last_char_app.
Qed.

(** The extension of a name that ends with a dot and dot-free letters,
    when something other than a dot comes before. *)
Lemma ext_go_suffix e : forall u seen,
  free_of "." e = true ->
  seen || negb (all_chars (Ascii.eqb ".") u) = true ->
  ext_go seen (u +:+ String "." e) = String "." e.
Proof.
  intros u seen He. revert seen.
  induction u as [|c u IH]; intros seen Hseen.
  - cbn [all_chars negb] in Hseen. rewrite orb_false_r in Hseen. subst seen.
    cbn [String.append ext_go]. now rewrite He.
  - cbn [String.append ext_go].
    assert (Hdot : free_of "." (u +:+ String "." e) = false).
    { rewrite free_of_app, free_of_cons. cbn. apply andb_false_r. }
    rewrite Hdot, andb_false_r. apply IH.
    cbn [all_chars] in Hseen. rewrite (Ascii.eqb_sym c ".").
    destruct seen, (Ascii.eqb "." c); cbn in *; auto.
Qed.

Lemma temp_path_ext env d orig e n :
  free_of "." e = true -> free_of "/" e = true ->
  path_ext (temp_path env d orig (String "." e) n) = String "." e.
Proof.
  intros He Hs. unfold temp_path, path_ext, path_join.
  rewrite app_str_assoc at 1.
  rewrite (startswith_slash_free _ _ (path_stem_free orig)).
  rewrite basename_after_prefix;
    [| apply dir_prefix_last
     | apply temp_name_free; now rewrite free_of_cons, Hs].
  rewrite <- !app_str_assoc. apply ext_go_suffix; [exact He |].
  rewrite !all_chars_app. cbn. now rewrite !andb_false_r.
Qed.

(** X12: the temporary file handed to the formatter for a recognized
    source carries the extension that the table gives for the extension
    of the source, [.m] or [.mm], and the second temporary file of in-place
    mode carries the extension of the source, whatever the directory, the
    stem of the source and the random name. *)
Theorem X12_temporary_files_carry_the_extensions env d orig t n :
  in_tuple (path_ext orig) logos_extensions = true ->
  logos_extensions_to_normal_extensions !! path_ext orig = Some t ->
  (t = ".m" \/ t = ".mm") /\
  path_ext (temp_path env d orig t n) = t /\
  path_ext (temp_path env d orig (path_ext orig) n) = path_ext orig.
Proof.
  intros Hext Hlook.
  destruct (normal_extension_lookup _ Hext) as (t' & Hlook' & Ht).
  assert (t' = t) by congruence. subst t'.
  split; [exact Ht |]. split.
  - destruct Ht as [-> | ->]; now apply temp_path_ext.
  - apply in_tuple_logos_extensions in Hext.
    destruct Hext as [-> | [-> | [-> | ->]]]; now apply temp_path_ext.
Qed.

Lemma X12_temporary_files_carry_the_extensions_witness :
  path_ext (temp_path (sample_env true (Exited 0 ""))
                      "/work/logos-format-tmp-aaaaaaaa" "src/Tweak.v2.xm"
                      ".mm" 1)
  = ".mm".
Proof.
  exact (proj1 (proj2 (X12_temporary_files_carry_the_extensions
           (sample_env true (Exited 0 "")) "/work/logos-format-tmp-aaaaaaaa"
           "src/Tweak.v2.xm" ".mm" 1 eq_refl eq_refl))).
Defined.

(** X18: with [--version] the program launches [clang-format --version]
    and nothing else: no workspace is made and no argument is looked at.
    It prints its own name and version on one line, then the output of
    clang-format, and returns 0 whatever the exit status of clang-format;
    an exception raised by the launch propagates. *)
Theorem X18_version_run env a args w :
  ns_version a = true ->
  let cmd := [clang_format_path env; "--version"] in
  let res := (spawn env cmd (w_files w)).1 in
  let run := real_main env a args w in
  w_trace run.2 = w_trace w ++ [EvSpawn cmd res] /\
  match res with
  | Exited rc out =>
      run.1 = Ok 0%Z /\
      w_stdout run.2 =
        (w_stdout w +:+
         program_name +:+ " version " +:+ logos_format_version env +:+ nl)
        +:+ out
  | Failed e => run.1 = Raise e
  end.
Proof.
  intros Hv. cbv zeta. unfold real_main. rewrite Hv.
  unfold bind, print. rewrite subprocess_run_unfold. cbv zeta.
  cbn [w_files w_next w_stdout w_trace].
  destruct (spawn env _ (w_files w)).1 as [rc out | e]; cbn [andb].
  - unfold ret. cbn [fst snd w_trace w_stdout]. auto.
  - cbn [fst snd w_trace]. auto.
Qed.

Lemma X18_version_run_witness :
  (real_main (sample_env false (Exited 1 "clang-format version 17"))
             (mkNamespace true false false true) ["Tweak.xm"] sample_world).1
  = Ok 0%Z.
Proof.
  exact (proj1 (proj2 (X18_version_run
           (sample_env false (Exited 1 "clang-format version 17"))
           (mkNamespace true false false true) ["Tweak.xm"] sample_world
           eq_refl))).
Defined.

(** X19: the only exception [main] lets through is [SystemExit]; and when
    the launch of the formatter is interrupted ([KeyboardInterrupt]),
    [main] returns 0 in the world [real_main] left. *)
Theorem X19_main_stops_every_exception env parsed w :
  (forall e, (main env parsed w).1 = Raise e -> exists code, e = SystemExit code)
  /\
  (forall a args cmd,
      parsed = Ok (a, args) -> ns_version a = false -> w_trace w = [] ->
      In (EvSpawn cmd (Failed KeyboardInterrupt))
         (w_trace (real_main env a args w).2) ->
      main env parsed w = (Ok 0%Z, (real_main env a args w).2)).
Proof.
  split.
  - intros e. unfold main.
    destruct (match parsed with
              | Ok (logos_format_args, clang_format_args) =>
                  real_main env logos_format_args clang_format_args w
              | Raise e0 => (Raise e0, w)
              end) as [[code | e0] w1]; cbn [fst]; [discriminate |].
    destruct e0; cbn [is_Exception fst]; try discriminate.
    intros [= <-]. eauto.
  - intros a args cmd -> Hv Htr Hin.
    destruct (real_main env a args w) as [r w1] eqn:Hrun. cbn [snd] in *.
    pose proof (real_main_by_formatter_result env a args w r w1 cmd
                  (Failed KeyboardInterrupt) Hv Htr Hrun Hin eq_refl) as Hr.
    cbn [is_Exception] in Hr. unfold main. now rewrite Hrun, Hr.
Qed.

Lemma X19_main_stops_every_exception_witness :
  (main (sample_env true (Failed KeyboardInterrupt))
        (Ok (in_place_args, ["Tweak.xm"])) sample_world).1 = Ok 0%Z.
Proof.
  rewrite (proj2 (X19_main_stops_every_exception
                    (sample_env true (Failed KeyboardInterrupt))
                    (Ok (in_place_args, ["Tweak.xm"])) sample_world)
                 in_place_args ["Tweak.xm"]
                 ["/usr/bin/clang-format"; "-i";
                  "/work/logos-format-tmp-aaaaaaaa/Tweak-baaaaaaa.mm"]
                 eq_refl eq_refl eq_refl).
  - reflexivity.
  - vm_compute. do 5 right. left. reflexivity.
Defined.

(** * One source, formatted in place *)

Lemma for_each_app {A S} (body : S -> A -> M S) xs ys st w :
  for_each body (xs ++ ys) st w =
  match for_each body xs st w with
  | (Ok st', w') => for_each body ys st' w'
  | (Raise e, w') => (Raise e, w')
  end.
Proof.
  revert st w. induction xs as [|x xs IH]; intros st w; [reflexivity |].
  cbn [app for_each]. unfold bind.
  destruct (body st x w) as [[st1 | e] w1]; [apply IH | reflexivity].
Qed.

(** Arguments without a Logos extension go through the loop as they
    are, and leave the world as it is. *)
Lemma pass_through_loop env d in_place save_temps xs : forall st w,
  Forall (fun x => in_tuple (path_ext x) logos_extensions = false) xs ->
  for_each (classify_and_transform env d in_place save_temps) xs st w =
  (Ok (mkSession (new_cf_args st ++ xs) (tmp_norm_to_tmp_logos st)
                 (tmp_logos_to_orig_logos st)), w).
Proof.
  induction xs as [|x xs IH]; intros st w Hxs.
  - cbn [for_each]. rewrite app_nil_r. now destruct st.
  - apply Forall_cons in Hxs as [Hx Hxs]. cbn [for_each]. unfold bind.
    rewrite classify_and_transform_unfold. unfold recognized.
    rewrite Hx, andb_false_r, (IH _ _ Hxs).
    cbn [new_cf_args tmp_norm_to_tmp_logos tmp_logos_to_orig_logos].
    now rewrite <- app_assoc.
Qed.

Lemma not_under_ne d p q : under d p = true -> under d q = false -> p <> q.
Proof. congruence. Qed.

(** Universal newlines: text without a carriage return is read as it is,
    and both transforms keep a text free of carriage returns. *)
Lemma universal_newlines_plain s :
  free_of "013" s = true -> universal_newlines s = s.
Proof.
  unfold universal_newlines.
  induction s as [|c s IH]; [reflexivity |].
  rewrite free_of_cons. intros H. apply andb_prop in H as [Hc Hs].
  apply negb_true_iff in Hc. cbn [universal_newlines_go andb].
  rewrite Hc, (IH Hs). reflexivity.
Qed.

Lemma universal_newlines_go_free b s :
  free_of "013" (universal_newlines_go b s) = true.
Proof.
  revert b. induction s as [|c s IH]; intros b; [reflexivity |].
  cbn [universal_newlines_go].
  destruct (Ascii.eqb c "013") eqn:Hc.
  - rewrite free_of_cons, IH. reflexivity.
  - destruct (b && Ascii.eqb c "010"); [apply IH |].
    rewrite free_of_cons, Hc, IH. reflexivity.
Qed.

Lemma universal_newlines_free s : free_of "013" (universal_newlines s) = true.
Proof. apply universal_newlines_go_free. Qed.

Lemma free_of_replace_go c old new : forall s skip,
  free_of c new = true -> free_of c s = true ->
  free_of c (replace_go old new skip s) = true.
Proof.
  induction s as [|x s IH]; intros skip Hn Hs; [reflexivity |].
  rewrite free_of_cons in Hs. apply andb_prop in Hs as [Hx Hs].
  cbn [replace_go]. destruct skip as [|k]; [| now apply IH].
  destruct (startswith old (String x s)).
  - rewrite free_of_app, Hn. now apply IH.
  - rewrite free_of_cons, Hx. now apply IH.
Qed.

Lemma free_of_norm_to_logos_line c line :
  c <> "%"%char -> free_of c line = true ->
  free_of c (norm_to_logos_line line) = true.
Proof.
  intros Hc H. unfold norm_to_logos_line.
  assert (Hp : free_of c "%" = true).
  { rewrite free_of_cons. apply andb_true_intro. split; [| reflexivity].
    apply negb_true_iff, Ascii.eqb_neq. congruence. }
  assert (H1 : free_of c (str_replace marker "%" line) = true)
    by now apply free_of_replace_go.
  destruct (contains marker line); [| exact H].
  destruct (existsb _ _); [| exact H1].
  now apply free_of_replace_go.
Qed.

Lemma free_of_readlines c s :
  free_of c s = true -> List.Forall (fun l => free_of c l = true) (readlines s).
Proof.
  induction s as [|x s IH]; [constructor |].
  rewrite free_of_cons. intros H. apply andb_prop in H as [Hx Hs].
  specialize (IH Hs). cbn [readlines].
  destruct (Ascii.eqb x "010").
  - constructor; [| exact IH]. now rewrite free_of_cons, Hx.
  - destruct (readlines s) as [|l ls].
    + constructor; [| constructor]. now rewrite free_of_cons, Hx.
    + inversion IH as [|? ? Hl Hls]; subst.
      constructor; [| exact Hls]. now rewrite free_of_cons, Hx, Hl.
Qed.

Lemma free_of_write_all c f ls :
  (forall l, free_of c l = true -> free_of c (f l) = true) ->
  List.Forall (fun l => free_of c l = true) ls ->
  free_of c (write_all (map f ls)) = true.
Proof.
  intros Hf H. induction H as [|l ls Hl _ IH]; [reflexivity |].
  cbn [map]. rewrite write_all_cons, free_of_app, (Hf _ Hl), IH. reflexivity.
Qed.

Lemma norm_to_logos_keeps_free s :
  free_of "013" s = true -> free_of "013" (norm_to_logos s) = true.
Proof.
  intros H. unfold norm_to_logos. apply free_of_write_all.
  - intros l. now apply free_of_norm_to_logos_line.
  - now apply free_of_readlines.
Qed.

(** X14: an in-place run on one Logos source among arguments without
    Logos extension.  Files are read with universal newlines: a carriage
    return, alone or followed by a line feed, is read as a line feed.  The
    formatter is run on a temporary file that holds [logos_to_norm] of the
    text of the source read that way; when it exits with status 0, the run
    returns 0, prints the output of the formatter, and the source holds
    [norm_to_logos] of what the formatter left in that temporary file,
    read the same way. *)
Theorem X14_in_place_commit env a pre orig post w t text out fs2 formatted :
  ns_version a = false ->
  ns_in_place a = true ->
  Forall (fun x => in_tuple (path_ext x) logos_extensions = false)
         (pre ++ post) ->
  w_files w !! orig = Some text ->
  in_tuple (path_ext orig) logos_extensions = true ->
  logos_extensions_to_normal_extensions !! path_ext orig = Some t ->
  readable env orig = true ->
  writable env orig = true ->
  under (workspace env w) orig = false ->
  let d := workspace env w in
  let tmp_norm := temp_path env d orig t (S (w_next w)) in
  let tmp_logos := temp_path env d orig (path_ext orig) (S (S (w_next w))) in
  spawn env (clang_format_path env :: "-i" :: pre ++ tmp_norm :: post)
        (<[tmp_norm := logos_to_norm (universal_newlines text)]>
           (<[tmp_logos := ""]> (<[tmp_norm := ""]> (w_files w))))
  = (Exited 0 out, fs2) ->
  fs2 !! tmp_norm = Some formatted ->
  exists w',
    real_main env a (pre ++ orig :: post) w = (Ok 0%Z, w') /\
    w_files w' !! orig = Some (norm_to_logos (universal_newlines formatted)) /\
    w_stdout w' = w_stdout w +:+ out.
Proof.
  intros Hv Hip Hrest Hfile Hext Hlook Hr Hw Hout d tmp_norm tmp_logos
         Hspawn Hformatted.
  apply Forall_app in Hrest as [Hpre Hpost].
  assert (Hn : tmp_norm <> orig)
    by (apply (not_under_ne d); [apply temp_path_under | exact Hout]).
  assert (Hl : tmp_logos <> orig)
    by (apply (not_under_ne d); [apply temp_path_under | exact Hout]).
  set (fs1 := <[tmp_norm := logos_to_norm (universal_newlines text)]>
                (<[tmp_logos := ""]> (<[tmp_norm := ""]> (w_files w))))
    in *.
  set (st := mkSession (pre ++ tmp_norm :: post) [(tmp_norm, tmp_logos)]
                       [(tmp_logos, orig)]).
  rewrite (real_main_unfold env a _ w Hv). cbv zeta. fold d. rewrite Hip.
  set (w1 := mkWorld _ _ _ _).
  assert (Hloop : exists n tr,
    for_each (classify_and_transform env d true (ns_save_logos_temps a))
             (pre ++ orig :: post) empty_session w1
    = (Ok st, mkWorld fs1 n (w_stdout w) tr)).
  { rewrite for_each_app, pass_through_loop by exact Hpre.
    cbn [for_each]. unfold bind at 1.
    rewrite classify_and_transform_unfold.
    assert (Hrec : recognized w1 orig = true).
    { unfold recognized, w1. cbn [w_files]. rewrite Hfile, Hext.
      apply andb_true_intro. split; [| reflexivity].
      apply bool_decide_eq_true. eauto. }
    rewrite Hrec, Hr, Hw. cbn [negb].
    rewrite (transform_to_temp_run env d true (ns_save_logos_temps a) _ orig
               w1 t text Hlook)
      by (unfold w1; cbn [w_files w_next];
          now rewrite !lookup_insert_ne by assumption).
    rewrite andb_false_r. cbv zeta.
    rewrite pass_through_loop by exact Hpost.
    unfold w1. cbn [w_files w_next w_stdout w_trace].
    fold tmp_norm tmp_logos. fold fs1.
    cbn [new_cf_args tmp_norm_to_tmp_logos tmp_logos_to_orig_logos
         empty_session dict_set app].
    rewrite <- app_assoc. cbn [app]. fold st. eauto. }
  destruct Hloop as (n & tr & Hloop).
  assert (Hfmt : exists n' tr',
    run_clang_format env true st (mkWorld fs1 n (w_stdout w) tr)
    = (Ok 0%Z,
       mkWorld (<[orig := norm_to_logos (universal_newlines formatted)]>
                  (<[tmp_logos := norm_to_logos (universal_newlines formatted)]>
                     fs2))
               n' (w_stdout w +:+ out) tr')).
  { rewrite run_clang_format_unfold. cbv zeta. unfold new_cf_cmd, launched, st.
    set (so := w_stdout w).
    cbn [new_cf_args w_files w_next w_stdout w_trace].
    rewrite Hspawn. cbn [fst snd Z.eqb].
    unfold post_process. cbn [tmp_norm_to_tmp_logos tmp_logos_to_orig_logos].
    cbv beta iota zeta delta
      [bind ret raise print emit get_files set_files for_each
       read_file write_file w_files w_next w_stdout w_trace].
    rewrite Hformatted, lookup_insert_eq.
    rewrite (universal_newlines_plain
               (norm_to_logos (universal_newlines formatted)))
      by apply norm_to_logos_keeps_free, universal_newlines_free.
    eauto. }
  destruct Hfmt as (n' & tr' & Hfmt).
  unfold bind. rewrite Hloop, Hfmt.
  eexists. split; [reflexivity |]. split; [| now rewrite cleanup_stdout].
  rewrite cleanup_outside by exact Hout. cbn [w_files].
  apply lookup_insert_eq.
Qed.

Lemma X14_in_place_commit_witness :
  exists w',
    real_main (sample_env true (Exited 0 "")) in_place_args
              (["-style=file"] ++ "Tweak.xm" :: []) crlf_world
    = (Ok 0%Z, w') /\
    w_files w' !! "Tweak.xm" =
      Some (norm_to_logos
              (universal_newlines
                 (logos_to_norm
                    (universal_newlines
                       ("%hook SpringBoard" +:+ crlf +:+
                        "- (void)launch { %orig; }" +:+ crlf +:+
                        "%end" +:+ crlf))))) /\
    w_stdout w' = w_stdout crlf_world +:+ "".
Proof.
  eapply (X14_in_place_commit (sample_env true (Exited 0 "")) in_place_args
            ["-style=file"] "Tweak.xm" [] crlf_world ".mm").
  - reflexivity.
  - reflexivity.
  - repeat constructor.
  - reflexivity.
  - reflexivity.
  - reflexivity.
  - reflexivity.
  - reflexivity.
  - reflexivity.
  - reflexivity.
  - vm_compute. reflexivity.
Defined.

(** * Stream mode reads only *)

Lemma substituted_recognized_not_in d w q args xs :
  Forall2 (substituted d w) args xs ->
  under d q = false -> recognized w q = true -> ~ In q xs.
Proof.
  intros Hall Hq Hrec. induction Hall as [|x y xs ys Hxy _ IH]; [auto |].
  intros [<- | Hin]; [| auto].
  destruct Hxy as ([-> | Hu] & Hr & _); [| congruence].
  rewrite (Hr Hrec) in Hq. discriminate Hq.
Qed.

(** X16: in stream mode a run leaves every recognized source outside the
    workspace with the text it had, however the run ends: the formatter is
    given the temporary file in its place.  The formatter is taken to
    change only files named in its arguments. *)
Theorem X16_stream_mode_leaves_sources env a args w r w' q :
  spawn_frame env ->
  ns_version a = false ->
  ns_in_place a = false ->
  real_main env a args w = (r, w') ->
  under (workspace env w) q = false ->
  recognized w q = true ->
  w_files w' !! q = w_files w !! q.
Proof.
  intros Hframe Hv Hip Hrun Hq Hrec.
  destruct (formatting_run env a args w r w' Hv Hrun)
    as (w2 & evs & Hsteps & _ & _ & _ & Hcases).
  set (d := workspace env w) in *.
  pose proof (proj1 Hsteps q Hq) as Hw2.
  destruct Hcases as [(msg & arg & -> & _ & _ & ->)
                     | (st & w3 & _ & Hsess & Hall & _ & Hfmt & ->)].
  - now rewrite cleanup_outside.
  - rewrite cleanup_outside by exact Hq. rewrite <- Hw2.
    pose proof (substituted_recognized_not_in d w q _ _ Hall Hq Hrec) as Hargs.
    rewrite Hip in Hfmt.
    assert (Hlaunch :
      w_files (launched env (new_cf_cmd env false st) w2) !! q
      = w_files w2 !! q).
    { cbn [launched w_files]. apply Hframe. exact Hargs. }
    rewrite run_clang_format_unfold in Hfmt. cbv zeta in Hfmt.
    destruct (spawn env _ (w_files w2)).1 as [rc out | e].
    + destruct (Z.eqb rc 0).
      * injection Hfmt as <- <-. exact Hlaunch.
      * injection Hfmt as <- <-. exact Hlaunch.
    + assert (Hw : w3 = launched env (new_cf_cmd env false st) w2)
        by (destruct e; cbn [is_Exception] in Hfmt; congruence).
      rewrite Hw. exact Hlaunch.
Qed.

Lemma X16_stream_mode_leaves_sources_witness :
  w_files (real_main (sample_env true (Exited 0 "int x;")) stream_args
                     ["-style=file"; "Tweak.xm"] sample_world).2
    !! "Tweak.xm"
  = w_files sample_world !! "Tweak.xm".
Proof.
  apply (X16_stream_mode_leaves_sources
           (sample_env true (Exited 0 "int x;")) stream_args
           ["-style=file"; "Tweak.xm"] sample_world _ _ "Tweak.xm"
           (sample_frame _ _) eq_refl eq_refl (surjective_pairing _));
    vm_compute; reflexivity.
Defined.

(** * What is removed *)

Lemma removals_app a b : removals (a ++ b) = removals a ++ removals b.
Proof.
  induction a as [|e a IH]; [reflexivity |].
  destruct e; cbn [app removals]; now rewrite ?IH.
Qed.

Lemma keeps_trees_ret {A} (a : A) : keeps_trees (ret a).
Proof. intros w. reflexivity. Qed.

Lemma keeps_trees_raise {A} e : keeps_trees (@raise A e).
Proof. intros w. reflexivity. Qed.

Lemma keeps_trees_bind {A B} (m : M A) (k : A -> M B) :
  keeps_trees m -> (forall a, keeps_trees (k a)) -> keeps_trees (bind m k).
Proof.
  intros Hm Hk w. unfold bind. specialize (Hm w).
  destruct (m w) as [[a | e] w1]; cbn [snd] in *; [| exact Hm].
  now rewrite (Hk a w1).
Qed.

Lemma keeps_trees_emit e : removals [e] = [] -> keeps_trees (emit e).
Proof.
  intros He w. unfold emit. cbn [snd w_trace].
  now rewrite removals_app, He, app_nil_r.
Qed.

Lemma keeps_trees_same_trace {A} (m : M A) :
  (forall w, w_trace (m w).2 = w_trace w) -> keeps_trees m.
Proof. intros H w. now rewrite H. Qed.

Lemma keeps_trees_read_file p : keeps_trees (read_file p).
Proof.
  unfold read_file. apply keeps_trees_bind;
    [now apply keeps_trees_emit | intros _].
  apply keeps_trees_bind; [now apply keeps_trees_same_trace | intros fs].
  destruct (fs !! p); [apply keeps_trees_ret | apply keeps_trees_raise].
Qed.

Lemma keeps_trees_write_file p text : keeps_trees (write_file p text).
Proof.
  unfold write_file. apply keeps_trees_bind;
    [now apply keeps_trees_emit | intros _].
  apply keeps_trees_bind; [now apply keeps_trees_same_trace | intros fs].
  now apply keeps_trees_same_trace.
Qed.

Lemma keeps_trees_for_each {A S} (body : S -> A -> M S) xs :
  (forall st x, keeps_trees (body st x)) ->
  forall st, keeps_trees (for_each body xs st).
Proof.
  intros Hb. induction xs as [|x xs IH]; intros st; cbn [for_each].
  - apply keeps_trees_ret.
  - apply keeps_trees_bind; auto.
Qed.

Lemma keeps_trees_post_process in_place st out :
  keeps_trees (post_process in_place st out).
Proof.
  unfold post_process. destruct in_place;
    [| now apply keeps_trees_same_trace].
  apply keeps_trees_bind; [now apply keeps_trees_same_trace | intros _].
  apply keeps_trees_bind; [| intros _].
  - apply keeps_trees_for_each. intros [] [tmp_norm tmp_logos].
    apply keeps_trees_bind; [apply keeps_trees_read_file |].
    intros text. apply keeps_trees_write_file.
  - apply keeps_trees_for_each. intros [] [tmp_logos orig_logos].
    apply keeps_trees_bind; [apply keeps_trees_read_file |].
    intros text. apply keeps_trees_write_file.
Qed.

Lemma keeps_trees_run_clang_format env in_place st :
  keeps_trees (run_clang_format env in_place st).
Proof.
  intros w. rewrite run_clang_format_unfold. cbv zeta.
  assert (Hl : removals (w_trace (launched env (new_cf_cmd env in_place st) w))
               = removals (w_trace w)).
  { cbn [launched w_trace]. now rewrite removals_app, app_nil_r. }
  destruct (spawn env _ (w_files w)).1 as [rc out | e].
  - destruct (Z.eqb rc 0); [| exact Hl].
    rewrite <- Hl. apply keeps_trees_bind;
      [apply keeps_trees_post_process | intros; apply keeps_trees_ret].
  - destruct e; cbn [is_Exception snd]; exact Hl.
Qed.

Lemma keeps_trees_classify env d in_place save_temps st arg :
  keeps_trees (classify_and_transform env d in_place save_temps st arg).
Proof.
  intros w. rewrite classify_and_transform_unfold.
  destruct (recognized w arg) eqn:Hrec; [| reflexivity].
  destruct (negb (readable env arg)); [reflexivity |].
  destruct (negb (writable env arg)); [reflexivity |].
  destruct (transform_to_temp_ready env d in_place arg w Hrec)
    as (t & text & Hlook & Htext).
  rewrite (transform_to_temp_run env d in_place save_temps st arg w t text
             Hlook Htext).
  cbn [snd w_trace]. rewrite removals_app.
  destruct in_place, save_temps; cbn; now rewrite app_nil_r.
Qed.

(** X17: the workspace at the end of a formatting run.  Without
    [--save-logos-temps] the run removes exactly one directory tree, the
    workspace, on every path (a [PermissionError], a formatter failure, a
    success), and no file is left in it; with [--save-logos-temps] the run
    removes nothing. *)
Theorem X17_removal_of_the_workspace env a args w r w' :
  ns_version a = false ->
  real_main env a args w = (r, w') ->
  removals (w_trace w') =
    removals (w_trace w) ++
    (if ns_save_logos_temps a then [] else [workspace env w]) /\
  (ns_save_logos_temps a = false ->
   forall q, under (workspace env w) q = true -> w_files w' !! q = None).
Proof.
  intros Hv Hrun.
  rewrite (real_main_unfold env a args w Hv) in Hrun. cbv zeta in Hrun.
  set (d := workspace env w) in *.
  set (w1 := mkWorld _ _ _ _) in Hrun.
  assert (Hbody : keeps_trees
    (st <- for_each (classify_and_transform env d (ns_in_place a)
                                            (ns_save_logos_temps a))
                    args empty_session ;;
     run_clang_format env (ns_in_place a) st)).
  { apply keeps_trees_bind.
    - apply keeps_trees_for_each. intros st x. apply keeps_trees_classify.
    - intros st. apply keeps_trees_run_clang_format. }
  specialize (Hbody w1).
  destruct (bind _ _ w1) as [r2 w2]. injection Hrun as <- <-.
  cbn [snd] in Hbody.
  assert (Hw1 : removals (w_trace w1) = removals (w_trace w)).
  { unfold w1. cbn [w_trace]. now rewrite removals_app, app_nil_r. }
  split.
  - unfold cleanup. destruct (ns_save_logos_temps a).
    + now rewrite app_nil_r, Hbody, Hw1.
    + rewrite rmtree_unfold. cbn [snd w_trace].
      now rewrite removals_app, Hbody, Hw1.
  - intros -> q Hq. unfold cleanup. rewrite rmtree_unfold. cbn [snd w_files].
    apply map_lookup_filter_None. right. intros x _. cbn [fst]. congruence.
Qed.

Lemma X17_removal_of_the_workspace_witness :
  removals (w_trace (real_main (sample_env true (Exited 2 "error: X"))
                               (mkNamespace false false true true)
                               ["Tweak.xm"] sample_world).2)
  = [].
Proof.
  exact (proj1 (X17_removal_of_the_workspace
                  (sample_env true (Exited 2 "error: X"))
                  (mkNamespace false false true true)
                  ["Tweak.xm"] sample_world _ _
                  eq_refl (surjective_pairing _))).
Defined.

(** * The help text *)

Lemma splitlines_nil s : splitlines s = [] -> s = "".
Proof.
  destruct s as [|c s]; [reflexivity |]. unfold splitlines.
  cbn [splitlines_go andb]. destruct (is_linebreak c); [discriminate |].
  destruct (splitlines_go false s); discriminate.
Qed.

(** A text that starts with a hyphen starts with no whitespace. *)
Lemma span_space_hyphen pre r :
  all_chars is_space pre = true ->
  span_space (pre +:+ String "-" r) = (pre, String "-" r).
Proof.
  induction pre as [|c pre IH]; [reflexivity |].
  cbn [all_chars String.append span_space]. intros H.
  apply andb_prop in H as [-> H]. now rewrite (IH H).
Qed.

Lemma span_space_all s : all_chars is_space (span_space s).1 = true.
Proof.
  induction s as [|c s IH]; [reflexivity |]. cbn [span_space].
  destruct (is_space c) eqn:Hc; [| reflexivity].
  destruct (span_space s) as [ws rest]. cbn [fst all_chars] in *.
  now rewrite Hc, IH.
Qed.

Lemma match_verbose_pre line pre_space post_space :
  match_verbose line = Some (pre_space, post_space) ->
  all_chars is_space pre_space = true.
Proof.
  unfold match_verbose. pose proof (span_space_all line) as H.
  destruct (span_space line) as [pre rest]. cbn [fst] in H.
  destruct (String.eqb pre ""); [discriminate |].
  destruct (startswith "--verbose" rest); [| discriminate].
  destruct (span_space (drop_str 9 rest)) as [post rest'].
  destruct (String.eqb post ""); [discriminate |].
  destruct (startswith "-" rest'); [| discriminate].
  now intros [= <- _].
Qed.

(** The lines inserted are no [--verbose] lines themselves. *)
Lemma logos_verbose_line_no_match prog pre_space post_space :
  all_chars is_space pre_space = true ->
  match_verbose (logos_verbose_line prog pre_space post_space) = None.
Proof.
  intros H. unfold logos_verbose_line, match_verbose. cbv zeta.
  rewrite !app_str_assoc. cbn [String.append].
  rewrite (span_space_hyphen _ _ H).
  destruct (String.eqb pre_space ""); reflexivity.
Qed.

Lemma logos_save_temps_line_no_match prog pre_space post_space :
  all_chars is_space pre_space = true ->
  match_verbose (logos_save_temps_line prog pre_space post_space) = None.
Proof.
  intros H. unfold logos_save_temps_line, match_verbose. cbv zeta.
  rewrite !app_str_assoc. cbn [String.append].
  rewrite (span_space_hyphen _ _ H).
  destruct (String.eqb pre_space ""); reflexivity.
Qed.

Lemma list_insert_app {A} (done : list A) k x l :
  list_insert (length done + k) x (done ++ l) = done ++ list_insert k x l.
Proof.
  induction done as [|y done IH]; [reflexivity |].
  cbn [length Nat.add app list_insert]. now rewrite IH.
Qed.

Lemma nth_error_after {A} (done : list A) k l :
  nth_error (done ++ l) (length done + k) = nth_error l k.
Proof.
  induction done as [|y done IH]; [reflexivity |]. exact IH.
Qed.

(** The loop comes to an end, and what it makes of the lines from the
    current one on does not depend on the fuel once there is enough. *)
Lemma help_loop_spec prog rest : forall done fuel,
  3 * length rest < fuel ->
  help_loop fuel prog (length done) (done ++ rest) =
  Some (done ++ flat_map (with_logos_options prog) rest).
Proof.
  induction rest as [|line rest IH]; intros done fuel Hfuel.
  - destruct fuel as [|fuel]; [cbn in Hfuel; lia |]. cbn [help_loop].
    rewrite <- (Nat.add_0_r (length done)) at 1.
    now rewrite nth_error_after.
  - destruct fuel as [|fuel]; [lia |]. cbn [help_loop].
    rewrite <- (Nat.add_0_r (length done)) at 1.
    rewrite nth_error_after. cbn [nth_error flat_map].
    unfold with_logos_options at 1.
    destruct (match_verbose line) as [[pre_space post_space] |] eqn:Hm.
    + pose proof (match_verbose_pre _ _ _ Hm) as Hpre.
      rewrite !list_insert_app. cbn [list_insert].
      set (l1 := logos_verbose_line prog pre_space post_space).
      set (l2 := logos_save_temps_line prog pre_space post_space).
      cbn [length] in Hfuel.
      destruct fuel as [|fuel]; [lia |]. cbn [help_loop].
      replace (S (length done)) with (length done + 1) by lia.
      rewrite nth_error_after. cbn [nth_error].
      unfold l1 at 1. rewrite logos_verbose_line_no_match by exact Hpre.
      destruct fuel as [|fuel]; [lia |]. cbn [help_loop].
      replace (S (length done + 1)) with (length done + 2) by lia.
      rewrite nth_error_after. cbn [nth_error].
      unfold l2 at 1. rewrite logos_save_temps_line_no_match by exact Hpre.
      replace (done ++ line :: l1 :: l2 :: rest)
        with ((done ++ [line; l1; l2]) ++ rest)
        by (rewrite <- app_assoc; reflexivity).
      replace (S (length done + 2)) with (length (done ++ [line; l1; l2]))
        by (rewrite length_app; cbn [length]; lia).
      rewrite IH by lia. now rewrite <- app_assoc.
    + replace (done ++ line :: rest) with ((done ++ [line]) ++ rest)
        by (rewrite <- app_assoc; reflexivity).
      replace (S (length done)) with (length (done ++ [line]))
        by (rewrite length_app; cbn [length]; lia).
      cbn [length] in Hfuel. rewrite IH by lia. now rewrite <- app_assoc.
Qed.

(** X20: [format_help] on the help text of clang-format, given fuel for
    three rounds per line.  It ends with [IndexError] exactly when
    clang-format printed nothing.  Otherwise the loop over the lines comes
    to an end, and the result is: the first line replaced by the overview
    line, each [--verbose] line followed by the two lines made for it (which
    are not taken for [--verbose] lines in their turn), the lines joined by
    newlines, [clang-format] replaced by the program name where no dot
    precedes it, the Logos extensions added to the Objective-C ones, and a
    final newline. *)
Theorem X20_help_text_spec fuel prog clang_help_str :
  3 * length (splitlines clang_help_str) < fuel ->
  (help_text fuel prog clang_help_str = HelpIndexError <->
   clang_help_str = "") /\
  forall first rest,
    splitlines clang_help_str = first :: rest ->
    help_text fuel prog clang_help_str =
    HelpText
      (str_replace
         "Objective-C: .m .mm" "Objective-C: .m .mm .x .xi .xm .xmi"
         (sub_prog prog
            (join nl
               (flat_map (with_logos_options prog)
                  (("OVERVIEW: " +:+ prog +:+ ": A tool to format Logos code.")
                   :: rest))))
       +:+ nl).
Proof.
  intros Hfuel.
  assert (Hrun : forall first rest,
    splitlines clang_help_str = first :: rest ->
    help_text fuel prog clang_help_str =
    HelpText
      (str_replace
         "Objective-C: .m .mm" "Objective-C: .m .mm .x .xi .xm .xmi"
         (sub_prog prog
            (join nl
               (flat_map (with_logos_options prog)
                  (("OVERVIEW: " +:+ prog +:+ ": A tool to format Logos code.")
                   :: rest))))
       +:+ nl)).
  { intros first rest Hs. unfold help_text. rewrite Hs in Hfuel |- *.
    cbv zeta. cbn [length] in Hfuel.
    pose proof (help_loop_spec prog
      (("OVERVIEW: " +:+ prog +:+ ": A tool to format Logos code.") :: rest)
      [] fuel) as Hloop.
    cbn [length app] in Hloop. rewrite Hloop by lia. reflexivity. }
  split; [| exact Hrun]. split.
  - intros H. destruct (splitlines clang_help_str) as [|first rest] eqn:Hs;
      [now apply splitlines_nil |].
    rewrite (Hrun first rest eq_refl) in H. discriminate H.
  - intros ->. reflexivity.
Qed.

Lemma X20_help_text_spec_witness :
  help_text 9 "logos-format" "" = HelpIndexError /\
  help_text 9 "logos-format"
    ("OVERVIEW: A tool." +:+ nl +:+ " --verbose   - If set" +:+ nl)
  = HelpText ("OVERVIEW: logos-format: A tool to format Logos code." +:+ nl +:+
              " --verbose   - If set" +:+ nl +:+
              " --verbose-logos- If set, shows verbose operation of logos-format."
              +:+ nl +:+
              " --save-logos-temps- If set, don't delete temporary logos-format files."
              +:+ nl).
Proof.
  split.
  - apply (proj1 (X20_help_text_spec 9 "logos-format" "" ltac:(cbn; lia))).
    reflexivity.
  - rewrite (proj2 (X20_help_text_spec 9 "logos-format"
               ("OVERVIEW: A tool." +:+ nl +:+ " --verbose   - If set" +:+ nl)
               ltac:(vm_compute; lia))
             "OVERVIEW: A tool." [" --verbose   - If set"] eq_refl).
    vm_compute. reflexivity.
Defined.

Lemma length_repeat_space n : String.length (repeat_space n) = n.
Proof. induction n as [|n IH]; cbn; [reflexivity | now rewrite IH]. Qed.

(** X21: the two help lines made for a [--verbose] line.  The option
    name follows the same indentation, and is padded with spaces so that
    the hyphen of the description stands in the column of the hyphen of
    the [--verbose] line, when the whitespace after [--verbose] leaves room
    for it (6 characters for [--verbose-logos], 9 for [--save-logos-temps]);
    with less room the hyphen follows the option name at once. *)
Theorem X21_inserted_lines_align prog pre_space post_space :
  let room := String.length post_space in
  logos_verbose_line prog pre_space post_space =
    (pre_space +:+ "--verbose-logos" +:+ repeat_space (room - 6)) +:+
    "- If set, shows verbose operation of " +:+ prog +:+ "." /\
  logos_save_temps_line prog pre_space post_space =
    (pre_space +:+ "--save-logos-temps" +:+ repeat_space (room - 9)) +:+
    "- If set, don't delete temporary " +:+ prog +:+ " files." /\
  (6 <= room ->
   String.length (pre_space +:+ "--verbose-logos" +:+ repeat_space (room - 6))
   = String.length (pre_space +:+ "--verbose" +:+ post_space)) /\
  (9 <= room ->
   String.length (pre_space +:+ "--save-logos-temps"
                  +:+ repeat_space (room - 9))
   = String.length (pre_space +:+ "--verbose" +:+ post_space)).
Proof.
  intros room. unfold logos_verbose_line, logos_save_temps_line,
    num_chars_before_dash, spaces. cbv zeta.
  assert (H0 : String.length (pre_space +:+ "--verbose" +:+ post_space +:+ "-")
               = String.length pre_space + 9 + room + 1)
    by (rewrite !length_app_str; cbn [String.length]; fold room; lia).
  assert (H1 : String.length (pre_space +:+ "--verbose-logos")
               = String.length pre_space + 15)
    by (rewrite !length_app_str; reflexivity).
  assert (H2 : String.length (pre_space +:+ "--save-logos-temps")
               = String.length pre_space + 18)
    by (rewrite !length_app_str; reflexivity).
  rewrite H0, H1, H2.
  replace (Z.to_nat (Z.of_nat (String.length pre_space + 9 + room + 1) - 1
                     - Z.of_nat (String.length pre_space + 15)))
    with (room - 6) by lia.
  replace (Z.to_nat (Z.of_nat (String.length pre_space + 9 + room + 1) - 1
                     - Z.of_nat (String.length pre_space + 18)))
    with (room - 9) by lia.
  rewrite !app_str_assoc. repeat split.
  - intros H. rewrite !length_app_str, length_repeat_space.
    cbn [String.length]. fold room. lia.
  - intros H. rewrite !length_app_str, length_repeat_space.
    cbn [String.length]. fold room. lia.
Qed.
